(** * django-oscar-fees: the rule evaluation and fee-allocation engine

    A shallow embedding of [django_oscar_fees/models.py],
    [django_oscar_fees/fees.py], [django_oscar_fees/applicator.py],
    [django_oscar_fees/managers.py], [django_oscar_fees/mixins.py] and
    [results.py], and the properties of the engine proved over it.

    Conventions of the embedding:
    - a [Decimal] is an exact rational ([Qc], canonical fractions, so that
      equality is Leibniz equality); the context precision of Python's
      decimal module is taken to be sufficient for the amounts involved;
    - Python exceptions are the [Raise] outcomes of the [result] type; an
      exception aborts the evaluation, the state it leaves is not observed;
    - objects that are mutated in place (basket lines, the basket) live in
      an explicit store: a line object is identified by its position in the
      basket's cached line list;
    - a Django [CharField] is a [string], a nullable field an [option]. *)

From Stdlib Require Import QArith Qcanon Qround.
From stdpp Require Import base numbers list sorting gmap option strings.

Local Open Scope Z_scope.

(** ** Decimal *)

Abbreviation Decimal := Qc.

(** [D('x.yy')] written in hundredths: [D 1050] is [Decimal('10.50')]. *)
Definition D (hundredths : Z) : Decimal := Q2Qc (Qmake hundredths 100).

(** [Decimal * int] and [Decimal / int] coerce the integer. *)
Definition of_int (n : Z) : Decimal := Qc_of_Z n.

(** [int(d)]: truncation toward zero. *)
Definition int (d : Decimal) : Z := Z.quot (Qnum d) (Z.pos (Qden d)).

(** [amount.quantize(D('.01'), ROUND_DOWN)]: truncation toward zero at two
    decimal places. *)
Definition quantize_down (amount : Decimal) : Decimal :=
  D (int (amount * of_int 100)%Qc).

(** Python's [min(a, b)]: the first argument unless the second is smaller. *)
Definition decimal_min (a b : Decimal) : Decimal :=
  if bool_decide (b < a)%Qc then b else a.

(** Python's [min] on a list of integers (the list is never empty where the
    program calls it). *)
Definition min_list (l : list Z) : Z :=
  match l with
  | [] => 0
  | x :: r => foldl Z.min x r
  end.

(** Truthiness of optional numbers: [None] and zero are falsy. *)
Definition truthy_int (o : option Z) : bool :=
  match o with Some n => bool_decide (n ≠ 0) | None => false end.

Definition truthy_decimal (o : option Decimal) : bool :=
  match o with Some d => bool_decide (d ≠ 0%Qc) | None => false end.

(** ** Exceptions and outcomes *)

Inductive exn :=
  | NotImplementedError
  | RuntimeError
  | TypeError
  | AttributeError
  | IndexError
  | DivisionByZero.

Inductive result (A : Type) :=
  | Ok (a : A)
  | Raise (e : exn)
  | OutOfFuel.
Arguments Ok {A} a.
Arguments Raise {A} e.
Arguments OutOfFuel {A}.

Definition bind {A B} (m : result A) (k : A → result B) : result B :=
  match m with
  | Ok a => k a
  | Raise e => Raise e
  | OutOfFuel => OutOfFuel
  end.

Notation "x <- m ;; k" := (bind m (λ x, k))
  (at level 100, m at next level, right associativity).

#[global] Instance exn_eq_dec : EqDecision exn.
Proof. solve_decision. Defined.

#[global] Instance result_eq_dec {A} `{EqDecision A} : EqDecision (result A).
Proof. solve_decision. Defined.

(** ** Data model *)

Definition RangeId := Z.
Definition ProductId := Z.
Definition User := Z.
Definition datetime := Z.

Module Condition.
(** [oscar.apps.offer.abstract_models.AbstractCondition], the fields the
    engine reads. *)
Record t := {
  range : option RangeId;
  type : string;
  value : Decimal;
  proxy_class : option string
}.
#[global] Instance eq_dec : EqDecision t.
Proof. solve_decision. Defined.
End Condition.

Module Fee.
Record t := {
  id : Z;
  range : option RangeId;
  type : string;
  value : option Decimal;
  proxy_class : option string
}.
#[global] Instance eq_dec : EqDecision t.
Proof. solve_decision. Defined.
End Fee.

Definition OPEN : string := "Open"%string.
Definition SUSPENDED : string := "Suspended"%string.
Definition CONSUMED : string := "Consumed"%string.

Definition SITE : string := "Site"%string.
Definition USER : string := "User"%string.
Definition SESSION : string := "Session"%string.

Module ConditionalFee.
Record t := {
  id : Z;
  name : string;
  offer_type : string;
  status : string;
  condition : Condition.t;
  fee : Fee.t;
  start_datetime : option datetime;
  end_datetime : option datetime;
  max_global_applications : option Z;
  max_user_applications : option Z;
  max_basket_applications : option Z;
  max_fee : option Decimal;
  total_fee : Decimal;
  num_applications : Z;
  num_orders : Z
}.
#[global] Instance eq_dec : EqDecision t.
Proof. solve_decision. Defined.

Definition set_status (s : string) (self : t) : t :=
  {| id := id self; name := name self; offer_type := offer_type self;
     status := s;
     condition := condition self; fee := fee self;
     start_datetime := start_datetime self;
     end_datetime := end_datetime self;
     max_global_applications := max_global_applications self;
     max_user_applications := max_user_applications self;
     max_basket_applications := max_basket_applications self;
     max_fee := max_fee self;
     total_fee := total_fee self;
     num_applications := num_applications self;
     num_orders := num_orders self |}.

Definition set_usage (tf : Decimal) (na no : Z) (self : t) : t :=
  {| id := id self; name := name self; offer_type := offer_type self;
     status := status self;
     condition := condition self; fee := fee self;
     start_datetime := start_datetime self;
     end_datetime := end_datetime self;
     max_global_applications := max_global_applications self;
     max_user_applications := max_user_applications self;
     max_basket_applications := max_basket_applications self;
     max_fee := max_fee self;
     total_fee := tf;
     num_applications := na;
     num_orders := no |}.
End ConditionalFee.

(** ** ConditionalFee: usage limits, status and availability (models.py) *)

Section Rule.
Import ConditionalFee.

Definition is_open (self : t) : bool := bool_decide (status self = OPEN).

Definition is_suspended (self : t) : bool :=
  bool_decide (status self = SUSPENDED).

(** The body starts with [raise NotImplementedError]; the query after it is
    never reached. *)
Definition get_num_user_applications (self : t) (user : User) : result Z :=
  Raise NotImplementedError.

Definition get_max_applications (self : t) (user : option User) : result Z :=
  if truthy_decimal (max_fee self)
     && bool_decide (default 0%Qc (max_fee self) ≤ total_fee self)%Qc
  then Ok 0
  else
    let limits := [10000] in
    limits <-
      (if truthy_int (max_user_applications self) && bool_decide (is_Some user)
       then
         used <- get_num_user_applications self (default 0 user);;
         Ok (limits ++
               [Z.max 0 (default 0 (max_user_applications self) - used)])
       else Ok limits);;
    let limits :=
      if truthy_int (max_basket_applications self)
      then limits ++ [default 0 (max_basket_applications self)]
      else limits in
    let limits :=
      if truthy_int (max_global_applications self)
      then limits ++
             [Z.max 0 (default 0 (max_global_applications self)
                       - num_applications self)]
      else limits in
    Ok (min_list limits).

(** [super().save()] writes the row; the store of rules is external. *)
Definition save (self : t) : result t :=
  if negb (is_suspended self) then
    m <- get_max_applications self None;;
    if bool_decide (m = 0) then Ok (set_status CONSUMED self)
    else Ok (set_status OPEN self)
  else Ok self.

Definition suspend (self : t) : result t :=
  save (set_status SUSPENDED self).

Definition unsuspend (self : t) : result t :=
  save (set_status OPEN self).

(** [record_usage(fee)] with [fee['freq']] and [fee['fee']]. *)
Definition record_usage (self : t) (freq : Z) (amount : Decimal) : result t :=
  save (set_usage (total_fee self + amount)%Qc
                  (num_applications self + freq)
                  (num_orders self + 1) self).

(** [now] is the clock read by [django.utils.timezone.now()]. *)
Definition is_available (now : datetime) (self : t) (user : option User)
    (test_date : option datetime) : result bool :=
  if is_suspended self then Ok false
  else
    let test_date := default now test_date in
    let predicates := [] in
    let predicates :=
      match start_datetime self with
      | Some s => predicates ++ [bool_decide (test_date < s)]
      | None => predicates
      end in
    let predicates :=
      match end_datetime self with
      | Some e => predicates ++ [bool_decide (e < test_date)]
      | None => predicates
      end in
    if existsb (λ p, p) predicates then Ok false
    else
      m <- get_max_applications self user;;
      Ok (bool_decide (0 < m)).

(** The window part of the query of [Applicator.get_site_fees]:
    [date_based | nondate_based], [offer_type=SITE], [status=OPEN]. *)
Definition site_fee_query (cutoff : datetime) (self : t) : bool :=
  let date_based :=
    match start_datetime self with
    | Some s => bool_decide (s ≤ cutoff)
    | None => false
    end
    && match end_datetime self with
       | Some e => bool_decide (cutoff ≤ e)
       | None => true
       end in
  let nondate_based :=
    bool_decide (start_datetime self = None)
    && bool_decide (end_datetime self = None) in
  (date_based || nondate_based)
  && bool_decide (offer_type self = SITE)
  && bool_decide (status self = OPEN).
End Rule.


(** ** Basket lines, results and the ledger (results.py) *)

Module Line.
(** A basket line: the fields read by the engine and the two annotations it
    attaches ([None] while the attribute does not exist). [pk] is the
    primary key compared by [==]. *)
Record t := {
  pk : Z;
  product : ProductId;
  quantity : Z;
  unit_effective_price : option Decimal;
  quantity_without_discount : Z;
  _fee_amount : option Decimal;
  _fee_quantity : option Z
}.
#[global] Instance eq_dec : EqDecision t.
Proof. solve_decision. Defined.

Definition set_annotations (a : option Decimal) (q : option Z) (self : t) : t :=
  {| pk := pk self; product := product self; quantity := quantity self;
     unit_effective_price := unit_effective_price self;
     quantity_without_discount := quantity_without_discount self;
     _fee_amount := a; _fee_quantity := q |}.
End Line.

(** [ApplicationResult] and its subclass [BasketFee]; a result of any other
    class carries its own attributes. *)
Inductive ApplicationResult :=
  | BasketFee (amount : Decimal)
  | OtherResult (final successful : bool) (amount : Decimal)
                (descr : option string).

#[global] Instance ApplicationResult_eq_dec : EqDecision ApplicationResult.
Proof. solve_decision. Defined.

Definition is_final (r : ApplicationResult) : bool :=
  match r with
  | BasketFee _ => true
  | OtherResult f _ _ _ => f
  end.

Definition is_successful (r : ApplicationResult) : bool :=
  match r with
  | BasketFee amount => bool_decide (0 < amount)%Qc
  | OtherResult _ s _ _ => s
  end.

Definition result_fee (r : ApplicationResult) : Decimal :=
  match r with
  | BasketFee amount => amount
  | OtherResult _ _ amount _ => amount
  end.

Definition description (r : ApplicationResult) : option string :=
  match r with
  | BasketFee _ => None
  | OtherResult _ _ _ d => d
  end.

Definition ZERO_FEE : ApplicationResult := BasketFee (D 0).

Module Application.
(** One entry of [FeeApplications.applications]. *)
Record t := {
  fee : ConditionalFee.t;
  result : ApplicationResult;
  name : string;
  description : option string;
  freq : Z;
  amount : Decimal
}.
#[global] Instance eq_dec : EqDecision t.
Proof. solve_decision. Defined.

Definition add_result (r : ApplicationResult) (self : t) : t :=
  {| fee := fee self; result := result self; name := name self;
     description := description self;
     freq := freq self + 1;
     amount := (amount self + result_fee r)%Qc |}.
End Application.

(** [FeeApplications.applications]: a dict keyed by [fee.id]. *)
Abbreviation FeeApplications := (gmap Z Application.t).

Definition FeeApplications_add (self : FeeApplications)
    (fee : ConditionalFee.t) (result : ApplicationResult) : FeeApplications :=
  let self :=
    match self !! ConditionalFee.id fee with
    | None =>
        <[ConditionalFee.id fee :=
            {| Application.fee := fee; Application.result := result;
               Application.name := ConditionalFee.name fee;
               Application.description := description result;
               Application.freq := 0; Application.amount := D 0 |}]> self
    | Some _ => self
    end in
  alter (Application.add_result result) (ConditionalFee.id fee) self.

Module Basket.
Record t := {
  owner : option User;
  all_lines : list Line.t;
  total_test : Z;
  _total_fees_amount : option Decimal;
  _fees : option (list Fee.t);
  fee_applications : option FeeApplications
}.
#[global] Instance eq_dec : EqDecision t.
Proof. solve_decision. Defined.

Definition set_all_lines (ls : list Line.t) (self : t) : t :=
  {| owner := owner self; all_lines := ls; total_test := total_test self;
     _total_fees_amount := _total_fees_amount self; _fees := _fees self;
     fee_applications := fee_applications self |}.

Definition set_total_test (n : Z) (self : t) : t :=
  {| owner := owner self; all_lines := all_lines self; total_test := n;
     _total_fees_amount := _total_fees_amount self; _fees := _fees self;
     fee_applications := fee_applications self |}.

Definition set_fees (a : option Decimal) (fs : option (list Fee.t))
    (self : t) : t :=
  {| owner := owner self; all_lines := all_lines self;
     total_test := total_test self;
     _total_fees_amount := a; _fees := fs;
     fee_applications := fee_applications self |}.

Definition set_fee_applications (apps : option FeeApplications)
    (self : t) : t :=
  {| owner := owner self; all_lines := all_lines self;
     total_test := total_test self;
     _total_fees_amount := _total_fees_amount self; _fees := _fees self;
     fee_applications := apps |}.
End Basket.

(** A reference to a line object: its position in [basket.all_lines()] (the
    identity of the object) with the fields read through it. *)
Definition LineRef : Type := nat * Line.t.

(** ** Proxy classes *)

Inductive ConditionClass :=
  | CountCondition
  | ValueCondition
  | CoverageCondition
  | CustomCondition (klass : string).

Inductive FeeClass :=
  | PercentageFee
  | AbsoluteFee
  | CustomFee (klass : string).

#[global] Instance ConditionClass_eq_dec : EqDecision ConditionClass.
Proof. solve_decision. Defined.

#[global] Instance FeeClass_eq_dec : EqDecision FeeClass.
Proof. solve_decision. Defined.

Definition truthy_string (o : option string) : bool :=
  match o with Some s => bool_decide (s ≠ EmptyString) | None => false end.

(** [Condition.proxy]: a custom class path wins over the type tag. *)
Definition Condition_proxy (self : Condition.t) : result ConditionClass :=
  if truthy_string (Condition.proxy_class self)
  then Ok (CustomCondition (default EmptyString (Condition.proxy_class self)))
  else if bool_decide (Condition.type self = "Count"%string)
  then Ok CountCondition
  else if bool_decide (Condition.type self = "Value"%string)
  then Ok ValueCondition
  else if bool_decide (Condition.type self = "Coverage"%string)
  then Ok CoverageCondition
  else Raise RuntimeError.

Definition PERCENTAGE : string := "Percentage"%string.
Definition FIXED : string := "Absolute"%string.

(** [Fee.proxy]. *)
Definition Fee_proxy (self : Fee.t) : result FeeClass :=
  if truthy_string (Fee.proxy_class self)
  then Ok (CustomFee (default EmptyString (Fee.proxy_class self)))
  else if bool_decide (Fee.type self = PERCENTAGE) then Ok PercentageFee
  else if bool_decide (Fee.type self = FIXED) then Ok AbsoluteFee
  else Raise RuntimeError.

(** ** Collaborators

    What the engine calls and the modules above do not define: oscar's
    product ranges, the Django settings, the condition proxy classes of
    [conditions.py] and the custom classes loaded by [utils.load_proxy]. *)
Class Environment := {
  (** [range.contains(product)] *)
  range_contains : RangeId → ProductId → bool;
  (** [settings.OSCAR_OFFER_ROUNDING_FUNCTION], when the setting exists *)
  OSCAR_OFFER_ROUNDING_FUNCTION : option (Decimal → Decimal);
  (** [condition.is_satisfied(offer, basket)] of each condition class *)
  is_satisfied :
    ConditionClass → Condition.t → ConditionalFee.t → Basket.t → bool;
  (** whether a custom condition class derives from [CoverageCondition] *)
  custom_is_coverage : string → bool;
  (** [apply] of a custom fee class: an exception, or a result and the
      basket as the call leaves it *)
  custom_fee_apply :
    string → Fee.t → Basket.t → ConditionClass → Condition.t →
    ConditionalFee.t → exn + ApplicationResult * Basket.t
}.

(** ** The engine (models.py, fees.py, applicator.py) *)

Section Engine.
Context `{Environment}.

(** [Fee.round]. *)
Definition round (amount : Decimal) : Decimal :=
  match OSCAR_OFFER_ROUNDING_FUNCTION with
  | Some f => f amount
  | None => quantize_down amount
  end.

(** Python's [sorted(..., key=operator.itemgetter(0))], a stable sort on the
    first component: an element is placed before the first element whose key
    is not smaller, and the list is built from its end. *)
Fixpoint insert_by_key {A} (x : Decimal * A) (l : list (Decimal * A))
    : list (Decimal * A) :=
  match l with
  | [] => [x]
  | y :: r =>
      if bool_decide (x.1 ≤ y.1)%Qc then x :: y :: r
      else y :: insert_by_key x r
  end.

Fixpoint sorted {A} (l : list (Decimal * A)) : list (Decimal * A) :=
  match l with
  | [] => []
  | x :: r => insert_by_key x (sorted r)
  end.

(** [enumerate]: each line object with its position. *)
Definition enumerate {A} (l : list A) : list (nat * A) :=
  imap (λ i x, (i, x)) l.

(** The [for line in basket.all_lines()] loop of [get_applicable_lines]. *)
Fixpoint applicable_lines_loop (range : option RangeId)
    (lines : list LineRef) (line_tuples : list (Decimal * LineRef))
    : result (list (Decimal * LineRef)) :=
  match lines with
  | [] => Ok line_tuples
  | line :: rest =>
      match range with
      | None => Raise AttributeError
      | Some r =>
          if negb (range_contains r (Line.product line.2))
          then applicable_lines_loop range rest line_tuples
          else
            match Line.unit_effective_price line.2 with
            | None => applicable_lines_loop range rest line_tuples
            | Some price =>
                if bool_decide (price = 0%Qc)
                then applicable_lines_loop range rest line_tuples
                else if bool_decide (Line.quantity_without_discount line.2 = 0)
                then applicable_lines_loop range rest line_tuples
                else applicable_lines_loop range rest
                       (line_tuples ++ [(price, line)])
            end
      end
  end.

(** [Fee.get_applicable_lines(fee, basket, range)]. *)
Definition get_applicable_lines (self : Fee.t) (fee : ConditionalFee.t)
    (basket : Basket.t) (range : option RangeId)
    : result (list (Decimal * LineRef)) :=
  let range :=
    match range with
    | None => Fee.range self
    | Some r => Some r
    end in
  line_tuples <-
    applicable_lines_loop range (enumerate (Basket.all_lines basket)) [];;
  Ok (sorted line_tuples).

(** [apply_fee_to_line]: the annotations are created at zero when the line
    does not carry them, then added to. *)
Definition apply_fee_to_line (line : Line.t) (line_fee : Decimal)
    (quantity : Z) : Line.t :=
  Line.set_annotations
    (Some (default (D 0) (Line._fee_amount line) + line_fee)%Qc)
    (Some (default 0 (Line._fee_quantity line) + quantity))
    line.

(** [apply_fee_to_basket]. *)
Definition apply_fee_to_basket (basket : Basket.t) (fee : Fee.t)
    (fees_amount : Decimal) (quantity : Z) : Basket.t :=
  Basket.set_fees
    (Some (default (D 0) (Basket._total_fees_amount basket) + fees_amount)%Qc)
    (Some (default [] (Basket._fees basket) ++ [fee]))
    basket.

(** Modelled from the spec: the module [django_oscar_fees/conditions.py],
    which declares the condition proxy classes, is missing, and with it
    their relation to oscar's [CoverageCondition]. Following the spec, the
    affected quantity is one unit per line exactly for a condition of the
    Coverage class ([isinstance(condition, conditions.CoverageCondition)]). *)
Definition isinstance_CoverageCondition (cls : ConditionClass) : bool :=
  match cls with
  | CoverageCondition => true
  | CustomCondition k => custom_is_coverage k
  | _ => false
  end.

(** The first loop of [AbsoluteFee.apply]: the lines to consume. *)
Fixpoint cover_lines (cls : ConditionClass) (num_permitted : Z)
    (line_tuples : list (Decimal * LineRef)) (num_affected : Z)
    (covered_lines : list (Decimal * LineRef * Z))
    : Z * list (Decimal * LineRef * Z) :=
  match line_tuples with
  | [] => (num_affected, covered_lines)
  | (price, line) :: rest =>
      let quantity_affected :=
        if isinstance_CoverageCondition cls then 1
        else Line.quantity line.2 in
      let num_affected := num_affected + quantity_affected in
      let covered_lines := covered_lines ++ [(price, line, quantity_affected)] in
      if bool_decide (num_permitted ≤ num_affected)
      then (num_affected, covered_lines)
      else cover_lines cls num_permitted rest num_affected covered_lines
  end.

(** [Decimal / int]. *)
Definition decimal_div (a : Decimal) (n : Z) : result Decimal :=
  if bool_decide (n = 0) then Raise DivisionByZero
  else Ok (a / of_int n)%Qc.

(** The mutation of a line object through a reference. *)
Definition alter_line (f : Line.t → Line.t) (line : LineRef)
    (basket : Basket.t) : Basket.t :=
  Basket.set_all_lines (alter f line.1 (Basket.all_lines basket)) basket.

(** The second loop of [AbsoluteFee.apply]: the fee of each covered line. *)
Fixpoint allocate (fee_amount : option Decimal) (num_affected : Z)
    (last_line : LineRef) (covered_lines : list (Decimal * LineRef * Z))
    (fee_applied : Decimal) (basket : Basket.t)
    : result (Decimal * Basket.t) :=
  match covered_lines with
  | [] => Ok (fee_applied, basket)
  | (price, line, quantity) :: rest =>
      match fee_amount with
      | None => Raise TypeError
      | Some amount =>
          line_fee <-
            (if bool_decide (Line.pk line.2 = Line.pk last_line.2)
             then Ok (amount - fee_applied)%Qc
             else
               share <- decimal_div (amount * of_int quantity)%Qc num_affected;;
               Ok (round share));;
          let basket :=
            alter_line (λ l, apply_fee_to_line l line_fee quantity)
                       line basket in
          allocate fee_amount num_affected last_line rest
                   (fee_applied + line_fee)%Qc basket
      end
  end.

(** [AbsoluteFee.apply(basket, condition, offer, fee_amount, max_total_fee)];
    the condition is the proxy object: its class and its fields. *)
Definition AbsoluteFee_apply (self : Fee.t) (basket : Basket.t)
    (cls : ConditionClass) (condition : Condition.t) (offer : ConditionalFee.t)
    (fee_amount max_total_fee : option Decimal)
    : result (ApplicationResult * Basket.t) :=
  let fee_amount :=
    match fee_amount with
    | None => Fee.value self
    | Some a => Some a
    end in
  fee_amount <-
    match max_total_fee with
    | Some m =>
        match fee_amount with
        | Some a => Ok (Some (decimal_min a m))
        | None => Raise TypeError
        end
    | None => Ok fee_amount
    end;;
  if bool_decide (fee_amount = Some 0%Qc) then Ok (ZERO_FEE, basket)
  else
    line_tuples <-
      get_applicable_lines self offer basket (Condition.range condition);;
    if bool_decide (line_tuples = []) then Ok (ZERO_FEE, basket)
    else
      let num_permitted := int (Condition.value condition) in
      let num_affected := 0 in
      let covered_lines := [] in
      let covered :=
        cover_lines cls num_permitted line_tuples num_affected covered_lines in
      let num_affected := covered.1 in
      let covered_lines := covered.2 in
      let fee_applied := D 0 in
      match last covered_lines with
      | None => Raise IndexError
      | Some (_, last_line, _) =>
          allocated <-
            allocate fee_amount num_affected last_line covered_lines
                     fee_applied basket;;
          match fee_amount with
          | None => Raise TypeError
          | Some amount =>
              let basket := apply_fee_to_basket allocated.2 self amount 1 in
              Ok (BasketFee amount, basket)
          end
      end.

(** [PercentageFee.apply]. *)
Definition PercentageFee_apply (self : Fee.t) (basket : Basket.t)
    (cls : ConditionClass) (condition : Condition.t) (offer : ConditionalFee.t)
    : result (ApplicationResult * Basket.t) :=
  Raise NotImplementedError.

(** [ConditionalFee.is_condition_satisfied]. *)
Definition is_condition_satisfied (self : ConditionalFee.t)
    (basket : Basket.t) : result bool :=
  cls <- Condition_proxy (ConditionalFee.condition self);;
  Ok (is_satisfied cls (ConditionalFee.condition self) self basket).

(** [ConditionalFee.apply_fee]. *)
Definition apply_fee (self : ConditionalFee.t) (basket : Basket.t)
    : result (ApplicationResult * Basket.t) :=
  satisfied <- is_condition_satisfied self basket;;
  if negb satisfied then Ok (ZERO_FEE, basket)
  else
    fcls <- Fee_proxy (ConditionalFee.fee self);;
    ccls <- Condition_proxy (ConditionalFee.condition self);;
    match fcls with
    | AbsoluteFee =>
        AbsoluteFee_apply (ConditionalFee.fee self) basket ccls
          (ConditionalFee.condition self) self None None
    | PercentageFee =>
        PercentageFee_apply (ConditionalFee.fee self) basket ccls
          (ConditionalFee.condition self) self
    | CustomFee k =>
        match custom_fee_apply k (ConditionalFee.fee self) basket ccls
                (ConditionalFee.condition self) self with
        | inl e => Raise e
        | inr applied => Ok applied
        end
    end.

(** The state of one [while] loop of [Applicator.apply_fees]: the results
    returned by [apply_fee] in call order (kept to speak about the calls),
    the basket and the ledger. *)
Definition LoopState : Type :=
  list ApplicationResult * Basket.t * FeeApplications.

(** The [while num_applications < fee.get_max_applications(basket.owner)]
    loop. The guard is evaluated again before every iteration. *)
Fixpoint apply_fee_while (fuel : nat) (fee : ConditionalFee.t)
    (num_applications : Z) (basket : Basket.t)
    (applications : FeeApplications) : result LoopState :=
  match fuel with
  | O => OutOfFuel
  | S fuel =>
      m <- get_max_applications fee (Basket.owner basket);;
      if bool_decide (num_applications < m) then
        applied <- apply_fee fee basket;;
        let result := applied.1 in
        let basket := applied.2 in
        let num_applications := num_applications + 1 in
        if negb (is_successful result) then Ok ([result], basket, applications)
        else
          let applications := FeeApplications_add applications fee result in
          let basket :=
            Basket.set_total_test (Basket.total_test basket + 1) basket in
          if is_final result then Ok ([result], basket, applications)
          else
            st <- apply_fee_while fuel fee num_applications basket applications;;
            Ok (result :: st.1.1, st.1.2, st.2)
      else Ok ([], basket, applications)
  end.

(** More iterations than any loop takes: the guard is at most 10000. *)
Definition loop_fuel : nat := Z.to_nat 10001.

(** The [for fee in fees] loop. *)
Fixpoint apply_fees_for (fees : list ConditionalFee.t) (basket : Basket.t)
    (applications : FeeApplications) : result (Basket.t * FeeApplications) :=
  match fees with
  | [] => Ok (basket, applications)
  | fee :: rest =>
      let num_applications := 0 in
      st <- apply_fee_while loop_fuel fee num_applications basket applications;;
      apply_fees_for rest st.1.2 st.2
  end.

(** [Applicator.apply_fees(basket, fees)]. *)
Definition apply_fees (basket : Basket.t) (fees : list ConditionalFee.t)
    : result Basket.t :=
  let applications : FeeApplications := ∅ in
  st <- apply_fees_for fees basket applications;;
  Ok (Basket.set_fee_applications (Some st.2) st.1).

End Engine.

(** ** A concrete shop

    An environment to run the engine on concrete baskets. *)

(** Modelled from the spec: the module [django_oscar_fees/conditions.py],
    which defines [is_satisfied] of the condition classes, is missing.
    Following the spec (section 4.2), a
    Count condition is satisfied when the number of qualifying units across
    the lines in range reaches the value, a Value condition when the summed
    effective price of the qualifying lines does, a Coverage condition when
    the number of qualifying lines does. *)
Definition spec_is_satisfied (contains : RangeId → ProductId → bool)
    (cls : ConditionClass) (condition : Condition.t)
    (offer : ConditionalFee.t) (basket : Basket.t) : bool :=
  let qualifying :=
    List.filter
      (λ l, match Condition.range condition with
            | Some r => contains r (Line.product l)
            | None => false
            end)
      (Basket.all_lines basket) in
  match cls with
  | CountCondition =>
      bool_decide (Condition.value condition
                   ≤ of_int (foldr Z.add 0%Z (Line.quantity <$> qualifying)))%Qc
  | ValueCondition =>
      bool_decide
        (Condition.value condition
         ≤ foldr Qcplus 0%Qc
             ((λ l, default 0%Qc (Line.unit_effective_price l)
                    * of_int (Line.quantity l))%Qc <$> qualifying))%Qc
  | CoverageCondition =>
      bool_decide (Condition.value condition
                   ≤ of_int (Z.of_nat (length qualifying)))%Qc
  | CustomCondition _ => false
  end.

(** Range 1 holds every product, any other range holds none; no rounding
    function is configured; the one custom fee class charges one unit of
    currency per application and may be applied again. *)
Definition shop : Environment :=
  {| range_contains := λ r _, bool_decide (r = 1);
     OSCAR_OFFER_ROUNDING_FUNCTION := None;
     is_satisfied := spec_is_satisfied (λ r _, bool_decide (r = 1));
     custom_is_coverage := λ _, false;
     custom_fee_apply := λ _ _ basket _ _ _,
       inr (OtherResult false true (D 100) None, basket) |}.

Definition mk_line (pk : Z) (quantity : Z) (price : Z) : Line.t :=
  {| Line.pk := pk; Line.product := pk; Line.quantity := quantity;
     Line.unit_effective_price := Some (D price);
     Line.quantity_without_discount := quantity;
     Line._fee_amount := None; Line._fee_quantity := None |}.

Definition mk_basket (lines : list Line.t) : Basket.t :=
  {| Basket.owner := None; Basket.all_lines := lines;
     Basket.total_test := 0;
     Basket._total_fees_amount := None; Basket._fees := None;
     Basket.fee_applications := None |}.

Definition mk_condition (type : string) (value : Z) : Condition.t :=
  {| Condition.range := Some 1; Condition.type := type;
     Condition.value := of_int value; Condition.proxy_class := None |}.

Definition mk_fee (type : string) (value : Z) : Fee.t :=
  {| Fee.id := 1; Fee.range := None; Fee.type := type;
     Fee.value := Some (D value); Fee.proxy_class := None |}.

Definition mk_rule (id : Z) (condition : Condition.t) (fee : Fee.t)
    : ConditionalFee.t :=
  {| ConditionalFee.id := id; ConditionalFee.name := "fee"%string;
     ConditionalFee.offer_type := SITE; ConditionalFee.status := OPEN;
     ConditionalFee.condition := condition; ConditionalFee.fee := fee;
     ConditionalFee.start_datetime := None;
     ConditionalFee.end_datetime := None;
     ConditionalFee.max_global_applications := None;
     ConditionalFee.max_user_applications := None;
     ConditionalFee.max_basket_applications := None;
     ConditionalFee.max_fee := None;
     ConditionalFee.total_fee := D 0;
     ConditionalFee.num_applications := 0;
     ConditionalFee.num_orders := 0 |}.

Definition with_limits (global user basket : option Z)
    (max_fee : option Decimal) (total_fee : Decimal) (num_applications : Z)
    (r : ConditionalFee.t) : ConditionalFee.t :=
  {| ConditionalFee.id := ConditionalFee.id r;
     ConditionalFee.name := ConditionalFee.name r;
     ConditionalFee.offer_type := ConditionalFee.offer_type r;
     ConditionalFee.status := ConditionalFee.status r;
     ConditionalFee.condition := ConditionalFee.condition r;
     ConditionalFee.fee := ConditionalFee.fee r;
     ConditionalFee.start_datetime := ConditionalFee.start_datetime r;
     ConditionalFee.end_datetime := ConditionalFee.end_datetime r;
     ConditionalFee.max_global_applications := global;
     ConditionalFee.max_user_applications := user;
     ConditionalFee.max_basket_applications := basket;
     ConditionalFee.max_fee := max_fee;
     ConditionalFee.total_fee := total_fee;
     ConditionalFee.num_applications := num_applications;
     ConditionalFee.num_orders := ConditionalFee.num_orders r |}.

Definition with_window (start_datetime end_datetime : option datetime)
    (r : ConditionalFee.t) : ConditionalFee.t :=
  {| ConditionalFee.id := ConditionalFee.id r;
     ConditionalFee.name := ConditionalFee.name r;
     ConditionalFee.offer_type := ConditionalFee.offer_type r;
     ConditionalFee.status := ConditionalFee.status r;
     ConditionalFee.condition := ConditionalFee.condition r;
     ConditionalFee.fee := ConditionalFee.fee r;
     ConditionalFee.start_datetime := start_datetime;
     ConditionalFee.end_datetime := end_datetime;
     ConditionalFee.max_global_applications :=
       ConditionalFee.max_global_applications r;
     ConditionalFee.max_user_applications :=
       ConditionalFee.max_user_applications r;
     ConditionalFee.max_basket_applications :=
       ConditionalFee.max_basket_applications r;
     ConditionalFee.max_fee := ConditionalFee.max_fee r;
     ConditionalFee.total_fee := ConditionalFee.total_fee r;
     ConditionalFee.num_applications := ConditionalFee.num_applications r;
     ConditionalFee.num_orders := ConditionalFee.num_orders r |}.

(** A rule charging a fixed 10.00 on a basket with at least [value] units. *)
Definition absolute_rule (id value : Z) : ConditionalFee.t :=
  mk_rule id (mk_condition "Count" value) (mk_fee FIXED 1000).

Definition user_limited_rule : ConditionalFee.t :=
  with_limits None (Some 3) None None (D 0) 0 (absolute_rule 1 1).

Definition exhausted_rule : ConditionalFee.t :=
  with_limits None None None (Some (D 5000)) (D 5000) 0 (absolute_rule 1 1).

Definition limited_rule : ConditionalFee.t :=
  with_limits (Some 5) None (Some 2) None (D 0) 1 (absolute_rule 1 1).

Definition used_up_rule : ConditionalFee.t :=
  with_limits (Some 5) None None None (D 0) 5 (absolute_rule 1 1).

Definition windowed_rule : ConditionalFee.t := with_window (Some 100) (Some 200) limited_rule.

(** Four lines priced 5.00, 0.00, 5.00 and 2.00. *)
Definition tied_lines : Basket.t :=
  mk_basket [mk_line 1 1 500; mk_line 2 1 0; mk_line 3 1 500; mk_line 4 1 200].

Definition five_and_three : list (Decimal * LineRef) :=
  [(D 100, (0%nat, mk_line 1 5 100)); (D 200, (1%nat, mk_line 2 3 200))].

Definition two_lines : Basket.t :=
  mk_basket [mk_line 1 5 100; mk_line 2 3 200].

Definition three_lines : Basket.t :=
  mk_basket [mk_line 1 1 1000; mk_line 2 1 500; mk_line 3 1 2000].

Definition three_lines_selected : list (Decimal * LineRef) :=
  [(D 500, (1%nat, mk_line 2 1 500));
   (D 1000, (0%nat, mk_line 1 1 1000));
   (D 2000, (2%nat, mk_line 3 1 2000))].

(** A rule whose fee is of the shop's custom class. *)
Definition custom_rule (max_basket_applications : option Z)
    : ConditionalFee.t :=
  with_limits None None max_basket_applications None (D 0) 0
    (mk_rule 2 (mk_condition "Count" 1)
       {| Fee.id := 2; Fee.range := None; Fee.type := FIXED;
          Fee.value := None;
          Fee.proxy_class := Some "shop.fees.PerUse"%string |}).

(** The number of results of the loop, and how often the ledger holds the
    rule afterwards. *)
Definition loop_counts (o : result LoopState) (k : Z)
    : option (Z * option Z) :=
  match o with
  | Ok st => Some (Z.of_nat (length st.1.1), Application.freq <$> st.2 !! k)
  | _ => None
  end.

(** An Absolute fee without any limit on its applications. *)
Definition unlimited_absolute_rule : ConditionalFee.t := absolute_rule 1 6.

(** The basket left by a first pass. *)
Definition annotated_two_lines : Basket.t :=
  mk_basket
    [Line.set_annotations (Some (D 625)) (Some 5) (mk_line 1 5 100);
     Line.set_annotations (Some (D 375)) (Some 3) (mk_line 2 3 200)].

(** * Specification vocabulary *)

(** The fee budget [max_fee] is in force (not [None], not zero) and the
    fees charged so far have reached it. *)
Definition budget_exhausted (self : ConditionalFee.t) : Prop :=
  ∃ m, ConditionalFee.max_fee self = Some m ∧ m ≠ 0%Qc
       ∧ (m ≤ ConditionalFee.total_fee self)%Qc.

(** The per-user limit is consulted: it is in force and a user is given. *)
Definition user_limit_consulted (self : ConditionalFee.t)
    (user : option User) : Prop :=
  (∃ n, ConditionalFee.max_user_applications self = Some n ∧ n ≠ 0)
  ∧ is_Some user.

(** The numbers among which [get_max_applications] picks the smallest when
    no user limit is consulted: the ceiling, the basket limit and the
    remaining global allowance, a limit counting only when it is in force. *)
Definition candidate_limit (self : ConditionalFee.t) (c : Z) : Prop :=
  c = 10000
  ∨ (∃ b, ConditionalFee.max_basket_applications self = Some b ∧ b ≠ 0
          ∧ c = b)
  ∨ (∃ g, ConditionalFee.max_global_applications self = Some g ∧ g ≠ 0
          ∧ c = Z.max 0 (g - ConditionalFee.num_applications self)).

(** The order of the selected lines: ascending unit price, and the position
    in the basket among lines of equal price. *)
Definition by_price_then_position : relation (Decimal * LineRef) :=
  λ x y, (x.1 < y.1)%Qc ∨ (x.1 = y.1 ∧ (x.2.1 < y.2.1)%nat).

(** The line at position [i] of the basket is one the selector keeps, at
    unit price [price]. *)
Definition selectable `{Environment} (range : RangeId) (basket : Basket.t)
    (price : Decimal) (i : nat) (line : Line.t) : Prop :=
  Basket.all_lines basket !! i = Some line
  ∧ range_contains range (Line.product line) = true
  ∧ Line.unit_effective_price line = Some price
  ∧ price ≠ 0%Qc
  ∧ Line.quantity_without_discount line ≠ 0.

(** A [PositiveIntegerField] holds no negative number. *)
Definition positive_integer_field (o : option Z) : Prop :=
  ∀ n, o = Some n → 0 ≤ n.

(** What one iteration of the selection loop appends. *)
Definition select_line `{Environment} (range : RangeId) (line : LineRef)
    : option (Decimal * LineRef) :=
  match Line.unit_effective_price line.2 with
  | Some price =>
      if range_contains range (Line.product line.2)
         && negb (bool_decide (price = 0%Qc))
         && negb (bool_decide (Line.quantity_without_discount line.2 = 0))
      then Some (price, line)
      else None
  | None => None
  end.

(** The affected quantity of a selected line: one unit under a Coverage
    condition, the whole quantity of the line otherwise. *)
Definition quantity_affected `{Environment} (cls : ConditionClass)
    (t : Decimal * LineRef) : Z :=
  if isinstance_CoverageCondition cls then 1 else Line.quantity t.2.2.

Definition covered_line `{Environment} (cls : ConditionClass) (t : Decimal * LineRef)
    : Decimal * LineRef * Z :=
  (t.1, t.2, quantity_affected cls t).

Definition sum_Z (l : list Z) : Z := foldr Z.add 0 l.

Definition total_affected `{Environment} (cls : ConditionClass)
    (l : list (Decimal * LineRef)) : Z :=
  sum_Z (quantity_affected cls <$> l).

Definition sum_decimal (l : list Decimal) : Decimal := foldr Qcplus 0%Qc l.

(** The amount [AbsoluteFee.apply] starts from: the argument, or else the
    configured value; and its clamp to [max_total_fee]. *)
Definition configured_amount (self : Fee.t) (fee_amount : option Decimal)
    : option Decimal :=
  match fee_amount with
  | None => Fee.value self
  | Some a => Some a
  end.

Definition clamp (max_total_fee : option Decimal) (a : Decimal) : Decimal :=
  match max_total_fee with
  | Some m => decimal_min a m
  | None => a
  end.

(** One call of [apply_fee_to_line]: the line object, its fee and the
    quantity charged; and the effect of a sequence of calls on the basket. *)
Definition assignment : Type := LineRef * Decimal * Z.

Definition assign (basket : Basket.t) (calls : list assignment) : Basket.t :=
  foldl (λ b u, alter_line (λ l, apply_fee_to_line l u.1.2 u.2) u.1.1 b)
        basket calls.

Definition assignments (covered_lines : list (Decimal * LineRef * Z))
    (fees : list Decimal) : list assignment :=
  zip_with (λ c f, (c.1.2, f, c.2)) covered_lines fees.

(** The proportional share of a covered line, rounded. *)
Definition share `{Environment} (amount : Decimal) (num_affected : Z)
    (c : Decimal * LineRef * Z) : Decimal :=
  round (amount * of_int c.2 / of_int num_affected)%Qc.

(** The fragments as the allocation rule states them: the rounded share for
    every covered line but the last, the remainder for the last. *)
Definition fragments `{Environment} (amount : Decimal) (num_affected : Z)
    (covered_lines : list (Decimal * LineRef * Z)) : list Decimal :=
  let shares := share amount num_affected <$> removelast covered_lines in
  shares ++ [(amount - sum_decimal shares)%Qc].

(** The fees computed by the allocation loop, without the basket. *)
Fixpoint line_fees `{Environment} (amount : Decimal) (num_affected : Z) (last_pk : Z)
    (covered_lines : list (Decimal * LineRef * Z)) (fee_applied : Decimal)
    : result (list Decimal) :=
  match covered_lines with
  | [] => Ok []
  | c :: rest =>
      line_fee <-
        (if bool_decide (Line.pk c.1.2.2 = last_pk)
         then Ok (amount - fee_applied)%Qc
         else
           q <- decimal_div (amount * of_int c.2)%Qc num_affected;;
           Ok (round q));;
      fees <- line_fees amount num_affected last_pk rest
                (fee_applied + line_fee)%Qc;;
      Ok (line_fee :: fees)
  end.

(** The ledger after recording a sequence of results for one rule. *)
Definition record_all (applications : FeeApplications)
    (fee : ConditionalFee.t) (results : list ApplicationResult)
    : FeeApplications :=
  foldl (λ a r, FeeApplications_add a fee r) applications results.

(** A line, and a basket, without the fee annotations. *)
Definition clear_line (line : Line.t) : Line.t :=
  Line.set_annotations None None line.

Definition clear_annotations (basket : Basket.t) : Basket.t :=
  Basket.set_all_lines (clear_line <$> Basket.all_lines basket) basket.

(** An annotation that is added to an earlier one; an absent annotation
    counts as zero, and nothing is created where nothing is added. *)
Definition accumulate_amount (before added : option Decimal)
    : option Decimal :=
  match added with
  | None => before
  | Some d => Some (default 0%Qc before + d)%Qc
  end.

Definition accumulate_quantity (before added : option Z) : option Z :=
  match added with
  | None => before
  | Some q => Some (default 0 before + q)
  end.

(** The line [line] with its annotations added to those of [before]. *)
Definition accumulate_line (before line : Line.t) : Line.t :=
  Line.set_annotations
    (accumulate_amount (Line._fee_amount before) (Line._fee_amount line))
    (accumulate_quantity (Line._fee_quantity before)
                         (Line._fee_quantity line))
    line.

(** The basket [basket] with, on every line, its annotations added to those
    the line has in [before]. *)
Definition accumulate (before basket : Basket.t) : Basket.t :=
  Basket.set_all_lines
    (zip_with accumulate_line (Basket.all_lines before)
                              (Basket.all_lines basket))
    basket.

(** The conditions do not read the fee annotations of the lines. *)
Definition conditions_ignore_annotations `{Environment} : Prop :=
  ∀ cls condition offer basket,
    is_satisfied cls condition offer basket
    = is_satisfied cls condition offer (clear_annotations basket).

(** The fee of the rule is not of a custom class. *)
Definition builtin_fee (fee : ConditionalFee.t) : Prop :=
  truthy_string (Fee.proxy_class (ConditionalFee.fee fee)) = false.

(** The annotations of the lines, in basket order. *)
Definition annotations (basket : Basket.t)
    : list (option Decimal * option Z) :=
  (λ l, (Line._fee_amount l, Line._fee_quantity l)) <$> Basket.all_lines basket.

Definition clear_tuple (t : Decimal * LineRef) : Decimal * LineRef :=
  (t.1, (t.2.1, clear_line t.2.2)).

Definition clear_covered (c : Decimal * LineRef * Z) : Decimal * LineRef * Z :=
  (clear_tuple c.1, c.2).

(** Two baskets with the same lines up to the annotations. *)
Definition same_lines (b c : Basket.t) : Prop :=
  clear_line <$> Basket.all_lines b = clear_line <$> Basket.all_lines c.

(** The index, the fee and the quantity of a call: all that its effect on
    the basket depends on. *)
Definition call_key (u : assignment) : nat * Decimal * Z :=
  (u.1.1.1, u.1.2, u.2).

(** * The rest of the rule model (models.py, managers.py) *)

(** The outcome of [ConditionalFee.clean]: it returns, or raises a
    [ValidationError] with a message. *)
Inductive validation :=
  | Valid
  | ValidationError (message : string).

#[global] Instance validation_eq_dec : EqDecision validation.
Proof. solve_decision. Defined.

(** [ConditionalFee.clean]; a datetime is always truthy. *)
Definition clean (self : ConditionalFee.t) : validation :=
  match ConditionalFee.start_datetime self, ConditionalFee.end_datetime self with
  | Some s, Some e =>
      if bool_decide (e < s)
      then ValidationError "End date should be later than start date"%string
      else Valid
  | _, _ => Valid
  end.

(** A value substituted into a message: an integer ([%d]), an amount passed
    through [currency], a datetime passed through [hide_time_if_zero]. The
    formatting itself belongs to Django. *)
Inductive param :=
  | PInt (n : Z)
  | PCurrency (d : Decimal)
  | PDate (dt : datetime).

#[global] Instance param_eq_dec : EqDecision param.
Proof. solve_decision. Defined.

Module Restriction.
(** One entry of [availability_restrictions]: the message, as its template
    and the values substituted into it, and the flag. *)
Record t := {
  description : string * list (string * param);
  is_satisfied : bool
}.
#[global] Instance eq_dec : EqDecision t.
Proof. solve_decision. Defined.
End Restriction.

(** [ConditionalFee.availability_restrictions]; [now] is the clock read by
    [now()]. *)
Definition availability_restrictions (now : datetime)
    (self : ConditionalFee.t) : list Restriction.t :=
  let restrictions := [] in
  let restrictions :=
    if is_suspended self
    then restrictions ++
           [{| Restriction.description := ("Offer is suspended"%string, []);
               Restriction.is_satisfied := false |}]
    else restrictions in
  let restrictions :=
    if truthy_int (ConditionalFee.max_global_applications self) then
      let total := default 0 (ConditionalFee.max_global_applications self) in
      let remaining := total - ConditionalFee.num_applications self in
      restrictions ++
        [{| Restriction.description :=
              ("Limited to %(total)d uses (%(remainder)d remaining)"%string,
               [("total"%string, PInt total);
                ("remainder"%string, PInt remaining)]);
            Restriction.is_satisfied := bool_decide (0 < remaining) |}]
    else restrictions in
  let restrictions :=
    if truthy_int (ConditionalFee.max_user_applications self) then
      let desc :=
        if bool_decide (ConditionalFee.max_user_applications self = Some 1)
        then ("Limited to 1 use per user"%string, [])
        else ("Limited to %(total)d uses per user"%string,
              [("total"%string,
                PInt (default 0 (ConditionalFee.max_user_applications self)))])
      in
      restrictions ++
        [{| Restriction.description := desc;
            Restriction.is_satisfied := true |}]
    else restrictions in
  let restrictions :=
    if truthy_int (ConditionalFee.max_basket_applications self) then
      let desc :=
        if bool_decide (ConditionalFee.max_user_applications self = Some 1)
        then ("Limited to 1 use per basket"%string, [])
        else ("Limited to %(total)d uses per basket"%string,
              [("total"%string,
                PInt (default 0
                        (ConditionalFee.max_basket_applications self)))])
      in
      restrictions ++
        [{| Restriction.description := desc;
            Restriction.is_satisfied := true |}]
    else restrictions in
  let restrictions :=
    let today := now in
    match ConditionalFee.start_datetime self,
          ConditionalFee.end_datetime self with
    | Some s, Some e =>
        restrictions ++
          [{| Restriction.description :=
                ("Available between %(start)s and %(end)s"%string,
                 [("start"%string, PDate s); ("end"%string, PDate e)]);
              Restriction.is_satisfied :=
                bool_decide (s ≤ today) && bool_decide (today ≤ e) |}]
    | Some s, None =>
        restrictions ++
          [{| Restriction.description :=
                ("Available from %(start)s"%string,
                 [("start"%string, PDate s)]);
              Restriction.is_satisfied := bool_decide (s ≤ today) |}]
    | None, Some e =>
        restrictions ++
          [{| Restriction.description :=
                ("Available until %(end)s"%string, [("end"%string, PDate e)]);
              Restriction.is_satisfied := bool_decide (today ≤ e) |}]
    | None, None => restrictions
    end in
  let restrictions :=
    if truthy_decimal (ConditionalFee.max_fee self) then
      restrictions ++
        [{| Restriction.description :=
              ("Limited to a cost of %(max)s"%string,
               [("max"%string,
                 PCurrency (default 0%Qc (ConditionalFee.max_fee self)))]);
            Restriction.is_satisfied :=
              bool_decide (ConditionalFee.total_fee self
                           < default 0%Qc (ConditionalFee.max_fee self))%Qc |}]
    else restrictions in
  restrictions.

(** The filter of [ActiveFeeManager.get_queryset]: an end date not before the
    cutoff or none, a start date not after it, status Open. A comparison
    with a missing date selects nothing. *)
Definition active_fee_query (cutoff : datetime) (self : ConditionalFee.t)
    : bool :=
  (match ConditionalFee.end_datetime self with
   | Some e => bool_decide (cutoff ≤ e)
   | None => true
   end
   && match ConditionalFee.start_datetime self with
      | Some s => bool_decide (s ≤ cutoff)
      | None => false
      end)
  && bool_decide (ConditionalFee.status self = OPEN).

(** The window of a rule holds the instant [d]. *)
Definition in_window (self : ConditionalFee.t) (d : datetime) : Prop :=
  (∀ S, ConditionalFee.start_datetime self = Some S → S ≤ d)
  ∧ (∀ T, ConditionalFee.end_datetime self = Some T → d ≤ T).

(** The rule is stored as [save] leaves it. *)
Definition stored_by_save (self : ConditionalFee.t) : Prop := save self = Ok self.

(** A rule taken from the table as [save] wrote it, for the examples. *)
Definition stored_rule : ConditionalFee.t :=
  with_window (Some 100) (Some 200)
    (with_limits (Some 5) None (Some 2) (Some (D 5000)) (D 1000) 1
       (absolute_rule 1 1)).


(** * The entry point of the applicator (applicator.py) and the order total
      (mixins.py) *)

(** [Applicator.get_site_fees]: the rows of the rule table that the query
    selects, in the order of the table; [now] is the clock read for the
    cutoff. *)
Definition get_site_fees (table : list ConditionalFee.t) (now : datetime)
    : list ConditionalFee.t :=
  List.filter (site_fee_query now) table.

(** [Applicator.get_user_fees] and [Applicator.get_session_fees]. *)
Definition get_user_fees (user : option User) : list ConditionalFee.t := [].

Definition get_session_fees {Request} (request : option Request)
    : list ConditionalFee.t := [].

(** [Applicator.get_fees]: [list(chain(session_fees, user_fees, site_fees))]. *)
Definition get_fees {Request} (table : list ConditionalFee.t) (now : datetime)
    (basket : Basket.t) (user : option User) (request : option Request)
    : list ConditionalFee.t :=
  let site_fees := get_site_fees table now in
  let user_fees := get_user_fees user in
  let session_fees := get_session_fees request in
  session_fees ++ user_fees ++ site_fees.

(** [Applicator.apply(basket, user, request)]; the basket as the call leaves
    it. *)
Definition Applicator_apply `{Environment} {Request}
    (table : list ConditionalFee.t) (now : datetime) (basket : Basket.t)
    (user : option User) (request : option Request) : result Basket.t :=
  let fees := get_fees table now basket user request in
  apply_fees basket fees.

Module Price.
(** [oscar.core.prices.Price], the two amounts that [build_submission]
    raises; [incl_tax] is [None] while the tax is not known. *)
Record t := {
  excl_tax : Decimal;
  incl_tax : option Decimal
}.
#[global] Instance eq_dec : EqDecision t.
Proof. solve_decision. Defined.
End Price.



(** ** Totals of a basket *)

(** The sum of the fee amounts annotated on the lines, an absent annotation
    counting as zero; and the sum of the annotated quantities. *)
Definition line_fee_total (basket : Basket.t) : Decimal :=
  sum_decimal ((λ l, default 0%Qc (Line._fee_amount l))
                 <$> Basket.all_lines basket).

Definition line_quantity_total (basket : Basket.t) : Z :=
  sum_Z ((λ l, default 0 (Line._fee_quantity l)) <$> Basket.all_lines basket).

(** The total of the fees kept on the basket, zero while it is absent; the
    fees kept on the basket; the sum of their configured values. *)
Definition basket_fee_total (basket : Basket.t) : Decimal :=
  default 0%Qc (Basket._total_fees_amount basket).

Definition basket_fees (basket : Basket.t) : list Fee.t :=
  default [] (Basket._fees basket).

Definition fee_value_total (fees : list Fee.t) : Decimal :=
  sum_decimal ((λ f, default 0%Qc (Fee.value f)) <$> fees).

(** What a pass adds to a basket: the same amount [total] on the lines and
    on the basket's total, and the fees [added], whose values add up to
    it. *)
Definition adds_fees (before after : Basket.t) (added : list Fee.t)
    (total : Decimal) : Prop :=
  line_fee_total after = (line_fee_total before + total)%Qc
  ∧ basket_fee_total after = (basket_fee_total before + total)%Qc
  ∧ basket_fees after = basket_fees before ++ added
  ∧ Forall (λ f, is_Some (Fee.value f)) added
  ∧ fee_value_total added = total.

(** How often the ledger holds the rule with key [k]. *)
Definition entry_freq (applications : FeeApplications) (k : Z) : Z :=
  from_option Application.freq 0 (applications !! k).

Definition entry_amount (applications : FeeApplications) (k : Z) : Decimal :=
  from_option Application.amount 0%Qc (applications !! k).

(** The condition or the fee of a rule names no custom class and a type
    that no proxy class stands for. *)
Definition unknown_condition_type (c : Condition.t) : Prop :=
  truthy_string (Condition.proxy_class c) = false
  ∧ Condition.type c ∉ ["Count"; "Value"; "Coverage"]%string.

Definition unknown_fee_type (f : Fee.t) : Prop :=
  truthy_string (Fee.proxy_class f) = false
  ∧ Fee.type f ∉ [PERCENTAGE; FIXED].

(** The basket positions of the covered lines. *)
Definition covered_positions (covered : list (Decimal * LineRef)) : list nat :=
  (λ t : Decimal * LineRef, t.2.1) <$> covered.

(** A table of three rules: a fixed fee in force, a suspended one and one
    whose window has closed. *)
Definition rule_table : list ConditionalFee.t :=
  [absolute_rule 1 6;
   ConditionalFee.set_status SUSPENDED (absolute_rule 2 1);
   with_window (Some 100) (Some 120) (absolute_rule 3 1)].

(** [FeeApplications.__len__]. *)
Definition FeeApplications_len (self : FeeApplications) : Z :=
  Z.of_nat (size self).

(** No custom fee class changes the owner of the basket. *)
Definition fees_keep_owner `{Environment} : Prop :=
  ∀ klass self basket cls condition offer r basket',
    custom_fee_apply klass self basket cls condition offer = inr (r, basket') →
    Basket.owner basket' = Basket.owner basket.

(** The configured value of the fee of a rule is not negative (a
    [PositiveDecimalField]). *)
Definition positive_decimal_field (o : option Decimal) : Prop :=
  ∀ v, o = Some v → (0 ≤ v)%Qc.

(** The sums over the rules of a pass of what the ledger holds for them. *)
Definition ledger_freq (applications : FeeApplications)
    (fees : list ConditionalFee.t) : Z :=
  sum_Z ((λ fee, entry_freq applications (ConditionalFee.id fee)) <$> fees).

Definition ledger_amount (applications : FeeApplications)
    (fees : list ConditionalFee.t) : Decimal :=
  sum_decimal
    ((λ fee, entry_amount applications (ConditionalFee.id fee)) <$> fees).

(** The share of a covered line before rounding. *)
Definition exact_share (amount : Decimal) (num_affected : Z)
    (c : Decimal * LineRef * Z) : Decimal :=
  (amount * of_int c.2 / of_int num_affected)%Qc.

(** A condition without a range, a fixed fee without a value, a rule whose
    condition has a type that no proxy class stands for, and a rule with a
    Percentage fee. *)
Definition rangeless_condition : Condition.t :=
  {| Condition.range := None; Condition.type := "Count"%string;
     Condition.value := of_int 1; Condition.proxy_class := None |}.

Definition valueless_fee : Fee.t :=
  {| Fee.id := 1; Fee.range := None; Fee.type := FIXED;
     Fee.value := None; Fee.proxy_class := None |}.

Definition weight_rule : ConditionalFee.t :=
  mk_rule 1 (mk_condition "Weight" 1) (mk_fee FIXED 1000).

Definition percentage_rule : ConditionalFee.t :=
  mk_rule 1 (mk_condition "Count" 1) (mk_fee PERCENTAGE 10).


(** * Usage limits, status and availability *)

Section RuleProperties.
Import ConditionalFee.

Lemma truthy_int_spec (o : option Z) :
  truthy_int o = true ↔ ∃ n, o = Some n ∧ n ≠ 0.
Proof.
  destruct o as [n|]; simpl.
  - rewrite bool_decide_eq_true. split; [eauto|]. intros (? & [= <-] & ?); done.
  - split; [done|]. intros (? & ? & ?); done.
Qed.

Lemma truthy_decimal_spec (o : option Decimal) :
  truthy_decimal o = true ↔ ∃ d, o = Some d ∧ d ≠ 0%Qc.
Proof.
  destruct o as [d|]; simpl.
  - rewrite bool_decide_eq_true. split; [eauto|]. intros (? & [= <-] & ?); done.
  - split; [done|]. intros (? & ? & ?); done.
Qed.

Lemma budget_exhausted_spec (self : t) :
  truthy_decimal (max_fee self)
  && bool_decide (default 0%Qc (max_fee self) ≤ total_fee self)%Qc = true
  ↔ budget_exhausted self.
Proof.
  rewrite andb_true_iff, truthy_decimal_spec, bool_decide_eq_true.
  unfold budget_exhausted. split.
  - intros [(d & Hd & Hnz) Hle]. rewrite Hd in Hle. eauto.
  - intros (m & Hm & Hnz & Hle). rewrite Hm. eauto.
Qed.

Lemma user_limit_consulted_spec (self : t) (user : option User) :
  truthy_int (max_user_applications self) && bool_decide (is_Some user) = true
  ↔ user_limit_consulted self user.
Proof.
  rewrite andb_true_iff, truthy_int_spec, bool_decide_eq_true. done.
Qed.

Lemma get_max_applications_exhausted (self : t) (user : option User) :
  budget_exhausted self → get_max_applications self user = Ok 0.
Proof.
  intros Hb%budget_exhausted_spec. unfold get_max_applications.
  by rewrite Hb.
Qed.

Lemma get_max_applications_anonymous (self : t) (user : option User) :
  ¬ budget_exhausted self → ¬ user_limit_consulted self user →
  get_max_applications self user =
    Ok (min_list
          (10000 ::
             (if truthy_int (max_basket_applications self)
              then [default 0 (max_basket_applications self)] else [])
             ++ (if truthy_int (max_global_applications self)
                 then [Z.max 0 (default 0 (max_global_applications self)
                                - num_applications self)]
                 else []))).
Proof.
  intros Hb Hu. unfold get_max_applications.
  destruct (truthy_decimal _ && _) eqn:E1;
    [by apply budget_exhausted_spec in E1|].
  destruct (truthy_int (max_user_applications self) && _) eqn:E2;
    [by apply user_limit_consulted_spec in E2|].
  simpl. do 2 f_equal.
  destruct (truthy_int (max_basket_applications self));
    destruct (truthy_int (max_global_applications self)); done.
Qed.

Lemma foldl_min_le (l : list Z) (x : Z) :
  foldl Z.min x l ≤ x ∧ Forall (λ y, foldl Z.min x l ≤ y) l.
Proof.
  revert x. induction l as [|y l IH]; intros x; simpl.
  - split; [lia | constructor].
  - destruct (IH (Z.min x y)) as [H1 H2]. split; [lia|].
    constructor; [lia | done].
Qed.

Lemma foldl_min_elem (l : list Z) (x : Z) :
  foldl Z.min x l = x ∨ foldl Z.min x l ∈ l.
Proof.
  revert x. induction l as [|y l IH]; intros x; simpl; [by left|].
  destruct (IH (Z.min x y)) as [E|E].
  - rewrite E. destruct (Z.min_spec x y) as [[_ ->]|[_ ->]];
      [by left | right; left].
  - right. by right.
Qed.

(** [min] of a non-empty list is its least element. *)
Lemma min_list_least (x : Z) (l : list Z) :
  min_list (x :: l) ∈ x :: l ∧ ∀ y, y ∈ x :: l → min_list (x :: l) ≤ y.
Proof.
  simpl. split.
  - destruct (foldl_min_elem l x) as [->|E]; [left | by right].
  - intros y Hy. destruct (foldl_min_le l x) as [H1 H2].
    apply elem_of_cons in Hy as [->|Hy]; [done|].
    rewrite Forall_forall in H2. by apply H2.
Qed.

Lemma get_max_applications_raises (self : t) (user : option User) :
  ¬ budget_exhausted self → user_limit_consulted self user →
  get_max_applications self user = Raise NotImplementedError.
Proof.
  intros Hb Hu%user_limit_consulted_spec. unfold get_max_applications.
  destruct (truthy_decimal _ && _) eqn:E1;
    [by apply budget_exhausted_spec in E1|].
  by rewrite Hu.
Qed.

Lemma budget_exhausted_dec (self : t) :
  budget_exhausted self ∨ ¬ budget_exhausted self.
Proof.
  destruct (truthy_decimal (max_fee self)
            && bool_decide (default 0%Qc (max_fee self) ≤ total_fee self)%Qc)
    eqn:E.
  - left. by apply budget_exhausted_spec.
  - right. intros Hb%budget_exhausted_spec. congruence.
Qed.

Lemma user_limit_consulted_dec (self : t) (user : option User) :
  user_limit_consulted self user ∨ ¬ user_limit_consulted self user.
Proof.
  destruct (truthy_int (max_user_applications self)
            && bool_decide (is_Some user)) eqn:E.
  - left. by apply user_limit_consulted_spec.
  - right. intros Hb%user_limit_consulted_spec. congruence.
Qed.

(** The ceiling: whatever the limits, the result is at most 10000. *)
Lemma get_max_applications_ceiling (self : t) (user : option User) (m : Z) :
  get_max_applications self user = Ok m → m ≤ 10000.
Proof.
  intros Hm.
  destruct (budget_exhausted_dec self) as [Hb|Hb].
  { rewrite get_max_applications_exhausted in Hm by done.
    injection Hm as <-. lia. }
  destruct (user_limit_consulted_dec self user) as [Hu|Hu].
  { by rewrite get_max_applications_raises in Hm. }
  rewrite get_max_applications_anonymous in Hm by done.
  injection Hm as <-. apply min_list_least. left.
Qed.

(** The result does not depend on who the user is, as long as it is one. *)
Lemma get_max_applications_user (self : t) (u u' : option User) (m : Z) :
  get_max_applications self u = Ok m →
  get_max_applications self u' = Ok m
  ∨ get_max_applications self u' = Raise NotImplementedError.
Proof.
  intros Hm.
  destruct (budget_exhausted_dec self) as [Hb|Hb].
  { left. rewrite get_max_applications_exhausted in Hm |- * by done. done. }
  destruct (user_limit_consulted_dec self u) as [Hu|Hu].
  { by rewrite get_max_applications_raises in Hm. }
  destruct (user_limit_consulted_dec self u') as [Hu'|Hu'].
  { right. by apply get_max_applications_raises. }
  left. rewrite get_max_applications_anonymous in Hm |- * by done. done.
Qed.

Lemma candidate_limit_spec (self : t) (c : Z) :
  candidate_limit self c ↔
  c ∈ 10000 ::
        (if truthy_int (max_basket_applications self)
         then [default 0 (max_basket_applications self)] else [])
        ++ (if truthy_int (max_global_applications self)
            then [Z.max 0 (default 0 (max_global_applications self)
                           - num_applications self)]
            else []).
Proof.
  unfold candidate_limit.
  rewrite elem_of_cons, elem_of_app.
  apply or_iff_compat_l.
  apply Morphisms_Prop.or_iff_morphism.
  - destruct (truthy_int (max_basket_applications self)) eqn:E.
    + apply truthy_int_spec in E as (b & Hb & Hnz). rewrite Hb. simpl.
      rewrite list_elem_of_singleton. split.
      * intros (b' & [= <-] & _ & ->). done.
      * intros ->. eauto.
    + split; [|by intros ?%elem_of_nil].
      intros (b & Hb & Hnz & _).
      assert (truthy_int (max_basket_applications self) = true)
        by (apply truthy_int_spec; eauto).
      congruence.
  - destruct (truthy_int (max_global_applications self)) eqn:E.
    + apply truthy_int_spec in E as (g & Hg & Hnz). rewrite Hg. simpl.
      rewrite list_elem_of_singleton. split.
      * intros (g' & [= <-] & _ & ->). done.
      * intros ->. eauto.
    + split; [|by intros ?%elem_of_nil].
      intros (g & Hg & Hnz & _).
      assert (truthy_int (max_global_applications self) = true)
        by (apply truthy_int_spec; eauto).
      congruence.
Qed.

(** Without a user limit to consult, the result is the least candidate. *)
Lemma get_max_applications_least (self : t) (user : option User) :
  ¬ budget_exhausted self → ¬ user_limit_consulted self user →
  ∃ m, get_max_applications self user = Ok m
       ∧ candidate_limit self m
       ∧ ∀ c, candidate_limit self c → m ≤ c.
Proof.
  intros Hb Hu. eexists. split; [by apply get_max_applications_anonymous|].
  split.
  - apply candidate_limit_spec, min_list_least.
  - intros c Hc%candidate_limit_spec. by apply min_list_least.
Qed.

(** C5 (amended). [get_max_applications] returns 0 whenever [max_fee] is in
    force (set and not zero) and [total_fee] has reached it. Otherwise, when
    [max_user_applications] is in force and a user is given, it raises
    [NotImplementedError]: the count of the user's prior applications is not
    implemented. Otherwise it returns the least of the ceiling 10000,
    [max_basket_applications] and [max(0, max_global_applications -
    num_applications)], where a limit that is [None] or zero is left out. *)
Theorem get_max_applications_limits (self : t) (user : option User) :
  (budget_exhausted self → get_max_applications self user = Ok 0)
  ∧ (¬ budget_exhausted self → user_limit_consulted self user →
     get_max_applications self user = Raise NotImplementedError)
  ∧ (¬ budget_exhausted self → ¬ user_limit_consulted self user →
     ∃ m, get_max_applications self user = Ok m
          ∧ candidate_limit self m
          ∧ ∀ c, candidate_limit self c → m ≤ c).
Proof.
  split; [apply get_max_applications_exhausted|].
  split; [apply get_max_applications_raises|].
  apply get_max_applications_least.
Qed.

(** C5 (counterexample). With [max_user_applications = 3] and a user given,
    no number is returned: the call raises. *)
Lemma get_max_applications_user_limit_raises :
  ¬ ∃ m, get_max_applications user_limited_rule (Some 7) = Ok m.
Proof. intros [m Hm]. vm_compute in Hm. discriminate. Qed.

(** A limit of zero counts as no limit: a zero budget that is reached does
    not close the rule, a zero basket limit does not bound it. *)
Example get_max_applications_zero_limits :
  get_max_applications
    (with_limits None None (Some 0) (Some (D 0)) (D 0) 0 (absolute_rule 1 1))
    None = Ok 10000.
Proof. compute_done. Qed.

(** The three cases of C5 on concrete rules: a budget of 50.00 that is
    reached, a user limit with a user, and a basket limit of 2 with 4 global
    applications left. *)
Lemma get_max_applications_limits_witness :
  get_max_applications exhausted_rule (Some 7) = Ok 0
  ∧ get_max_applications user_limited_rule (Some 7) = Raise NotImplementedError
  ∧ ∃ m, get_max_applications limited_rule None = Ok m
         ∧ candidate_limit limited_rule m
         ∧ ∀ c, candidate_limit limited_rule c → m ≤ c.
Proof.
  split; [|split].
  - apply (get_max_applications_limits exhausted_rule (Some 7)).
    exists (D 5000). repeat split; compute_done.
  - apply (get_max_applications_limits user_limited_rule (Some 7)).
    + intros (m & Hm & _). vm_compute in Hm. discriminate.
    + split; [exists 3; split; [reflexivity | lia] | by eexists].
  - apply (get_max_applications_limits limited_rule None).
    + intros (m & Hm & _). vm_compute in Hm. discriminate.
    + intros [_ [u Hu]]. discriminate.
Defined.

Lemma get_max_applications_no_user (self : t) :
  ∃ m, get_max_applications self None = Ok m.
Proof.
  destruct (budget_exhausted_dec self) as [Hb|Hb].
  - exists 0. by apply get_max_applications_exhausted.
  - eexists. apply get_max_applications_anonymous; [done|].
    intros [_ [u Hu]]. discriminate.
Qed.

Lemma status_distinct :
  CONSUMED ≠ OPEN ∧ CONSUMED ≠ SUSPENDED ∧ OPEN ≠ SUSPENDED.
Proof. repeat split; discriminate. Qed.

Lemma is_suspended_true (self : t) :
  is_suspended self = true ↔ status self = SUSPENDED.
Proof. unfold is_suspended. apply bool_decide_eq_true. Qed.

Lemma is_suspended_false (self : t) :
  is_suspended self = false ↔ status self ≠ SUSPENDED.
Proof. unfold is_suspended. apply bool_decide_eq_false. Qed.

Lemma save_spec (self : t) :
  ∃ m, get_max_applications self None = Ok m
       ∧ save self =
           Ok (if is_suspended self then self
               else if bool_decide (m = 0) then set_status CONSUMED self
               else set_status OPEN self).
Proof.
  destruct (get_max_applications_no_user self) as [m Hm]. exists m.
  split; [done|]. unfold save. rewrite Hm.
  destruct (is_suspended self); simpl; [done|]. by case_bool_decide.
Qed.

Lemma set_status_id (s : string) (self : t) :
  set_status (status self) (set_status s self) = self.
Proof. by destruct self. Qed.

Lemma save_suspended (self : t) :
  status self = SUSPENDED → save self = Ok self.
Proof.
  intros Hs%is_suspended_true. destruct (save_spec self) as (m & _ & ->).
  by rewrite Hs.
Qed.

(** With the global limit reached, the remaining allowance is zero. *)
Lemma get_max_applications_global_reached (self : t) (g : Z) :
  max_global_applications self = Some g → g ≠ 0 →
  g ≤ num_applications self →
  positive_integer_field (max_basket_applications self) →
  get_max_applications self None = Ok 0.
Proof.
  intros Hg Hnz Hle Hpos.
  destruct (budget_exhausted_dec self) as [Hb|Hb];
    [by apply get_max_applications_exhausted|].
  destruct (get_max_applications_least self None)
    as (m & -> & Hcand & Hleast); [done | |].
  { intros [_ [u Hu]]. discriminate. }
  f_equal. assert (m ≤ 0).
  { apply Hleast. right; right. exists g. repeat split; [done..|lia]. }
  destruct Hcand as [->|[(b & Hb' & _ & ->)|(g' & _ & _ & ->)]];
    [lia | | lia].
  apply Hpos in Hb'. lia.
Qed.

(** C6. On every save the status is recomputed unless the rule is
    suspended: it becomes Consumed exactly when [get_max_applications] with
    no user is 0, and Open otherwise, nothing else changing; a suspended
    rule stays suspended through [save] and [record_usage], [suspend]
    makes a rule suspended and only [unsuspend] ends the suspension. In
    particular a non-suspended rule with [max_global_applications = 5] and
    [num_applications = 5] is Consumed after its next save (its
    [max_basket_applications], a positive integer field, not being
    negative). *)
Theorem save_recomputes_status (self : t) :
  (∃ saved, save self = Ok saved
     ∧ set_status (status self) saved = self
     ∧ (status self = SUSPENDED → status saved = SUSPENDED)
     ∧ (status self ≠ SUSPENDED →
        (status saved = CONSUMED ↔ get_max_applications self None = Ok 0)
        ∧ (status saved = OPEN ↔ get_max_applications self None ≠ Ok 0)))
  ∧ (∃ s, suspend self = Ok s ∧ status s = SUSPENDED)
  ∧ (∃ s, unsuspend self = Ok s ∧ status s ≠ SUSPENDED)
  ∧ (∀ freq amount, status self = SUSPENDED →
     ∃ s, record_usage self freq amount = Ok s ∧ status s = SUSPENDED)
  ∧ (max_global_applications self = Some 5 → num_applications self = 5 →
     positive_integer_field (max_basket_applications self) →
     status self ≠ SUSPENDED →
     ∃ saved, save self = Ok saved ∧ status saved = CONSUMED).
Proof.
  destruct status_distinct as (Hco & Hcs & Hos).
  split; [|split; [|split; [|split]]].
  - destruct (save_spec self) as (m & Hm & ->). eexists. split; [done|].
    destruct (is_suspended self) eqn:Es.
    + apply is_suspended_true in Es.
      split; [by destruct self|]. split; done.
    + apply is_suspended_false in Es. rewrite Hm.
      case_bool_decide as E0; (split; [apply set_status_id|]);
        (split; [done|]); intros _; simpl; subst.
      * split; split; intros; done || congruence.
      * split; split; intros; done || congruence.
  - unfold suspend. rewrite save_suspended by done. by eexists.
  - unfold unsuspend. destruct (save_spec (set_status OPEN self))
      as (m & _ & ->).
    eexists. split; [done|].
    replace (is_suspended (set_status OPEN self)) with false
      by (symmetry; by apply is_suspended_false).
    by case_bool_decide.
  - intros freq amount Hs. unfold record_usage.
    rewrite save_suspended by done. by eexists.
  - intros Hg Hn Hpos Hs.
    destruct (save_spec self) as (m & Hm & ->). eexists. split; [done|].
    rewrite (get_max_applications_global_reached self 5) in Hm
      by (done || lia).
    injection Hm as <-.
    apply is_suspended_false in Hs. rewrite Hs. done.
Qed.

(** C6 on a rule with 5 of 5 global applications used: suspended it stays
    suspended through [record_usage], otherwise its save makes it
    Consumed. *)
Lemma save_recomputes_status_witness :
  (∃ s, record_usage (set_status SUSPENDED used_up_rule) 1 (D 100) = Ok s
        ∧ status s = SUSPENDED)
  ∧ ∃ saved, save used_up_rule = Ok saved ∧ status saved = CONSUMED.
Proof.
  split.
  - apply (save_recomputes_status (set_status SUSPENDED used_up_rule)).
    reflexivity.
  - apply (save_recomputes_status used_up_rule); try reflexivity.
    + intros n Hn. discriminate.
    + discriminate.
Defined.

Lemma is_available_closed (now : datetime) (self : t) (user : option User)
    (d : datetime) :
  (∃ S, start_datetime self = Some S ∧ d < S)
  ∨ (∃ T, end_datetime self = Some T ∧ T < d) →
  is_available now self user (Some d) = Ok false.
Proof.
  intros Hout. unfold is_available. destruct (is_suspended self); [done|].
  simpl.
  destruct (start_datetime self) as [S|], (end_datetime self) as [T|];
    destruct Hout as [(x & [= <-] & Hlt)|(x & [= <-] & Hlt)]; simpl;
    repeat case_bool_decide; simpl; done || lia.
Qed.

Lemma is_available_open (now : datetime) (self : t) (user : option User)
    (d m : datetime) :
  status self ≠ SUSPENDED →
  (∀ S, start_datetime self = Some S → S ≤ d) →
  (∀ T, end_datetime self = Some T → d ≤ T) →
  get_max_applications self user = Ok m →
  is_available now self user (Some d) = Ok (bool_decide (0 < m)).
Proof.
  intros Hs%is_suspended_false Hstart Hend Hm. unfold is_available.
  rewrite Hs, Hm. simpl.
  destruct (start_datetime self) as [S|], (end_datetime self) as [T|]; simpl;
    try (specialize (Hstart _ eq_refl)); try (specialize (Hend _ eq_refl));
    repeat case_bool_decide; simpl; done || lia.
Qed.

(** C7. Availability is inclusive at both bounds of the window: a rule
    that is not suspended and has a positive [get_max_applications] is
    available at exactly [end_datetime] and at exactly [start_datetime]
    (the other bound permitting), no rule is available after its
    [end_datetime] or before its [start_datetime], and with both bounds
    absent such a rule is available at every time. Without a test date the
    clock is used. *)
Theorem is_available_window (now : datetime) (self : t)
    (user : option User) :
  (∀ T m, end_datetime self = Some T →
     status self ≠ SUSPENDED →
     get_max_applications self user = Ok m → 0 < m →
     (∀ S, start_datetime self = Some S → S ≤ T) →
     is_available now self user (Some T) = Ok true)
  ∧ (∀ T d, end_datetime self = Some T → T < d →
     is_available now self user (Some d) = Ok false)
  ∧ (∀ S m, start_datetime self = Some S →
     status self ≠ SUSPENDED →
     get_max_applications self user = Ok m → 0 < m →
     (∀ T, end_datetime self = Some T → S ≤ T) →
     is_available now self user (Some S) = Ok true)
  ∧ (∀ S d, start_datetime self = Some S → d < S →
     is_available now self user (Some d) = Ok false)
  ∧ (∀ d m, start_datetime self = None → end_datetime self = None →
     status self ≠ SUSPENDED →
     get_max_applications self user = Ok m → 0 < m →
     is_available now self user (Some d) = Ok true)
  ∧ is_available now self user None = is_available now self user (Some now).
Proof.
  split; [|split; [|split; [|split; [|split]]]].
  - intros T m HT Hs Hm Hpos Hstart.
    rewrite (is_available_open _ _ _ _ m); [by rewrite bool_decide_eq_true_2|
      done | done | | done].
    intros T' HT'. rewrite HT in HT'. injection HT' as <-. lia.
  - intros T d HT Hlt. apply is_available_closed. right. eauto.
  - intros S m HS Hs Hm Hpos Hend.
    rewrite (is_available_open _ _ _ _ m); [by rewrite bool_decide_eq_true_2|
      done | | done | done].
    intros S' HS'. rewrite HS in HS'. injection HS' as <-. lia.
  - intros S d HS Hlt. apply is_available_closed. left. eauto.
  - intros d m HS HT Hs Hm Hpos.
    rewrite (is_available_open _ _ _ _ m); [by rewrite bool_decide_eq_true_2|
      done | | | done]; intros x Hx; congruence.
  - done.
Qed.

(** C7 on a rule available from 100 to 200, and on one without a
    window. *)
Lemma is_available_window_witness :
  is_available 0 windowed_rule None (Some 200) = Ok true
  ∧ is_available 0 windowed_rule None (Some 201) = Ok false
  ∧ is_available 0 windowed_rule None (Some 100) = Ok true
  ∧ is_available 0 windowed_rule None (Some 99) = Ok false
  ∧ is_available 0 limited_rule None (Some 12345) = Ok true.
Proof.
  destruct (is_available_window 0 windowed_rule None)
    as (Hend & Hafter & Hstart & Hbefore & _).
  destruct (is_available_window 0 limited_rule None)
    as (_ & _ & _ & _ & Hopen & _).
  split; [|split; [|split; [|split]]].
  - apply (Hend 200 2); [reflexivity | discriminate | reflexivity | lia |].
    intros S [= <-]. lia.
  - apply (Hafter 200 201); [reflexivity | lia].
  - apply (Hstart 100 2); [reflexivity | discriminate | reflexivity | lia |].
    intros T [= <-]. lia.
  - apply (Hbefore 100 99); [reflexivity | lia].
  - apply (Hopen 12345 2);
      [reflexivity | reflexivity | discriminate | reflexivity | lia].
Defined.

(** The query of [get_site_fees] is inclusive at both bounds as well, for a
    rule that has a start date. *)
Lemma site_fee_query_window (self : t) (S T cutoff : datetime) :
  start_datetime self = Some S → end_datetime self = Some T →
  offer_type self = SITE → status self = OPEN →
  site_fee_query cutoff self = bool_decide (S ≤ cutoff ≤ T).
Proof.
  intros HS HT Ho Hs. unfold site_fee_query. rewrite HS, HT, Ho, Hs.
  repeat case_bool_decide; simpl; done || lia.
Qed.

(** A rule with an end date and no start date is never in the query: its
    start date is neither before the cutoff nor absent together with the
    end date. *)
Lemma site_fee_query_without_start (self : t) (T cutoff : datetime) :
  start_datetime self = None → end_datetime self = Some T →
  site_fee_query cutoff self = false.
Proof. intros HS HT. unfold site_fee_query. by rewrite HS, HT. Qed.

End RuleProperties.

(** * The line selector *)

Section LineSelector.
Context `{Environment}.

Lemma applicable_lines_loop_omap (range : RangeId) (lines : list LineRef)
    (line_tuples : list (Decimal * LineRef)) :
  applicable_lines_loop (Some range) lines line_tuples =
    Ok (line_tuples ++ omap (select_line range) lines).
Proof.
  revert line_tuples. induction lines as [|line rest IH]; intros acc; simpl.
  - by rewrite app_nil_r.
  - unfold select_line at 1.
    destruct (range_contains range (Line.product line.2)); simpl;
      [|destruct (Line.unit_effective_price line.2); apply IH].
    destruct (Line.unit_effective_price line.2) as [price|]; [|apply IH].
    destruct (bool_decide (price = 0%Qc)); simpl; [apply IH|].
    destruct (bool_decide (Line.quantity_without_discount line.2 = 0)); simpl;
      [apply IH|].
    rewrite IH. by rewrite <-app_assoc.
Qed.

Lemma select_line_Some (range : RangeId) (basket : Basket.t)
    (x : LineRef) (y : Decimal * LineRef) :
  Basket.all_lines basket !! x.1 = Some x.2 →
  select_line range x = Some y ↔
  y.2 = x ∧ selectable range basket y.1 x.1 x.2.
Proof.
  intros Hx. unfold select_line, selectable.
  destruct (Line.unit_effective_price x.2) as [price|].
  2:{ split; [done|]. intros (_ & _ & _ & ? & _); done. }
  destruct (range_contains range (Line.product x.2)); simpl.
  2:{ split; [done|]. intros (_ & _ & ? & _); done. }
  repeat case_bool_decide; simpl.
  - split; [done|]. intros (_ & _ & _ & [= <-] & ? & _); done.
  - split; [done|]. intros (_ & _ & _ & [= <-] & ? & _); done.
  - split; [done|]. intros (_ & _ & _ & _ & _ & ?); done.
  - split.
    + intros [= <-]. simpl. done.
    + intros (E & _ & _ & [= E'] & _). destruct y as [p r]; simpl in *.
      by subst.
Qed.

Lemma enumerate_lookup {A} (l : list A) (i : nat) (x : nat * A) :
  enumerate l !! i = Some x ↔ x.1 = i ∧ l !! i = Some x.2.
Proof.
  unfold enumerate. rewrite list_lookup_imap.
  destruct (l !! i) as [a|]; simpl.
  - split.
    + by intros [= <-].
    + intros [<- [= ->]]. by destruct x.
  - split; [done|]. by intros [_ ?].
Qed.

Lemma enumerate_elem_of {A} (l : list A) (x : nat * A) :
  x ∈ enumerate l ↔ l !! x.1 = Some x.2.
Proof.
  rewrite list_elem_of_lookup. split.
  - intros [i [<- ?]%enumerate_lookup]. done.
  - intros Hx. exists x.1. by apply enumerate_lookup.
Qed.

Lemma enumerate_sorted {A} (l : list A) :
  StronglySorted (λ x y : nat * A, (x.1 < y.1)%nat) (enumerate l).
Proof.
  unfold enumerate.
  assert (∀ k, StronglySorted (λ x y : nat * A, (x.1 < y.1)%nat)
                 (imap (λ i x, ((k + i)%nat, x)) l)) as Hk.
  { induction l as [|a l IH]; intros k; simpl; [constructor|].
    constructor.
    - rewrite (imap_ext _ (λ i x, ((S k + i)%nat, x))); [apply IH|].
      intros i x _. simpl. f_equal. lia.
    - apply Forall_forall. intros x [i [y [-> _]]]%elem_of_lookup_imap.
      simpl. lia. }
  apply (Hk 0%nat).
Qed.

Lemma omap_sorted {A B} (R : relation A) (S : relation B)
    (f : A → option B) (l : list A) :
  (∀ x y x' y', R x y → f x = Some x' → f y = Some y' → S x' y') →
  StronglySorted R l → StronglySorted S (omap f l).
Proof.
  intros Hf. induction 1 as [|x l Hl IH Hx]; simpl; [constructor|].
  destruct (f x) as [x'|] eqn:Ex; [|done].
  constructor; [done|].
  apply Forall_forall. intros y' (y & Hy & Ey)%list_elem_of_omap.
  rewrite Forall_forall in Hx. eauto.
Qed.

Lemma insert_by_key_perm {A} (x : Decimal * A) (l : list (Decimal * A)) :
  insert_by_key x l ≡ₚ x :: l.
Proof.
  induction l as [|y l IH]; simpl; [done|].
  case_bool_decide; [done|]. rewrite IH. apply Permutation_swap.
Qed.

Lemma sorted_perm {A} (l : list (Decimal * A)) : sorted l ≡ₚ l.
Proof.
  induction l as [|x l IH]; simpl; [done|].
  by rewrite insert_by_key_perm, IH.
Qed.

Lemma by_price_then_position_trans : Transitive by_price_then_position.
Proof.
  intros x y z [Hxy|[Exy Hxy]] [Hyz|[Eyz Hyz]]; unfold by_price_then_position.
  - left. by eapply Qclt_trans.
  - left. by rewrite <-Eyz.
  - left. by rewrite Exy.
  - right. split; [congruence | lia].
Qed.

(** Inserting a line that stands in the basket before every line of a list
    already in order keeps the order. *)
Lemma insert_by_key_sorted (x : Decimal * LineRef)
    (l : list (Decimal * LineRef)) :
  Forall (λ y, (x.2.1 < y.2.1)%nat) l →
  StronglySorted by_price_then_position l →
  StronglySorted by_price_then_position (insert_by_key x l).
Proof.
  intros Hpos Hl. induction Hl as [|y l Hl IH Hy]; simpl.
  - repeat constructor.
  - apply Forall_cons in Hpos as [Hxy Hpos].
    case_bool_decide as Hle.
    + assert (by_price_then_position x y) as Hfirst.
      { apply Qcle_lt_or_eq in Hle as [?|?]; [by left | by right]. }
      constructor; [by constructor|].
      constructor; [done|].
      eapply Forall_impl; [exact Hy|].
      intros z Hz. by eapply by_price_then_position_trans.
    + constructor; [by apply IH|].
      rewrite (insert_by_key_perm x l). constructor; [|done].
      left. by apply Qcnot_le_lt.
Qed.

Lemma sorted_sorted (l : list (Decimal * LineRef)) :
  StronglySorted (λ x y, (x.2.1 < y.2.1)%nat) l →
  StronglySorted by_price_then_position (sorted l).
Proof.
  induction 1 as [|x l Hl IH Hx]; simpl; [constructor|].
  apply insert_by_key_sorted; [|done].
  by rewrite sorted_perm.
Qed.

(** C8. For every basket and product range the selector returns exactly
    the lines whose product is in the range, whose effective unit price is
    not zero and whose quantity without discount is not zero, each paired
    with its unit price, in ascending order of price, lines of equal price
    keeping the order they have in the basket. *)
Theorem get_applicable_lines_selects (self : Fee.t) (fee : ConditionalFee.t)
    (basket : Basket.t) (range : RangeId) :
  ∃ line_tuples,
    get_applicable_lines self fee basket (Some range) = Ok line_tuples
    ∧ (∀ price i line,
         (price, (i, line)) ∈ line_tuples
         ↔ selectable range basket price i line)
    ∧ StronglySorted by_price_then_position line_tuples.
Proof.
  unfold get_applicable_lines.
  rewrite applicable_lines_loop_omap. simpl.
  eexists. split; [done|]. split.
  - intros price i line. rewrite sorted_perm, list_elem_of_omap. split.
    + intros (x & Hx%enumerate_elem_of & Hsel).
      apply (select_line_Some range basket) in Hsel as [E Hsel]; [|done].
      simpl in E. by subst x.
    + intros Hsel. exists (i, line).
      assert (Basket.all_lines basket !! i = Some line) as Hi
        by (by destruct Hsel).
      split; [by apply enumerate_elem_of|].
      by apply (select_line_Some range basket).
  - apply sorted_sorted.
    eapply omap_sorted; [|apply enumerate_sorted].
    intros x y x' y' Hxy Hx Hy. unfold select_line in Hx, Hy.
    repeat case_match; simplify_eq. done.
Qed.

End LineSelector.

(** The line without a price is left out, the cheapest line comes first and
    the two lines at 5.00 keep their order. *)
Example tied_lines_selected :
  @get_applicable_lines shop (mk_fee FIXED 1000) (absolute_rule 1 1)
    tied_lines (Some 1)
  = Ok [(D 200, (3%nat, mk_line 4 1 200));
        (D 500, (0%nat, mk_line 1 1 500));
        (D 500, (2%nat, mk_line 3 1 500))]
  ∧ @get_applicable_lines shop (mk_fee FIXED 1000) (absolute_rule 1 1)
      tied_lines (Some 2)
    = Ok [].
Proof. split; compute_done. Qed.

(** * The lines to consume *)

Section Covering.
Context `{Environment}.

Lemma total_affected_snoc (cls : ConditionClass)
    (l : list (Decimal * LineRef)) (t : Decimal * LineRef) :
  total_affected cls (l ++ [t]) = total_affected cls l + quantity_affected cls t.
Proof.
  unfold total_affected, sum_Z. rewrite fmap_app, foldr_app. simpl.
  generalize (quantity_affected cls <$> l) as qs.
  induction qs as [|q qs IH]; simpl; lia.
Qed.

Lemma cover_lines_cons (cls : ConditionClass) (num_permitted : Z)
    (t : Decimal * LineRef) (rest : list (Decimal * LineRef))
    (num_affected : Z) (covered_lines : list (Decimal * LineRef * Z)) :
  cover_lines cls num_permitted (t :: rest) num_affected covered_lines =
    if bool_decide (num_permitted ≤ num_affected + quantity_affected cls t)
    then (num_affected + quantity_affected cls t,
          covered_lines ++ [covered_line cls t])
    else cover_lines cls num_permitted rest
           (num_affected + quantity_affected cls t)
           (covered_lines ++ [covered_line cls t]).
Proof. by destruct t. Qed.

(** The loop consumes a prefix of the selected lines: it goes on while the
    running total is below the permitted number and stops with the line
    that reaches it, which counts in full. *)
Lemma cover_lines_prefix (cls : ConditionClass) (num_permitted : Z)
    (line_tuples done_tuples : list (Decimal * LineRef)) :
  ∃ k : nat,
    cover_lines cls num_permitted line_tuples
      (total_affected cls done_tuples) (covered_line cls <$> done_tuples)
    = (total_affected cls (done_tuples ++ take k line_tuples),
       covered_line cls <$> (done_tuples ++ take k line_tuples))
    ∧ (k ≤ length line_tuples)%nat
    ∧ (line_tuples ≠ [] → (0 < k)%nat)
    ∧ (∀ j : nat, (0 < j < k)%nat →
         total_affected cls (done_tuples ++ take j line_tuples) < num_permitted)
    ∧ ((k < length line_tuples)%nat →
         num_permitted
         ≤ total_affected cls (done_tuples ++ take k line_tuples)).
Proof.
  revert done_tuples.
  induction line_tuples as [|[price line] rest IH]; intros done_tuples.
  - exists 0%nat. simpl. rewrite app_nil_r.
    repeat split; [lia | done | lia | lia].
  - rewrite cover_lines_cons, <-total_affected_snoc.
    change [covered_line cls (price, line)]
      with (covered_line cls <$> [(price, line)]).
    rewrite <-fmap_app.
    case_bool_decide as Hreached.
    + exists 1%nat. simpl. rewrite take_0.
      repeat split; [lia | lia | lia | done].
    + destruct (IH (done_tuples ++ [(price, line)]))
        as (k & -> & Hk & Hpos & Hbelow & Hstop).
      exists (S k). simpl. rewrite <-!app_assoc. simpl.
      repeat split; [lia | lia | | ].
      * intros [|j] Hj; [lia|]. simpl.
        destruct j as [|j].
        -- rewrite take_0. lia.
        -- specialize (Hbelow (S j)). rewrite <-app_assoc in Hbelow.
           apply Hbelow. lia.
      * intros Hlt. rewrite <-app_assoc in Hstop. apply Hstop. lia.
Qed.

Lemma int_of_int (n : Z) : int (of_int n) = n.
Proof. unfold int, of_int, Qc_of_Z. simpl. apply Z.quot_1_r. Qed.

(** [int] is the floor on amounts that are not negative. *)
Lemma int_floor (d : Decimal) : (0 ≤ d)%Qc → int d = Qfloor d.
Proof.
  destruct d as [[n m] Hc]. unfold Qcle, Qle, int. simpl.
  intros Hn. rewrite Z.quot_div_nonneg; lia.
Qed.

(** C3 (amended). In the accumulation step of [AbsoluteFee.apply] every
    covered line contributes one affected unit under a Coverage condition
    and its full quantity otherwise; lines are taken in order while the
    running total is below [int(condition.value)] (its floor, for a value
    that is not negative), and the line that reaches it is the last one
    covered. For Coverage with value 2 over two lines of quantity 5 and 3
    the total is 2, one unit per line; for Count with the same lines and
    value 6 both lines are covered in full, quantities 5 and 3, total 8. *)
Theorem cover_lines_accumulates (cls : ConditionClass)
    (condition : Condition.t) (line_tuples : list (Decimal * LineRef)) :
  (∃ k : nat,
     cover_lines cls (int (Condition.value condition)) line_tuples 0 []
     = (total_affected cls (take k line_tuples),
        covered_line cls <$> take k line_tuples)
     ∧ (k ≤ length line_tuples)%nat
     ∧ (line_tuples ≠ [] → (0 < k)%nat)
     ∧ (∀ j : nat, (0 < j < k)%nat →
          total_affected cls (take j line_tuples)
          < int (Condition.value condition))
     ∧ ((k < length line_tuples)%nat →
          int (Condition.value condition)
          ≤ total_affected cls (take k line_tuples)))
  ∧ ((0 ≤ Condition.value condition)%Qc →
     int (Condition.value condition) = Qfloor (Condition.value condition))
  ∧ (∀ p1 p2 l1 l2,
       Line.quantity l1.2 = 5 → Line.quantity l2.2 = 3 →
       line_tuples = [(p1, l1); (p2, l2)] →
       (cls = CoverageCondition → Condition.value condition = of_int 2 →
        cover_lines cls (int (Condition.value condition)) line_tuples 0 []
        = (2, [(p1, l1, 1); (p2, l2, 1)]))
       ∧ (cls = CountCondition → Condition.value condition = of_int 6 →
          cover_lines cls (int (Condition.value condition)) line_tuples 0 []
          = (8, [(p1, l1, 5); (p2, l2, 3)]))).
Proof.
  split; [|split].
  - apply (cover_lines_prefix cls _ line_tuples []).
  - apply int_floor.
  - intros p1 p2 l1 l2 Hq1 Hq2 ->. split; intros -> ->.
    + rewrite int_of_int. reflexivity.
    + rewrite int_of_int. simpl. rewrite Hq1, Hq2. reflexivity.
Qed.

End Covering.

(** The two examples of C3 on lines of quantity 5 and 3. *)
Lemma cover_lines_accumulates_witness :
  @cover_lines shop CoverageCondition
     (int (Condition.value (mk_condition "Coverage" 2))) five_and_three 0 []
  = (2, [(D 100, (0%nat, mk_line 1 5 100), 1);
         (D 200, (1%nat, mk_line 2 3 200), 1)])
  ∧ @cover_lines shop CountCondition
      (int (Condition.value (mk_condition "Count" 6))) five_and_three 0 []
    = (8, [(D 100, (0%nat, mk_line 1 5 100), 5);
           (D 200, (1%nat, mk_line 2 3 200), 3)]).
Proof.
  split.
  - destruct (@cover_lines_accumulates shop CoverageCondition
                (mk_condition "Coverage" 2) five_and_three)
      as (_ & _ & Hex).
    apply (Hex (D 100) (D 200) (0%nat, mk_line 1 5 100)
               (1%nat, mk_line 2 3 200)); reflexivity.
  - destruct (@cover_lines_accumulates shop CountCondition
                (mk_condition "Count" 6) five_and_three)
      as (_ & _ & Hex).
    apply (Hex (D 100) (D 200) (0%nat, mk_line 1 5 100)
               (1%nat, mk_line 2 3 200)); reflexivity.
Defined.

(** C3 (counterexample). A Count condition of value 6 over lines of
    quantity 5 and 3 covers the second line with its whole quantity, not
    with the one unit that is missing. *)
Lemma cover_lines_count_takes_whole_line :
  ¬ ((λ c : Decimal * LineRef * Z, c.2)
       <$> (@cover_lines shop CountCondition
              (int (Condition.value (mk_condition "Count" 6)))
              five_and_three 0 []).2
     = [5; 1]).
Proof. vm_compute. discriminate. Qed.

(** * The allocation of a fixed fee *)

Lemma sum_decimal_cons (x : Decimal) (l : list Decimal) :
  sum_decimal (x :: l) = (x + sum_decimal l)%Qc.
Proof. done. Qed.

Lemma sum_decimal_app (l1 l2 : list Decimal) :
  sum_decimal (l1 ++ l2) = (sum_decimal l1 + sum_decimal l2)%Qc.
Proof.
  induction l1 as [|x l1 IH].
  - change (sum_decimal []) with 0%Qc. simpl app. ring.
  - rewrite <-app_comm_cons, !sum_decimal_cons, IH. ring.
Qed.

Section Allocation.
Context `{Environment}.

Lemma allocate_line_fees (amount : Decimal) (num_affected : Z)
    (last_line : LineRef) (covered_lines : list (Decimal * LineRef * Z))
    (fee_applied : Decimal) (basket : Basket.t) :
  allocate (Some amount) num_affected last_line covered_lines fee_applied
           basket =
    (fees <- line_fees amount num_affected (Line.pk last_line.2)
               covered_lines fee_applied;;
     Ok ((fee_applied + sum_decimal fees)%Qc,
         assign basket (assignments covered_lines fees))).
Proof.
  revert fee_applied basket.
  induction covered_lines as [|c rest IH];
    intros fee_applied basket; [|destruct c as [[price line] quantity]];
    simpl.
  - f_equal. f_equal. unfold sum_decimal. simpl. ring.
  - destruct (bool_decide (Line.pk line.2 = Line.pk last_line.2)); simpl.
    + rewrite IH.
      destruct (line_fees _ _ _ rest _) as [fees| |]; simpl; [|done..].
      do 2 f_equal. ring.
    + destruct (decimal_div _ _) as [q| |]; simpl; [|done..].
      rewrite IH.
      destruct (line_fees _ _ _ rest _) as [fees| |]; simpl; [|done..].
      do 2 f_equal. ring.
Qed.

(** Whatever the rounding, the fees of a run that ends on the last line add
    up to what was left of the amount. *)
Lemma line_fees_sum (amount : Decimal) (num_affected : Z) (last_pk : Z)
    (covered_lines : list (Decimal * LineRef * Z)) (c : Decimal * LineRef * Z)
    (fee_applied : Decimal) (fees : list Decimal) :
  Line.pk c.1.2.2 = last_pk →
  line_fees amount num_affected last_pk (covered_lines ++ [c]) fee_applied
    = Ok fees →
  (fee_applied + sum_decimal fees)%Qc = amount.
Proof.
  intros Hlast. revert fee_applied fees.
  induction covered_lines as [|c' rest IH]; intros fee_applied fees; simpl.
  - rewrite bool_decide_eq_true_2 by done. simpl. intros [= <-].
    unfold sum_decimal. simpl. ring.
  - destruct (if bool_decide _ then _ else _) as [f| |]; simpl; [|done..].
    destruct (line_fees _ _ _ (rest ++ [c]) _) as [fs| |] eqn:E; simpl;
      [|done..].
    intros [= <-]. apply IH in E. rewrite <-E.
    unfold sum_decimal. simpl. ring.
Qed.

Lemma decimal_div_nonzero (a : Decimal) (n : Z) :
  n ≠ 0 → decimal_div a n = Ok (a / of_int n)%Qc.
Proof. intros Hn. unfold decimal_div. by rewrite bool_decide_eq_false_2. Qed.

(** With distinct line keys only the last line takes the remainder. *)
Lemma line_fees_shares (amount : Decimal) (num_affected : Z) (last_pk : Z)
    (covered_lines : list (Decimal * LineRef * Z)) (c : Decimal * LineRef * Z)
    (fee_applied : Decimal) :
  num_affected ≠ 0 →
  Line.pk c.1.2.2 = last_pk →
  Forall (λ x, Line.pk x.1.2.2 ≠ last_pk) covered_lines →
  line_fees amount num_affected last_pk (covered_lines ++ [c]) fee_applied =
    Ok ((share amount num_affected <$> covered_lines)
        ++ [(amount - (fee_applied
                       + sum_decimal (share amount num_affected
                                        <$> covered_lines)))%Qc]).
Proof.
  intros Hn Hlast Hinit. revert fee_applied.
  induction Hinit as [|c' rest Hc' Hrest IH]; intros fee_applied.
  - simpl. rewrite bool_decide_eq_true_2 by done. simpl. do 3 f_equal.
    unfold sum_decimal. simpl. ring.
  - rewrite fmap_cons, <-!app_comm_cons. cbn [line_fees].
    rewrite bool_decide_eq_false_2 by done.
    rewrite decimal_div_nonzero by done. cbn [bind].
    rewrite IH. cbn [bind]. fold (share amount num_affected c').
    do 4 f_equal. rewrite sum_decimal_cons. ring.
Qed.

Lemma D_this (n : Z) : (this (D n) == Qmake n 100)%Q.
Proof. unfold D. simpl. apply Qred_correct. Qed.

(** The default rounding truncates: for an amount that is not negative the
    result is at most the amount, and less than one hundredth below it. *)
Lemma quantize_down_le (a : Decimal) :
  (0 ≤ a)%Qc → (quantize_down a ≤ a)%Qc ∧ (a < quantize_down a + D 1)%Qc.
Proof.
  intros Ha. unfold quantize_down.
  assert (0 ≤ a * of_int 100)%Qc as Hx.
  { apply Qcmult_nonneg_nonneg; [done|]. compute_done. }
  rewrite (int_floor _ Hx).
  set (x := (a * of_int 100)%Qc) in *.
  assert (this x == this a * inject_Z 100)%Q as Hax.
  { subst x. unfold Qcmult, of_int, Qc_of_Z. simpl this.
    apply Qred_correct. }
  pose proof (Qfloor_le (this x)) as Hlo.
  pose proof (Qlt_floor (this x)) as Hhi.
  set (n := Qfloor x) in *. clearbody n.
  split.
  - change (this (D n) <= this a)%Q.
    eapply Qle_trans; [apply Qle_lteq; right; apply D_this|].
    apply (Qmult_le_r _ _ (inject_Z 100)); [reflexivity|].
    eapply Qle_trans; [|apply Qle_lteq; right; exact Hax].
    eapply Qle_trans; [|exact Hlo].
    unfold Qle, Qmult, inject_Z. simpl. lia.
  - change (this a < this (D n + D 1)%Qc)%Q.
    apply (Qmult_lt_r _ _ (inject_Z 100)); [reflexivity|].
    eapply Qle_lt_trans; [apply Qle_lteq; right; symmetry; exact Hax|].
    eapply Qlt_le_trans; [exact Hhi|].
    assert (this (D n + D 1)%Qc == Qmake (n + 1) 100)%Q as ->.
    { unfold Qcplus, Q2Qc. cbn [this]. rewrite Qred_correct.
      rewrite (D_this n), (D_this 1).
      unfold Qeq, Qplus. simpl. lia. }
    unfold Qle, Qmult, inject_Z. simpl. lia.
Qed.

Lemma round_default (amount : Decimal) :
  OSCAR_OFFER_ROUNDING_FUNCTION = None → round amount = quantize_down amount.
Proof. unfold round. by intros ->. Qed.

Lemma D_0 : D 0 = 0%Qc.
Proof. by apply Qc_is_canon. Qed.

(** The body of [AbsoluteFee.apply] once the amount is known. *)
Lemma AbsoluteFee_apply_amount (self : Fee.t) (basket : Basket.t)
    (cls : ConditionClass) (condition : Condition.t) (offer : ConditionalFee.t)
    (fee_amount max_total_fee : option Decimal) (a0 : Decimal) :
  configured_amount self fee_amount = Some a0 →
  AbsoluteFee_apply self basket cls condition offer fee_amount max_total_fee =
    let amount := clamp max_total_fee a0 in
    if bool_decide (amount = 0%Qc) then Ok (ZERO_FEE, basket)
    else
      (line_tuples <-
         get_applicable_lines self offer basket (Condition.range condition);;
       if bool_decide (line_tuples = []) then Ok (ZERO_FEE, basket)
       else
         let covered :=
           cover_lines cls (int (Condition.value condition)) line_tuples 0 [] in
         match last covered.2 with
         | None => Raise IndexError
         | Some c =>
             fees <- line_fees amount covered.1 (Line.pk c.1.2.2) covered.2
                       0%Qc;;
             Ok (BasketFee amount,
                 apply_fee_to_basket
                   (assign basket (assignments covered.2 fees)) self amount 1)
         end).
Proof.
  intros Ha. unfold AbsoluteFee_apply. fold (configured_amount self fee_amount).
  rewrite Ha.
  assert ((match max_total_fee with
           | Some m => Ok (Some (decimal_min a0 m))
           | None => Ok (Some a0)
           end : result (option Decimal)) = Ok (Some (clamp max_total_fee a0)))
    as -> by (by destruct max_total_fee).
  cbn [bind]. cbv zeta.
  destruct (bool_decide_reflect (clamp max_total_fee a0 = 0%Qc)) as [E|E].
  - rewrite bool_decide_eq_true_2 by congruence. done.
  - rewrite bool_decide_eq_false_2 by congruence.
    destruct (get_applicable_lines _ _ _ _) as [lt| |]; cbn [bind]; [|done..].
    case_bool_decide; [done|].
    destruct (last _) as [[[price last_line] quantity]|]; [|done].
    rewrite allocate_line_fees, D_0.
    destruct (line_fees _ _ _ _ _) as [fees| |]; cbn [bind]; done.
Qed.

(** C4 (amended). If the effective fee amount is 0 (a configured value of
    0, or a clamp to 0 by [max_total_fee]), [AbsoluteFee.apply] returns the
    canonical zero result and leaves the basket and every line annotation
    as they were; the zero result is unsuccessful, and it is final, as every
    [BasketFee] is. *)
Theorem AbsoluteFee_apply_zero (self : Fee.t) (basket : Basket.t)
    (cls : ConditionClass) (condition : Condition.t) (offer : ConditionalFee.t)
    (fee_amount max_total_fee : option Decimal) (a0 : Decimal) :
  configured_amount self fee_amount = Some a0 →
  clamp max_total_fee a0 = 0%Qc →
  AbsoluteFee_apply self basket cls condition offer fee_amount max_total_fee
    = Ok (ZERO_FEE, basket)
  ∧ is_successful ZERO_FEE = false
  ∧ is_final ZERO_FEE = true.
Proof.
  intros Ha Hzero. split; [|done].
  rewrite (AbsoluteFee_apply_amount _ _ _ _ _ _ _ a0) by done.
  cbv zeta. by rewrite bool_decide_eq_true_2.
Qed.

End Allocation.

(** C4 on a fee of 10.00 clamped to 0 by [max_total_fee]. *)
Lemma AbsoluteFee_apply_zero_witness :
  @AbsoluteFee_apply shop (mk_fee FIXED 1000) two_lines CountCondition
     (mk_condition "Count" 1) (absolute_rule 1 1) None (Some (D 0))
    = Ok (ZERO_FEE, two_lines)
  ∧ is_successful ZERO_FEE = false
  ∧ is_final ZERO_FEE = true.
Proof.
  apply (@AbsoluteFee_apply_zero shop) with (a0 := D 1000);
    [reflexivity | compute_done].
Defined.

(** C4 (counterexample). The result returned for a fee of value 0 is
    final. *)
Lemma zero_fee_result_is_final :
  ¬ ∃ r basket',
      @AbsoluteFee_apply shop (mk_fee FIXED 0) two_lines CountCondition
         (mk_condition "Count" 1) (absolute_rule 1 1) None None
        = Ok (r, basket')
      ∧ is_successful r = false ∧ is_final r = false.
Proof.
  intros (r & basket' & Happly & _ & Hfinal).
  rewrite (@AbsoluteFee_apply_amount shop _ _ _ _ _ _ _ (D 0)) in Happly
    by reflexivity.
  cbv zeta in Happly. rewrite bool_decide_eq_true_2 in Happly by compute_done.
  injection Happly as <- _. discriminate.
Qed.

Section AbsoluteFee.
Context `{Environment}.

Lemma select_line_ref (range : RangeId) (x : LineRef)
    (t : Decimal * LineRef) :
  select_line range x = Some t → t.2 = x.
Proof. unfold select_line. repeat case_match; naive_solver. Qed.

Lemma enumerate_snd {A} (l : list A) : (enumerate l).*2 = l.
Proof.
  unfold enumerate. rewrite fmap_imap.
  rewrite (imap_ext _ (λ _ x, x)) by done.
  induction l as [|x l IH]; [done|]. rewrite imap_cons. f_equal. apply IH.
Qed.

(** A selection that is not empty was made with a range. *)
Lemma get_applicable_lines_nonempty (self : Fee.t) (fee : ConditionalFee.t)
    (basket : Basket.t) (range : option RangeId)
    (line_tuples : list (Decimal * LineRef)) :
  get_applicable_lines self fee basket range = Ok line_tuples →
  line_tuples ≠ [] →
  ∃ r, line_tuples
       = sorted (omap (select_line r) (enumerate (Basket.all_lines basket))).
Proof.
  unfold get_applicable_lines.
  destruct (match range with None => Fee.range self | Some r => Some r end)
    as [r|].
  - rewrite applicable_lines_loop_omap. simpl. intros [= <-] _. eauto.
  - destruct (enumerate (Basket.all_lines basket)); simpl; [|done].
    intros [= <-]. done.
Qed.

Lemma selected_in_basket (range : RangeId) (basket : Basket.t)
    (t : Decimal * LineRef) :
  t ∈ sorted (omap (select_line range) (enumerate (Basket.all_lines basket))) →
  Basket.all_lines basket !! t.2.1 = Some t.2.2.
Proof.
  rewrite sorted_perm, list_elem_of_omap.
  intros (x & Hx%enumerate_elem_of & <-%select_line_ref). done.
Qed.

Lemma selected_pks_sublist (range : RangeId) (xs : list LineRef) :
  ((λ t : Decimal * LineRef, Line.pk t.2.2) <$> omap (select_line range) xs)
    `sublist_of` ((λ x : LineRef, Line.pk x.2) <$> xs).
Proof.
  induction xs as [|x xs IH]; simpl; [done|].
  destruct (select_line range x) as [t|] eqn:E; simpl.
  - apply select_line_ref in E as ->. by apply sublist_skip.
  - by apply sublist_cons.
Qed.

(** Distinct keys in the basket give distinct keys among the selected
    lines. *)
Lemma selected_pks_NoDup (range : RangeId) (basket : Basket.t) :
  NoDup (Line.pk <$> Basket.all_lines basket) →
  NoDup ((λ t : Decimal * LineRef, Line.pk t.2.2)
           <$> sorted (omap (select_line range)
                         (enumerate (Basket.all_lines basket)))).
Proof.
  intros Hpk. rewrite sorted_perm.
  eapply sublist_NoDup; [|apply selected_pks_sublist].
  rewrite <-(enumerate_snd (Basket.all_lines basket)) in Hpk.
  by rewrite <-list_fmap_compose in Hpk.
Qed.

Lemma total_affected_pos (cls : ConditionClass)
    (l : list (Decimal * LineRef)) :
  Forall (λ t, 0 < quantity_affected cls t) l → l ≠ [] →
  0 < total_affected cls l.
Proof.
  intros Hl Hne. unfold total_affected, sum_Z.
  destruct Hl as [|t l Ht Hl]; [done|]. rewrite fmap_cons. cbn [foldr].
  assert (0 ≤ foldr Z.add 0 (quantity_affected cls <$> l)); [|lia].
  clear -Hl. induction Hl as [|t l Ht Hl IH]; [done|].
  rewrite fmap_cons. cbn [foldr]. lia.
Qed.

Lemma quantity_affected_pos (cls : ConditionClass) (basket : Basket.t)
    (t : Decimal * LineRef) :
  Forall (λ l, 0 < Line.quantity l) (Basket.all_lines basket) →
  Basket.all_lines basket !! t.2.1 = Some t.2.2 →
  0 < quantity_affected cls t.
Proof.
  intros Hq Ht. unfold quantity_affected.
  destruct (isinstance_CoverageCondition cls); [lia|].
  rewrite Forall_forall in Hq. apply Hq.
  apply list_elem_of_lookup. eauto.
Qed.

(** The allocation on a basket with distinct line keys and positive
    quantities. *)
Lemma AbsoluteFee_apply_fragments (self : Fee.t) (basket : Basket.t)
    (cls : ConditionClass) (condition : Condition.t) (offer : ConditionalFee.t)
    (fee_amount max_total_fee : option Decimal) (a0 : Decimal)
    (line_tuples : list (Decimal * LineRef)) :
  configured_amount self fee_amount = Some a0 →
  clamp max_total_fee a0 ≠ 0%Qc →
  get_applicable_lines self offer basket (Condition.range condition)
    = Ok line_tuples →
  line_tuples ≠ [] →
  NoDup (Line.pk <$> Basket.all_lines basket) →
  Forall (λ l, 0 < Line.quantity l) (Basket.all_lines basket) →
  let amount := clamp max_total_fee a0 in
  let covered :=
    cover_lines cls (int (Condition.value condition)) line_tuples 0 [] in
  let fees := fragments amount covered.1 covered.2 in
  AbsoluteFee_apply self basket cls condition offer fee_amount max_total_fee
    = Ok (BasketFee amount,
          apply_fee_to_basket
            (assign basket (assignments covered.2 fees)) self amount 1)
  ∧ length fees = length covered.2
  ∧ sum_decimal fees = amount.
Proof.
  intros Ha Hnz Hlt Hne Hpk Hq amount covered fees.
  rewrite (AbsoluteFee_apply_amount _ _ _ _ _ _ _ a0) by done. cbv zeta.
  rewrite bool_decide_eq_false_2 by done. rewrite Hlt. cbn [bind].
  rewrite bool_decide_eq_false_2 by done.
  destruct (get_applicable_lines_nonempty _ _ _ _ _ Hlt Hne) as [r Hr].
  destruct (cover_lines_prefix cls (int (Condition.value condition))
              line_tuples []) as (k & Hcov & Hk & Hpos & _).
  specialize (Hpos Hne).
  change (cover_lines cls (int (Condition.value condition)) line_tuples 0 []
          = (total_affected cls (take k line_tuples),
             covered_line cls <$> take k line_tuples)) in Hcov.
  subst fees covered. rewrite Hcov. cbn [fst snd].
  assert (take k line_tuples ≠ []) as Htake.
  { destruct line_tuples, k; simpl; done || lia. }
  destruct (last (covered_line cls <$> take k line_tuples)) as [c|] eqn:Hlast.
  2:{ apply last_None, fmap_nil_inv in Hlast. done. }
  apply last_Some in Hlast as [init Hinit].
  assert (total_affected cls (take k line_tuples) ≠ 0) as Hn.
  { assert (0 < total_affected cls (take k line_tuples)); [|lia].
    apply total_affected_pos; [|done].
    apply Forall_forall. intros t Ht.
    pose proof (elem_of_sublist _ _ _ Ht (sublist_take _ _)) as Ht'.
    eapply quantity_affected_pos; [done|].
    apply (selected_in_basket r). by rewrite <-Hr. }
  assert (Forall (λ x, Line.pk x.1.2.2 ≠ Line.pk c.1.2.2) init) as Hdistinct.
  { assert (NoDup ((λ x : Decimal * LineRef * Z, Line.pk x.1.2.2)
                     <$> (init ++ [c]))) as Hnd.
    { rewrite <-Hinit, <-list_fmap_compose.
      rewrite fmap_take.
      eapply sublist_NoDup; [|apply sublist_take].
      rewrite Hr. by apply selected_pks_NoDup. }
    rewrite fmap_app in Hnd. apply NoDup_app in Hnd as (_ & Hnot & _).
    apply Forall_forall. intros x Hx Heq.
    apply (Hnot (Line.pk x.1.2.2)).
    - apply list_elem_of_fmap. eauto.
    - rewrite Heq. simpl. left. }
  rewrite Hinit, line_fees_shares by done. cbn [bind].
  unfold fragments. rewrite removelast_last.
  replace (0 + sum_decimal (share amount (total_affected cls (take k line_tuples))
                              <$> init))%Qc
    with (sum_decimal (share amount (total_affected cls (take k line_tuples))
                         <$> init)) by ring.
  split; [done|]. split.
  - rewrite !length_app, length_fmap. done.
  - rewrite sum_decimal_app, sum_decimal_cons.
    change (sum_decimal []) with 0%Qc. ring.
Qed.

Lemma line_fees_length (amount : Decimal) (num_affected last_pk : Z)
    (covered_lines : list (Decimal * LineRef * Z)) (fee_applied : Decimal)
    (fees : list Decimal) :
  line_fees amount num_affected last_pk covered_lines fee_applied = Ok fees →
  length fees = length covered_lines.
Proof.
  revert fee_applied fees.
  induction covered_lines as [|c rest IH]; intros fee_applied fees; simpl.
  - by intros [= <-].
  - destruct (if bool_decide _ then _ else _) as [f| |]; cbn [bind]; [|done..].
    destruct (line_fees _ _ _ rest _) as [fs| |] eqn:E; cbn [bind]; [|done..].
    intros [= <-]. simpl. f_equal. by eapply IH.
Qed.

(** Whenever the allocation returns, on any basket, the fees it assigned
    add up to the amount. *)
Lemma AbsoluteFee_apply_sum (self : Fee.t) (basket basket' : Basket.t)
    (cls : ConditionClass) (condition : Condition.t) (offer : ConditionalFee.t)
    (fee_amount max_total_fee : option Decimal) (a0 : Decimal)
    (line_tuples : list (Decimal * LineRef)) (r : ApplicationResult) :
  configured_amount self fee_amount = Some a0 →
  clamp max_total_fee a0 ≠ 0%Qc →
  get_applicable_lines self offer basket (Condition.range condition)
    = Ok line_tuples →
  line_tuples ≠ [] →
  AbsoluteFee_apply self basket cls condition offer fee_amount max_total_fee
    = Ok (r, basket') →
  let amount := clamp max_total_fee a0 in
  let covered :=
    cover_lines cls (int (Condition.value condition)) line_tuples 0 [] in
  ∃ fees,
    r = BasketFee amount
    ∧ basket' = apply_fee_to_basket
                  (assign basket (assignments covered.2 fees)) self amount 1
    ∧ length fees = length covered.2
    ∧ sum_decimal fees = amount.
Proof.
  intros Ha Hnz Hlt Hne.
  rewrite (AbsoluteFee_apply_amount _ _ _ _ _ _ _ a0) by done. cbv zeta.
  rewrite bool_decide_eq_false_2 by done. rewrite Hlt. cbn [bind].
  rewrite bool_decide_eq_false_2 by done.
  destruct (last _) as [c|] eqn:Hlast; [|done].
  apply last_Some in Hlast as [init Hinit].
  destruct (line_fees _ _ _ _ _) as [fees| |] eqn:Hfees; cbn [bind];
    [|done..].
  intros [= <- <-]. exists fees. split; [done|]. split; [done|].
  split; [by eapply line_fees_length|].
  rewrite Hinit in Hfees. apply line_fees_sum in Hfees; [|done].
  rewrite <-Hfees. ring.
Qed.

(** C1. For every call of [AbsoluteFee.apply] with a positive fee amount
    and a non-empty selection of lines, the fees assigned by the allocation
    loop add up to [fee_amount] exactly whenever the call returns, whatever
    the rounding function; and on a basket whose lines have distinct keys
    and positive quantities the call returns, having assigned the rounded
    share [round(fee_amount * quantity / num_affected)] to every covered
    line but the last and [fee_amount] minus the fees assigned before to
    the last one. *)
Theorem AbsoluteFee_apply_exact (self : Fee.t) (basket : Basket.t)
    (cls : ConditionClass) (condition : Condition.t) (offer : ConditionalFee.t)
    (fee_amount max_total_fee : option Decimal) (a0 : Decimal)
    (line_tuples : list (Decimal * LineRef)) :
  configured_amount self fee_amount = Some a0 →
  (0 < clamp max_total_fee a0)%Qc →
  get_applicable_lines self offer basket (Condition.range condition)
    = Ok line_tuples →
  line_tuples ≠ [] →
  let amount := clamp max_total_fee a0 in
  let covered :=
    cover_lines cls (int (Condition.value condition)) line_tuples 0 [] in
  (∀ r basket',
     AbsoluteFee_apply self basket cls condition offer fee_amount
       max_total_fee = Ok (r, basket') →
     ∃ fees,
       r = BasketFee amount
       ∧ basket' = apply_fee_to_basket
                     (assign basket (assignments covered.2 fees))
                     self amount 1
       ∧ length fees = length covered.2
       ∧ sum_decimal fees = amount)
  ∧ (NoDup (Line.pk <$> Basket.all_lines basket) →
     Forall (λ l, 0 < Line.quantity l) (Basket.all_lines basket) →
     let fees := fragments amount covered.1 covered.2 in
     AbsoluteFee_apply self basket cls condition offer fee_amount
       max_total_fee
       = Ok (BasketFee amount,
             apply_fee_to_basket
               (assign basket (assignments covered.2 fees)) self amount 1)
     ∧ length fees = length covered.2
     ∧ sum_decimal fees = amount).
Proof.
  intros Ha Hpos Hlt Hne amount covered.
  assert (clamp max_total_fee a0 ≠ 0%Qc) as Hnz.
  { apply Qclt_not_eq in Hpos. congruence. }
  split.
  - intros r basket' Happly.
    by eapply AbsoluteFee_apply_sum.
  - intros Hpk Hq. by apply AbsoluteFee_apply_fragments.
Qed.

End AbsoluteFee.

(** C1 on a fee of 10.00 over three lines under a Coverage condition. *)
Lemma AbsoluteFee_apply_exact_witness :
  let covered :=
    @cover_lines shop CoverageCondition
      (int (Condition.value (mk_condition "Coverage" 3)))
      three_lines_selected 0 [] in
  let fees := @fragments shop (D 1000) covered.1 covered.2 in
  @AbsoluteFee_apply shop (mk_fee FIXED 1000) three_lines CoverageCondition
     (mk_condition "Coverage" 3) (absolute_rule 1 3) None None
    = Ok (BasketFee (D 1000),
          @apply_fee_to_basket
            (assign three_lines (assignments covered.2 fees))
            (mk_fee FIXED 1000) (D 1000) 1)
  ∧ length fees = length covered.2
  ∧ sum_decimal fees = D 1000.
Proof.
  apply (@AbsoluteFee_apply_exact shop (mk_fee FIXED 1000) three_lines
           CoverageCondition (mk_condition "Coverage" 3) (absolute_rule 1 3)
           None None (D 1000) three_lines_selected).
  - reflexivity.
  - compute_done.
  - compute_done.
  - discriminate.
  - compute_done.
  - compute_done.
Defined.

(** Cheapest first: 10.00 over three lines priced 10.00, 5.00 and 20.00
    gives 3.33 to the line at 5.00, 3.33 to the line at 10.00 and the
    remaining 3.34 to the line at 20.00. *)
Example three_lines_fragments :
  @fragments shop (D 1000) 3
    (@cover_lines shop CoverageCondition 3 three_lines_selected 0 []).2
  = [D 333; D 333; D 334]
  ∧ @get_applicable_lines shop (mk_fee FIXED 1000) (absolute_rule 1 3)
      three_lines (Some 1)
    = Ok three_lines_selected.
Proof. split; compute_done. Qed.

(** * The applicator *)

Section Applicator.
Context `{Environment}.

Lemma get_max_applications_fuel (fee : ConditionalFee.t)
    (user : option User) :
  get_max_applications fee user ≠ OutOfFuel.
Proof.
  unfold get_max_applications. destruct (_ && _); [done|].
  destruct (truthy_int _ && _); done.
Qed.

Lemma get_applicable_lines_fuel (self : Fee.t) (fee : ConditionalFee.t)
    (basket : Basket.t) (range : option RangeId) :
  get_applicable_lines self fee basket range ≠ OutOfFuel.
Proof.
  unfold get_applicable_lines.
  destruct (match range with None => Fee.range self | Some r => Some r end).
  - by rewrite applicable_lines_loop_omap.
  - by destruct (enumerate (Basket.all_lines basket)).
Qed.

Lemma line_fees_fuel (amount : Decimal) (num_affected last_pk : Z)
    (covered_lines : list (Decimal * LineRef * Z)) (fee_applied : Decimal) :
  line_fees amount num_affected last_pk covered_lines fee_applied ≠ OutOfFuel.
Proof.
  revert fee_applied.
  induction covered_lines as [|c rest IH]; intros fee_applied; simpl; [done|].
  case_bool_decide; simpl.
  - specialize (IH (fee_applied + (amount - fee_applied))%Qc).
    by destruct (line_fees _ _ _ rest _).
  - unfold decimal_div. case_bool_decide; simpl; [done|].
    match goal with |- context [line_fees _ _ _ rest ?x] => specialize (IH x) end.
    by destruct (line_fees _ _ _ rest _).
Qed.

Lemma AbsoluteFee_apply_fuel (self : Fee.t) (basket : Basket.t)
    (cls : ConditionClass) (condition : Condition.t) (offer : ConditionalFee.t)
    (fee_amount max_total_fee : option Decimal) :
  AbsoluteFee_apply self basket cls condition offer fee_amount max_total_fee
  ≠ OutOfFuel.
Proof.
  destruct (configured_amount self fee_amount) as [a0|] eqn:Ha.
  - rewrite (AbsoluteFee_apply_amount _ _ _ _ _ _ _ a0) by done. cbv zeta.
    case_bool_decide; [done|].
    pose proof (get_applicable_lines_fuel self offer basket
                  (Condition.range condition)) as Hlt.
    destruct (get_applicable_lines _ _ _ _) as [lt| |]; cbn [bind]; [|done..].
    case_bool_decide; [done|].
    destruct (last _) as [c|]; [|done].
    match goal with
    | |- context [line_fees ?a ?n ?p ?c ?f] =>
        pose proof (line_fees_fuel a n p c f) as Hfees;
        destruct (line_fees a n p c f)
    end; done.
  - unfold AbsoluteFee_apply. fold (configured_amount self fee_amount).
    rewrite Ha. destruct max_total_fee; [done|]. cbn [bind].
    rewrite bool_decide_eq_false_2 by done.
    pose proof (get_applicable_lines_fuel self offer basket
                  (Condition.range condition)) as Hlt.
    destruct (get_applicable_lines _ _ _ _) as [lt| |]; cbn [bind]; [|done..].
    case_bool_decide; [done|]. cbv zeta.
    destruct (last _) as [[[price last_line] quantity]|]; [|done].
    destruct (cover_lines _ _ _ _ _).2 as [|[[p l] q] rest]; simpl; done.
Qed.

(** One application never runs out of fuel: it has no loop of its own that
    could. *)
Lemma apply_fee_fuel (fee : ConditionalFee.t) (basket : Basket.t) :
  apply_fee fee basket ≠ OutOfFuel.
Proof.
  unfold apply_fee, is_condition_satisfied.
  destruct (Condition_proxy _) as [ccls| |] eqn:Ec; cbn [bind]; [|done|].
  2:{ unfold Condition_proxy in Ec. repeat case_match; done. }
  destruct (is_satisfied _ _ _ _); simpl; [|done].
  destruct (Fee_proxy _) as [fcls| |] eqn:Ef; cbn [bind]; [|done|].
  2:{ unfold Fee_proxy in Ef. repeat case_match; done. }
  destruct fcls.
  - done.
  - apply AbsoluteFee_apply_fuel.
  - by destruct (custom_fee_apply _ _ _ _ _ _).
Qed.

(** The loop stops within its fuel: every iteration increments
    [num_applications] and the guard is at most 10000. *)
Lemma apply_fee_while_fuel (fuel : nat) (fee : ConditionalFee.t)
    (num_applications : Z) (basket : Basket.t)
    (applications : FeeApplications) :
  0 ≤ 10000 - num_applications < Z.of_nat fuel →
  apply_fee_while fuel fee num_applications basket applications ≠ OutOfFuel.
Proof.
  revert num_applications basket applications.
  induction fuel as [|fuel IH]; intros n basket apps Hfuel; [lia|].
  cbn [apply_fee_while].
  pose proof (get_max_applications_fuel fee (Basket.owner basket)) as Hg.
  destruct (get_max_applications fee (Basket.owner basket)) as [m| |] eqn:Em;
    cbn [bind]; [|done..].
  case_bool_decide as Hguard; [|done].
  pose proof (apply_fee_fuel fee basket) as Ha.
  destruct (apply_fee fee basket) as [[r b]| |]; cbn [bind]; [|done..].
  cbv zeta. cbn [fst snd].
  destruct (is_successful r); simpl; [|done].
  destruct (is_final r); [done|].
  match goal with
  | |- context [apply_fee_while fuel fee ?n' ?b' ?a'] =>
      specialize (IH n' b' a'); destruct (apply_fee_while fuel fee n' b' a')
  end; cbn [bind]; [done..|].
  apply IH. apply get_max_applications_ceiling in Em. lia.
Qed.

Lemma loop_fuel_enough : 0 ≤ 10000 - 0 < Z.of_nat loop_fuel.
Proof. unfold loop_fuel. rewrite Z2Nat.id; lia. Qed.

(** So does the pass over the rules. *)
Lemma apply_fees_fuel (basket : Basket.t) (fees : list ConditionalFee.t) :
  apply_fees basket fees ≠ OutOfFuel.
Proof.
  unfold apply_fees.
  assert (∀ b a, apply_fees_for fees b a ≠ OutOfFuel) as Hfor.
  { induction fees as [|fee rest IH]; intros b a; cbn [apply_fees_for];
      [done|].
    pose proof (apply_fee_while_fuel loop_fuel fee 0 b a loop_fuel_enough)
      as Hloop.
    destruct (apply_fee_while loop_fuel fee 0 b a) as [st| |]; cbn [bind];
      [apply IH | done | done]. }
  specialize (Hfor basket ∅).
  by destruct (apply_fees_for fees basket ∅).
Qed.

(** What a completed loop did. *)
Lemma apply_fee_while_Ok (fuel : nat) (fee : ConditionalFee.t)
    (num_applications : Z) (basket : Basket.t)
    (applications : FeeApplications)
    (trace : list ApplicationResult) (basket' : Basket.t)
    (applications' : FeeApplications) :
  apply_fee_while fuel fee num_applications basket applications
    = Ok (trace, basket', applications') →
  (∃ m, get_max_applications fee (Basket.owner basket) = Ok m
        ∧ (trace = [] ∨ num_applications + Z.of_nat (length trace) ≤ m))
  ∧ (∀ (i : nat) r, trace !! i = Some r → (S i < length trace)%nat →
       is_successful r = true ∧ is_final r = false)
  ∧ applications'
    = record_all applications fee (List.filter is_successful trace)
  ∧ Forall (λ r, ∃ b b', apply_fee fee b = Ok (r, b')) trace.
Proof.
  revert num_applications basket applications trace basket' applications'.
  induction fuel as [|fuel IH]; intros n basket apps trace b' apps'; [done|].
  cbn [apply_fee_while].
  destruct (get_max_applications fee (Basket.owner basket)) as [m| |] eqn:Em;
    cbn [bind]; [|done..].
  case_bool_decide as Hguard.
  2:{ intros [= <- <- <-]. split; [eauto|]. split; [|done].
      intros i r Hi. done. }
  destruct (apply_fee fee basket) as [[r b]| |] eqn:Ea; cbn [bind]; [|done..].
  cbv zeta. cbn [fst snd].
  assert (∃ b0 b1, apply_fee fee b0 = Ok (r, b1)) as Hr by eauto.
  destruct (is_successful r) eqn:Es; simpl.
  2:{ intros [= <- <- <-]. split; [exists m; split; [done|right; simpl; lia]|].
      split; [intros [|i] r' Hi Hlt; simpl in *; lia|].
      simpl. rewrite Es. split; [done|]. by repeat constructor. }
  destruct (is_final r) eqn:Ef.
  { intros [= <- <- <-]. split; [exists m; split; [done|right; simpl; lia]|].
    split; [intros [|i] r' Hi Hlt; simpl in *; lia|].
    simpl. rewrite Es. split; [done|]. by repeat constructor. }
  destruct (apply_fee_while fuel fee _ _ _) as [[[tr b2] a2]| |] eqn:Eloop;
    cbn [bind]; [|done..].
  cbn [fst snd]. intros [= <- <- <-].
  apply IH in Eloop as ((m' & Hm' & Hlen) & Hprefix & -> & Hfrom).
  split; [|split; [|split]].
  - exists m. split; [done|]. right. simpl length.
    destruct Hlen as [->|Hlen]; [simpl; lia|].
    destruct (get_max_applications_user fee _ (Basket.owner basket) _ Hm')
      as [Hsame|Hraise]; [|congruence].
    rewrite Em in Hsame. injection Hsame as ->. lia.
  - intros [|i] r' Hi Hlt; simpl in Hi.
    + by injection Hi as <-.
    + apply (Hprefix i); [done|]. simpl in Hlt. lia.
  - simpl. by rewrite Es.
  - by constructor.
Qed.

(** C2. In one pass, for every rule, the loop of the applicator ends (with
    a result or an exception, never for want of fuel); when it ends with a
    result it has called [apply_fee] (the trace holds the result of each
    call) at most [get_max_applications(basket.owner)] times, at most once
    for a rule with [max_basket_applications = 1]; every result but the last
    one was successful and not final, so the first unsuccessful result ended
    the repetition; and the ledger has recorded the successful results, and
    only them. *)
Theorem apply_fee_while_bounded (fee : ConditionalFee.t) (basket : Basket.t)
    (applications : FeeApplications) :
  apply_fee_while loop_fuel fee 0 basket applications ≠ OutOfFuel
  ∧ ∀ trace basket' applications',
      apply_fee_while loop_fuel fee 0 basket applications
        = Ok (trace, basket', applications') →
      (∃ m, get_max_applications fee (Basket.owner basket) = Ok m
            ∧ Z.of_nat (length trace) ≤ Z.max 0 m)
      ∧ (ConditionalFee.max_basket_applications fee = Some 1 →
         (length trace ≤ 1)%nat)
      ∧ (∀ (i : nat) r, trace !! i = Some r → (S i < length trace)%nat →
           is_successful r = true ∧ is_final r = false)
      ∧ applications'
        = record_all applications fee (List.filter is_successful trace)
      ∧ Forall (λ r, ∃ b b', apply_fee fee b = Ok (r, b')) trace.
Proof.
  split; [apply apply_fee_while_fuel, loop_fuel_enough|].
  intros trace basket' applications' Hloop.
  apply apply_fee_while_Ok in Hloop
    as ((m & Hm & Hlen) & Hprefix & Happs & Hfrom).
  assert (Z.of_nat (length trace) ≤ Z.max 0 m) as Hbound.
  { destruct Hlen as [->|Hlen]; simpl; lia. }
  split; [eauto|]. split; [|done].
  intros Hone.
  assert (m ≤ 1); [|lia].
  destruct (budget_exhausted_dec fee) as [Hb|Hb].
  { rewrite get_max_applications_exhausted in Hm by done.
    injection Hm as <-. lia. }
  destruct (user_limit_consulted_dec fee (Basket.owner basket)) as [Hu|Hu].
  { by rewrite get_max_applications_raises in Hm. }
  destruct (get_max_applications_least fee (Basket.owner basket) Hb Hu)
    as (m' & Hm' & _ & Hleast).
  rewrite Hm in Hm'. injection Hm' as <-.
  apply Hleast. right. left. exists 1. done.
Qed.

Lemma FeeApplications_add_other (applications : FeeApplications)
    (fee : ConditionalFee.t) (r : ApplicationResult) (k : Z) :
  k ≠ ConditionalFee.id fee →
  FeeApplications_add applications fee r !! k = applications !! k.
Proof.
  intros Hk. unfold FeeApplications_add.
  rewrite lookup_alter_ne by done.
  destruct (applications !! ConditionalFee.id fee); [done|].
  by rewrite lookup_insert_ne.
Qed.

Lemma FeeApplications_add_freq (applications : FeeApplications)
    (fee : ConditionalFee.t) (r : ApplicationResult) :
  ∃ a, FeeApplications_add applications fee r !! ConditionalFee.id fee = Some a
       ∧ Application.freq a
         = from_option Application.freq 0
             (applications !! ConditionalFee.id fee) + 1.
Proof.
  unfold FeeApplications_add.
  destruct (applications !! ConditionalFee.id fee) as [a|] eqn:Ea.
  - exists (Application.add_result r a).
    by rewrite lookup_alter_eq, Ea.
  - eexists. rewrite lookup_alter_eq, lookup_insert_eq. simpl. done.
Qed.

Lemma record_all_other (applications : FeeApplications)
    (fee : ConditionalFee.t) (results : list ApplicationResult) (k : Z) :
  k ≠ ConditionalFee.id fee →
  record_all applications fee results !! k = applications !! k.
Proof.
  intros Hk. revert applications.
  induction results as [|r rs IH]; intros applications; simpl; [done|].
  unfold record_all in *. simpl. rewrite IH.
  by apply FeeApplications_add_other.
Qed.

Lemma apply_fees_for_app (fees1 fees2 : list ConditionalFee.t)
    (basket : Basket.t) (applications : FeeApplications) :
  apply_fees_for (fees1 ++ fees2) basket applications =
    (st <- apply_fees_for fees1 basket applications;;
     apply_fees_for fees2 st.1 st.2).
Proof.
  revert basket applications.
  induction fees1 as [|fee rest IH]; intros basket applications.
  { by destruct (apply_fees_for fees2 basket applications). }
  rewrite <-app_comm_cons. cbn [apply_fees_for].
  destruct (apply_fee_while _ _ _ _ _) as [st| |]; cbn [bind]; [|done..].
  apply IH.
Qed.

(** Rules with other keys leave a ledger entry alone. *)
Lemma apply_fees_for_other (fees : list ConditionalFee.t)
    (basket basket' : Basket.t) (applications applications' : FeeApplications)
    (k : Z) :
  k ∉ ConditionalFee.id <$> fees →
  apply_fees_for fees basket applications = Ok (basket', applications') →
  applications' !! k = applications !! k.
Proof.
  revert basket applications.
  induction fees as [|fee rest IH]; intros basket applications Hk;
    cbn [apply_fees_for].
  - by intros [= <- <-].
  - rewrite fmap_cons, not_elem_of_cons in Hk. destruct Hk as [Hk Hrest].
    destruct (apply_fee_while _ _ _ _ _) as [[[tr b] a]| |] eqn:Eloop;
      cbn [bind]; [|done..].
    intros Hpass. cbn [fst snd] in Hpass.
    apply IH in Hpass; [|done]. rewrite Hpass.
    apply apply_fee_while_Ok in Eloop as (_ & _ & -> & _).
    by apply record_all_other.
Qed.

Lemma AbsoluteFee_apply_result (self : Fee.t) (basket basket' : Basket.t)
    (cls : ConditionClass) (condition : Condition.t) (offer : ConditionalFee.t)
    (fee_amount max_total_fee : option Decimal) (r : ApplicationResult) :
  AbsoluteFee_apply self basket cls condition offer fee_amount max_total_fee
    = Ok (r, basket') →
  ∃ amount, r = BasketFee amount.
Proof.
  destruct (configured_amount self fee_amount) as [a0|] eqn:Ha.
  - rewrite (AbsoluteFee_apply_amount _ _ _ _ _ _ _ a0) by done. cbv zeta.
    case_bool_decide; [intros [= <- _]; by eexists|].
    destruct (get_applicable_lines _ _ _ _) as [lt| |]; cbn [bind]; [|done..].
    case_bool_decide; [intros [= <- _]; by eexists|].
    destruct (last _) as [c|]; [|done].
    destruct (line_fees _ _ _ _ _); cbn [bind]; [|done..].
    intros [= <- _]. by eexists.
  - unfold AbsoluteFee_apply. fold (configured_amount self fee_amount).
    rewrite Ha. destruct max_total_fee; [done|]. cbn [bind].
    rewrite bool_decide_eq_false_2 by done.
    destruct (get_applicable_lines _ _ _ _) as [lt| |]; cbn [bind]; [|done..].
    case_bool_decide; [intros [= <- _]; by eexists|]. cbv zeta.
    destruct (last _) as [[[price last_line] quantity]|]; [|done].
    destruct (allocate _ _ _ _ _ _); cbn [bind]; done.
Qed.

(** Every result of a rule with an Absolute fee is a [BasketFee]. *)
Lemma apply_fee_absolute (fee : ConditionalFee.t) (basket basket' : Basket.t)
    (r : ApplicationResult) :
  Fee_proxy (ConditionalFee.fee fee) = Ok AbsoluteFee →
  apply_fee fee basket = Ok (r, basket') →
  ∃ amount, r = BasketFee amount.
Proof.
  intros Hproxy. unfold apply_fee.
  destruct (is_condition_satisfied fee basket) as [[]| |]; cbn [bind];
    [| |done..].
  - rewrite Hproxy. cbn [bind].
    destruct (Condition_proxy _); cbn [bind]; [|done..].
    apply AbsoluteFee_apply_result.
  - simpl. intros [= <- _]. by eexists.
Qed.

Lemma absolute_trace_short (fuel : nat) (fee : ConditionalFee.t) (n : Z)
    (basket basket' : Basket.t) (applications applications' : FeeApplications)
    (trace : list ApplicationResult) :
  Fee_proxy (ConditionalFee.fee fee) = Ok AbsoluteFee →
  apply_fee_while fuel fee n basket applications
    = Ok (trace, basket', applications') →
  (length trace ≤ 1)%nat.
Proof.
  intros Hproxy (_ & Hprefix & _ & Hfrom)%apply_fee_while_Ok.
  destruct trace as [|r [|r' rest]]; simpl; [lia..|].
  destruct (Hprefix 0%nat r) as [_ Hfinal]; [done | simpl; lia |].
  apply Forall_cons in Hfrom as [(b & b' & Hr) _].
  apply apply_fee_absolute in Hr as [amount ->]; done.
Qed.

(** C10. A [BasketFee] is final, and successful exactly when its amount is
    positive; every result of a rule whose fee is an Absolute fee is a
    final one; so in one pass, over rules with distinct keys, the ledger
    holds at most one application of such a rule, whatever its
    [get_max_applications]. *)
Theorem absolute_fee_recorded_once (basket basket' : Basket.t)
    (fees : list ConditionalFee.t) (fee : ConditionalFee.t) :
  (∀ amount, is_final (BasketFee amount) = true
             ∧ (is_successful (BasketFee amount) = true ↔ (0 < amount)%Qc))
  ∧ (Fee_proxy (ConditionalFee.fee fee) = Ok AbsoluteFee →
     ∀ b b' r, apply_fee fee b = Ok (r, b') → is_final r = true)
  ∧ (Fee_proxy (ConditionalFee.fee fee) = Ok AbsoluteFee →
     NoDup (ConditionalFee.id <$> fees) → fee ∈ fees →
     apply_fees basket fees = Ok basket' →
     ∃ applications,
       Basket.fee_applications basket' = Some applications
       ∧ ∀ a, applications !! ConditionalFee.id fee = Some a →
              Application.freq a = 1).
Proof.
  split; [|split].
  - intros amount. split; [done|]. simpl. apply bool_decide_eq_true.
  - intros Hproxy b b' r Hr.
    by apply apply_fee_absolute in Hr as [amount ->].
  - intros Hproxy Hnd Hin. unfold apply_fees.
    destruct (apply_fees_for fees basket ∅) as [[b apps]| |] eqn:Epass;
      cbn [bind]; [|done..].
    intros [= <-]. exists apps. split; [done|].
    apply list_elem_of_split in Hin as (pre & post & ->).
    rewrite fmap_app, fmap_cons in Hnd.
    apply NoDup_app in Hnd as (_ & Hpre & Hpost).
    apply NoDup_cons in Hpost as [Hpost _].
    rewrite apply_fees_for_app in Epass.
    destruct (apply_fees_for pre basket ∅) as [[b1 a1]| |] eqn:E1;
      cbn [bind] in Epass; [|done..].
    cbn [apply_fees_for fst snd] in Epass.
    destruct (apply_fee_while _ _ _ _ _) as [[[tr b2] a2]| |] eqn:Eloop;
      cbn [bind] in Epass; [|done..].
    cbn [fst snd] in Epass.
    apply apply_fees_for_other with (k := ConditionalFee.id fee) in Epass;
      [|done].
    apply apply_fees_for_other with (k := ConditionalFee.id fee) in E1.
    2:{ intros Hk. apply (Hpre _ Hk). left. }
    rewrite lookup_empty in E1.
    pose proof (absolute_trace_short _ _ _ _ _ _ _ _ Hproxy Eloop) as Hshort.
    apply apply_fee_while_Ok in Eloop as (_ & _ & -> & _).
    rewrite Epass. intros a.
    assert (length (List.filter is_successful tr) ≤ 1)%nat as Hlen.
    { destruct tr as [|r [|]]; simpl in *; [lia | | lia].
      destruct (is_successful r); simpl; lia. }
    destruct (List.filter is_successful tr) as [|r [|]]; simpl in *;
      [| |lia].
    + by rewrite E1.
    + destruct (FeeApplications_add_freq a1 fee r) as (a' & Ha' & Hfreq).
      unfold record_all. simpl. rewrite Ha'. intros [= <-].
      rewrite Hfreq, E1. done.
Qed.

End Applicator.

(** * Annotations across passes *)

Section Accumulation.
Context `{Environment}.

Lemma enumerate_fmap {A B} (f : A → B) (l : list A) :
  enumerate (f <$> l) = (λ x, (x.1, f x.2)) <$> enumerate l.
Proof. unfold enumerate. by rewrite imap_fmap, fmap_imap. Qed.

Lemma select_line_clear (range : RangeId) (x : LineRef) :
  select_line range (x.1, clear_line x.2) = clear_tuple <$> select_line range x.
Proof.
  unfold select_line. simpl.
  destruct (Line.unit_effective_price x.2); [|done].
  by destruct (_ && _).
Qed.

Lemma omap_select_clear (range : RangeId) (xs : list LineRef) :
  omap (select_line range) ((λ x, (x.1, clear_line x.2)) <$> xs)
  = clear_tuple <$> omap (select_line range) xs.
Proof.
  induction xs as [|x xs IH]; [done|].
  rewrite fmap_cons. cbn [omap list_omap]. rewrite select_line_clear.
  destruct (select_line range x); simpl; by rewrite IH.
Qed.

Lemma insert_by_key_clear (x : Decimal * LineRef)
    (l : list (Decimal * LineRef)) :
  insert_by_key (clear_tuple x) (clear_tuple <$> l)
  = clear_tuple <$> insert_by_key x l.
Proof.
  induction l as [|y l IH]; [done|].
  rewrite fmap_cons. cbn [insert_by_key]. simpl fst.
  case_bool_decide; [done|]. rewrite fmap_cons. by rewrite IH.
Qed.

Lemma sorted_clear (l : list (Decimal * LineRef)) :
  sorted (clear_tuple <$> l) = clear_tuple <$> sorted l.
Proof.
  induction l as [|x l IH]; [done|].
  rewrite fmap_cons. cbn [sorted]. by rewrite IH, insert_by_key_clear.
Qed.

(** The selection on the cleared basket is the cleared selection. *)
Lemma get_applicable_lines_clear (self : Fee.t) (fee : ConditionalFee.t)
    (basket : Basket.t) (range : option RangeId) :
  get_applicable_lines self fee (clear_annotations basket) range =
    match get_applicable_lines self fee basket range with
    | Ok line_tuples => Ok (clear_tuple <$> line_tuples)
    | Raise e => Raise e
    | OutOfFuel => OutOfFuel
    end.
Proof.
  unfold get_applicable_lines, clear_annotations. simpl.
  destruct (match range with None => Fee.range self | Some r => Some r end).
  - rewrite !applicable_lines_loop_omap. simpl.
    by rewrite enumerate_fmap, omap_select_clear, sorted_clear.
  - rewrite enumerate_fmap. by destruct (enumerate (Basket.all_lines basket)).
Qed.

Lemma get_applicable_lines_lines (self : Fee.t) (fee : ConditionalFee.t)
    (b c : Basket.t) (range : option RangeId) :
  Basket.all_lines b = Basket.all_lines c →
  get_applicable_lines self fee b range
  = get_applicable_lines self fee c range.
Proof. intros Hl. unfold get_applicable_lines. by rewrite Hl. Qed.

(** On baskets with the same lines up to the annotations, the selections
    are the same up to the annotations. *)
Lemma get_applicable_lines_same (self : Fee.t) (fee : ConditionalFee.t)
    (b c : Basket.t) (range : option RangeId)
    (line_tuples : list (Decimal * LineRef)) :
  same_lines b c →
  get_applicable_lines self fee c range = Ok line_tuples →
  ∃ line_tuples',
    get_applicable_lines self fee b range = Ok line_tuples'
    ∧ clear_tuple <$> line_tuples' = clear_tuple <$> line_tuples.
Proof.
  intros Hs Hc.
  pose proof (get_applicable_lines_clear self fee b range) as Hb.
  rewrite (get_applicable_lines_lines _ _ _ (clear_annotations c)) in Hb
    by exact Hs.
  rewrite get_applicable_lines_clear, Hc in Hb.
  destruct (get_applicable_lines self fee b range) as [lt| |]; [|done..].
  injection Hb as Hb. eauto.
Qed.

Lemma quantity_affected_clear (cls : ConditionClass) (t : Decimal * LineRef) :
  quantity_affected cls (clear_tuple t) = quantity_affected cls t.
Proof. done. Qed.

Lemma cover_lines_clear (cls : ConditionClass) (num_permitted : Z)
    (line_tuples : list (Decimal * LineRef)) (num_affected : Z)
    (covered_lines : list (Decimal * LineRef * Z)) :
  cover_lines cls num_permitted (clear_tuple <$> line_tuples) num_affected
    (clear_covered <$> covered_lines)
  = ((cover_lines cls num_permitted line_tuples num_affected covered_lines).1,
     clear_covered
       <$> (cover_lines cls num_permitted line_tuples num_affected
              covered_lines).2).
Proof.
  revert num_affected covered_lines.
  induction line_tuples as [|t rest IH]; intros n acc; [done|].
  rewrite fmap_cons, !cover_lines_cons, quantity_affected_clear.
  change [covered_line cls (clear_tuple t)]
    with (clear_covered <$> [covered_line cls t]).
  rewrite <-fmap_app.
  case_bool_decide; [done|]. apply IH.
Qed.

Lemma cover_lines_same (cls : ConditionClass) (num_permitted : Z)
    (lt lt' : list (Decimal * LineRef)) :
  clear_tuple <$> lt' = clear_tuple <$> lt →
  (cover_lines cls num_permitted lt' 0 []).1
  = (cover_lines cls num_permitted lt 0 []).1
  ∧ clear_covered <$> (cover_lines cls num_permitted lt' 0 []).2
    = clear_covered <$> (cover_lines cls num_permitted lt 0 []).2.
Proof.
  intros Hlt.
  pose proof (cover_lines_clear cls num_permitted lt' 0 []) as H1.
  pose proof (cover_lines_clear cls num_permitted lt 0 []) as H2.
  rewrite Hlt, H2 in H1. by injection H1 as -> ->.
Qed.

Lemma line_fees_clear (amount : Decimal) (num_affected last_pk : Z)
    (covered_lines : list (Decimal * LineRef * Z)) (fee_applied : Decimal) :
  line_fees amount num_affected last_pk (clear_covered <$> covered_lines)
            fee_applied
  = line_fees amount num_affected last_pk covered_lines fee_applied.
Proof.
  revert fee_applied.
  induction covered_lines as [|c rest IH]; intros fee_applied; [done|].
  rewrite fmap_cons. cbn [line_fees]. simpl.
  destruct (if bool_decide _ then _ else _) as [f| |]; cbn [bind]; [|done..].
  by rewrite IH.
Qed.

Lemma accumulate_line_apply (before line : Line.t) (line_fee : Decimal)
    (quantity : Z) :
  accumulate_line before (apply_fee_to_line line line_fee quantity)
  = apply_fee_to_line (accumulate_line before line) line_fee quantity.
Proof.
  unfold accumulate_line, apply_fee_to_line, Line.set_annotations. simpl.
  f_equal.
  - unfold accumulate_amount. rewrite D_0. f_equal.
    destruct (Line._fee_amount line), (Line._fee_amount before); simpl; ring.
  - unfold accumulate_quantity. f_equal.
    destruct (Line._fee_quantity line), (Line._fee_quantity before); simpl;
      lia.
Qed.

Lemma zip_with_alter {A B} (g : A → B → B) (f : B → B) (l0 : list A)
    (l : list B) (i : nat) :
  (∀ x y, g x (f y) = f (g x y)) →
  zip_with g l0 (alter f i l) = alter f i (zip_with g l0 l).
Proof.
  intros Hgf. revert l i.
  induction l0 as [|x l0 IH]; intros [|y l] [|i]; simpl; try done.
  - by rewrite Hgf.
  - f_equal. apply IH.
Qed.

Lemma assign_accumulate (before basket : Basket.t)
    (calls calls' : list assignment) :
  call_key <$> calls' = call_key <$> calls →
  assign (accumulate before basket) calls'
  = accumulate before (assign basket calls).
Proof.
  revert basket calls'.
  induction calls as [|u calls IH]; intros basket [|u' calls'] Hkeys;
    try done; try (by rewrite fmap_cons in Hkeys).
  rewrite !fmap_cons in Hkeys. unfold call_key at 1 3 in Hkeys.
  injection Hkeys as Hi Hf Hq Hkeys.
  unfold assign in *. cbn [foldl]. rewrite <-(IH _ _ Hkeys). f_equal.
  unfold alter_line, accumulate, Basket.set_all_lines. simpl.
  rewrite Hi, Hf, Hq. f_equal.
  symmetry. apply zip_with_alter. intros x y. apply accumulate_line_apply.
Qed.

Lemma assignments_key (covered_lines : list (Decimal * LineRef * Z))
    (fees : list Decimal) :
  call_key <$> assignments covered_lines fees
  = zip_with (λ k f, (k.1, f, k.2))
      ((λ c : Decimal * LineRef * Z, (c.1.2.1, c.2)) <$> covered_lines) fees.
Proof.
  revert fees.
  induction covered_lines as [|c rest IH]; intros [|f fees]; try done.
  unfold assignments in *. simpl. by rewrite <-IH.
Qed.

Lemma assignments_same (cov cov' : list (Decimal * LineRef * Z))
    (fees : list Decimal) :
  clear_covered <$> cov' = clear_covered <$> cov →
  call_key <$> assignments cov' fees = call_key <$> assignments cov fees.
Proof.
  intros Hcov. rewrite !assignments_key. f_equal.
  change (λ c : Decimal * LineRef * Z, (c.1.2.1, c.2))
    with ((λ c : Decimal * LineRef * Z, (c.1.2.1, c.2)) ∘ clear_covered).
  by rewrite !(list_fmap_compose clear_covered), Hcov.
Qed.

Lemma same_lines_alter (basket : Basket.t) (line : LineRef)
    (line_fee : Decimal) (quantity : Z) :
  same_lines
    (alter_line (λ l, apply_fee_to_line l line_fee quantity) line basket)
    basket.
Proof.
  unfold same_lines, alter_line. simpl.
  generalize (Basket.all_lines basket) as ls. generalize line.1 as i.
  intros i ls. revert i.
  induction ls as [|l ls IH]; intros [|i]; simpl; try done.
  f_equal. apply IH.
Qed.

Lemma same_lines_assign (basket : Basket.t) (calls : list assignment) :
  same_lines (assign basket calls) basket.
Proof.
  revert basket. induction calls as [|u calls IH]; intros basket; [done|].
  unfold assign in *. cbn [foldl]. unfold same_lines in *.
  rewrite IH. apply same_lines_alter.
Qed.

Lemma same_lines_accumulate (before basket : Basket.t) :
  same_lines before basket → same_lines (accumulate before basket) basket.
Proof.
  unfold same_lines, accumulate. simpl.
  generalize (Basket.all_lines before) as l0.
  generalize (Basket.all_lines basket) as l.
  intros l l0. revert l.
  induction l0 as [|x l0 IH]; intros [|y l]; simpl; try done.
  intros [= _ Hrest]. f_equal. by apply IH.
Qed.

Lemma allocate_no_amount (num_affected : Z) (last_line : LineRef)
    (covered_lines : list (Decimal * LineRef * Z)) (fee_applied : Decimal)
    (basket : Basket.t) :
  covered_lines ≠ [] →
  allocate None num_affected last_line covered_lines fee_applied basket
  = Raise TypeError.
Proof. by destruct covered_lines as [|[[p l] q] rest]. Qed.

(** One application of an Absolute fee adds the same fees whatever the
    annotations the lines carry. *)
Lemma AbsoluteFee_apply_accumulate (self : Fee.t) (before basket : Basket.t)
    (cls : ConditionClass) (condition : Condition.t) (offer : ConditionalFee.t)
    (fee_amount max_total_fee : option Decimal)
    (r : ApplicationResult) (basket' : Basket.t) :
  same_lines before basket →
  AbsoluteFee_apply self basket cls condition offer fee_amount max_total_fee
    = Ok (r, basket') →
  AbsoluteFee_apply self (accumulate before basket) cls condition offer
    fee_amount max_total_fee
    = Ok (r, accumulate before basket')
  ∧ same_lines before basket'.
Proof.
  intros Hsame.
  pose proof (same_lines_accumulate _ _ Hsame) as Hacc.
  destruct (configured_amount self fee_amount) as [a0|] eqn:Ha.
  - rewrite !(AbsoluteFee_apply_amount _ _ _ _ _ _ _ a0) by done. cbv zeta.
    case_bool_decide; [by intros [= <- <-]|].
    destruct (get_applicable_lines self offer basket _) as [lt| |] eqn:Elt;
      cbn [bind]; [|done..].
    destruct (get_applicable_lines_same _ _ _ _ _ _ Hacc Elt)
      as (lt' & -> & Hlt). cbn [bind].
    case_bool_decide as Hnil.
    { subst lt. apply fmap_nil_inv in Hlt as ->.
      rewrite bool_decide_eq_true_2 by done. by intros [= <- <-]. }
    rewrite bool_decide_eq_false_2.
    2:{ intros ->. symmetry in Hlt. by apply fmap_nil_inv in Hlt. }
    destruct (cover_lines_same cls (int (Condition.value condition)) _ _ Hlt)
      as [Hn Hcov].
    rewrite Hn.
    destruct (last (cover_lines _ _ lt _ _).2) as [c|] eqn:Elast; [|done].
    assert (clear_covered
              <$> last (cover_lines cls (int (Condition.value condition))
                          lt' 0 []).2 = Some (clear_covered c)) as Elast'.
    { by rewrite <-fmap_last, Hcov, fmap_last, Elast. }
    destruct (last (cover_lines _ _ lt' _ _).2) as [c'|]; [|done].
    apply (f_equal (fmap (λ x : Decimal * LineRef * Z, Line.pk x.1.2.2)))
      in Elast'.
    simpl in Elast'. injection Elast' as ->.
    rewrite <-(line_fees_clear _ _ _ (cover_lines _ _ lt' _ _).2), Hcov,
      line_fees_clear.
    destruct (line_fees _ _ _ _ _) as [fees| |]; cbn [bind]; [|done..].
    intros [= <- <-]. split.
    + f_equal. f_equal.
      rewrite (assign_accumulate _ _ (assignments _ fees)
                 (assignments _ fees)) by (by apply assignments_same).
      done.
    + unfold same_lines in *. rewrite Hsame. symmetry.
      apply (same_lines_assign basket).
  - unfold AbsoluteFee_apply. fold (configured_amount self fee_amount).
    rewrite Ha. destruct max_total_fee; [done|]. cbn [bind].
    rewrite bool_decide_eq_false_2 by done.
    destruct (get_applicable_lines self offer basket _) as [lt| |] eqn:Elt;
      cbn [bind]; [|done..].
    destruct (get_applicable_lines_same _ _ _ _ _ _ Hacc Elt)
      as (lt' & -> & Hlt). cbn [bind].
    case_bool_decide as Hnil.
    { subst lt. apply fmap_nil_inv in Hlt as ->.
      rewrite bool_decide_eq_true_2 by done. by intros [= <- <-]. }
    cbv zeta.
    destruct (last (cover_lines _ _ lt _ _).2) as [[[p l] q]|] eqn:Elast;
      [|done].
    rewrite allocate_no_amount; [done|].
    intros Hempty. by rewrite Hempty in Elast.
Qed.

Lemma clear_annotations_accumulate (before basket : Basket.t) :
  same_lines before basket →
  clear_annotations (accumulate before basket) = clear_annotations basket.
Proof.
  intros Hsame%same_lines_accumulate.
  unfold clear_annotations, Basket.set_all_lines. simpl. f_equal. exact Hsame.
Qed.

Lemma builtin_fee_proxy (fee : ConditionalFee.t) (k : string) :
  builtin_fee fee → Fee_proxy (ConditionalFee.fee fee) ≠ Ok (CustomFee k).
Proof.
  unfold builtin_fee, Fee_proxy. intros ->. repeat case_bool_decide; done.
Qed.

(** One application of a rule adds the same fees whatever the annotations
    the lines carry. *)
Lemma apply_fee_accumulate (fee : ConditionalFee.t)
    (before basket basket' : Basket.t) (r : ApplicationResult) :
  conditions_ignore_annotations → builtin_fee fee →
  same_lines before basket →
  apply_fee fee basket = Ok (r, basket') →
  apply_fee fee (accumulate before basket) = Ok (r, accumulate before basket')
  ∧ same_lines before basket'.
Proof.
  intros Hcond Hbuiltin Hsame. unfold apply_fee, is_condition_satisfied.
  destruct (Condition_proxy _) as [ccls| |]; cbn [bind]; [|done..].
  rewrite (Hcond _ _ _ (accumulate before basket)),
    clear_annotations_accumulate, <-Hcond by done.
  destruct (is_satisfied _ _ _ basket); simpl; [|by intros [= <- <-]].
  destruct (Fee_proxy _) as [[| |k]| |] eqn:Ef; cbn [bind]; [| | |done..].
  - done.
  - by apply AbsoluteFee_apply_accumulate.
  - by apply builtin_fee_proxy in Ef.
Qed.

Lemma accumulate_set_total_test (before basket : Basket.t) (k : Z) :
  accumulate before (Basket.set_total_test k basket)
  = Basket.set_total_test k (accumulate before basket).
Proof. done. Qed.

Lemma apply_fee_while_accumulate (fuel : nat) (fee : ConditionalFee.t)
    (n : Z) (before basket basket' : Basket.t)
    (applications applications' : FeeApplications)
    (trace : list ApplicationResult) :
  conditions_ignore_annotations → builtin_fee fee →
  same_lines before basket →
  apply_fee_while fuel fee n basket applications
    = Ok (trace, basket', applications') →
  apply_fee_while fuel fee n (accumulate before basket) applications
    = Ok (trace, accumulate before basket', applications')
  ∧ same_lines before basket'.
Proof.
  intros Hcond Hbuiltin. revert n basket applications trace.
  induction fuel as [|fuel IH]; intros n basket apps trace Hsame; [done|].
  cbn [apply_fee_while].
  change (Basket.owner (accumulate before basket)) with (Basket.owner basket).
  destruct (get_max_applications fee (Basket.owner basket)) as [m| |];
    cbn [bind]; [|done..].
  case_bool_decide; [|by intros [= <- <- <-]].
  destruct (apply_fee fee basket) as [[r b]| |] eqn:Ea; cbn [bind]; [|done..].
  apply apply_fee_accumulate with (before := before) in Ea as [-> Hsame'];
    [|done..].
  cbn [bind fst snd]. cbv zeta.
  destruct (is_successful r); simpl; [|by intros [= <- <- <-]].
  destruct (is_final r); [by intros [= <- <- <-]|].
  destruct (apply_fee_while fuel fee _ (Basket.set_total_test _ b) _)
    as [[[tr b2] a2]| |] eqn:Eloop; cbn [bind]; [|done..].
  cbn [fst snd]. intros [= <- <- <-].
  apply IH in Eloop as [Eloop Hsame'']; [|exact Hsame'].
  rewrite accumulate_set_total_test in Eloop.
  change (Basket.total_test (accumulate before b))
    with (Basket.total_test b).
  by rewrite Eloop.
Qed.

Lemma apply_fees_for_accumulate (fees : list ConditionalFee.t)
    (before basket basket' : Basket.t)
    (applications applications' : FeeApplications) :
  conditions_ignore_annotations → Forall builtin_fee fees →
  same_lines before basket →
  apply_fees_for fees basket applications = Ok (basket', applications') →
  apply_fees_for fees (accumulate before basket) applications
    = Ok (accumulate before basket', applications').
Proof.
  intros Hcond Hbuiltin. revert basket applications.
  induction Hbuiltin as [|fee rest Hfee Hrest IH];
    intros basket applications Hsame; cbn [apply_fees_for].
  - by intros [= <- <-].
  - destruct (apply_fee_while _ fee _ basket _) as [[[tr b] a]| |] eqn:Eloop;
      cbn [bind]; [|done..].
    apply apply_fee_while_accumulate with (before := before) in Eloop
      as [-> Hsame']; [|done..].
    cbn [bind fst snd]. by apply IH.
Qed.

Lemma accumulate_clear (basket : Basket.t) :
  accumulate basket (clear_annotations basket) = basket.
Proof.
  destruct basket as [owner lines tt tfa fs apps].
  unfold accumulate, clear_annotations, Basket.set_all_lines. simpl. f_equal.
  induction lines as [|l lines IH]; [done|].
  rewrite fmap_cons. cbn [zip_with]. rewrite IH. f_equal. by destruct l.
Qed.

Lemma same_lines_clear (basket : Basket.t) :
  same_lines basket (clear_annotations basket).
Proof.
  unfold same_lines, clear_annotations. simpl.
  by rewrite <-list_fmap_compose.
Qed.

Lemma annotations_accumulate (before basket : Basket.t) :
  annotations (accumulate before basket)
  = zip_with (λ x y, (accumulate_amount x.1 y.1, accumulate_quantity x.2 y.2))
      (annotations before) (annotations basket).
Proof.
  unfold annotations, accumulate. simpl.
  generalize (Basket.all_lines before) as l0.
  generalize (Basket.all_lines basket) as l.
  intros l l0. revert l.
  induction l0 as [|x l0 IH]; intros [|y l]; try done.
  rewrite !fmap_cons. cbn [zip_with]. rewrite fmap_cons. f_equal. apply IH.
Qed.

(** C9 (amended). A pass does not reset the annotations of the lines:
    [apply_fee_to_line] creates an absent annotation at zero and adds to one
    that exists. For rules without a custom fee class and conditions that do
    not read the annotations, a pass leaves on every line the annotations it
    carried before with the applications of the pass added (what the pass
    leaves on the basket taken without annotations). So the annotations
    after a pass reflect that pass alone on a basket that carried none, and
    evaluating the same basket twice accumulates. *)
Theorem apply_fees_accumulates (basket fresh : Basket.t)
    (fees : list ConditionalFee.t) :
  conditions_ignore_annotations → Forall builtin_fee fees →
  apply_fees (clear_annotations basket) fees = Ok fresh →
  apply_fees basket fees = Ok (accumulate basket fresh)
  ∧ annotations (accumulate basket fresh)
    = zip_with (λ x y, (accumulate_amount x.1 y.1,
                        accumulate_quantity x.2 y.2))
        (annotations basket) (annotations fresh).
Proof.
  intros Hcond Hbuiltin. unfold apply_fees.
  destruct (apply_fees_for fees (clear_annotations basket) ∅)
    as [[b a]| |] eqn:Epass; cbn [bind]; [|done..].
  cbn [fst snd]. intros [= <-].
  apply apply_fees_for_accumulate with (before := basket) in Epass;
    [|done|done|apply same_lines_clear].
  rewrite accumulate_clear in Epass. rewrite Epass. cbn [bind fst snd].
  split; [done|]. apply annotations_accumulate.
Qed.

End Accumulation.

(** * The engine on the concrete shop *)

Lemma filter_fmap_clear (p : Line.t → bool) (ls : list Line.t) :
  (∀ l, p (clear_line l) = p l) →
  List.filter p (clear_line <$> ls) = clear_line <$> List.filter p ls.
Proof.
  intros Hp. induction ls as [|l ls IH]; [done|].
  rewrite fmap_cons. cbn [List.filter]. rewrite Hp.
  destruct (p l); rewrite IH; done.
Qed.

(** The conditions modelled from the spec read the product, the quantity
    and the price of the lines only. *)
Lemma spec_is_satisfied_clear (contains : RangeId → ProductId → bool)
    (cls : ConditionClass) (condition : Condition.t)
    (offer : ConditionalFee.t) (basket : Basket.t) :
  spec_is_satisfied contains cls condition offer basket
  = spec_is_satisfied contains cls condition offer (clear_annotations basket).
Proof.
  unfold spec_is_satisfied, clear_annotations. simpl.
  rewrite filter_fmap_clear by done.
  rewrite <-!list_fmap_compose, length_fmap. done.
Qed.

Lemma shop_conditions_ignore_annotations :
  @conditions_ignore_annotations shop.
Proof. intros cls condition offer basket. apply spec_is_satisfied_clear. Qed.

(** C2 on a rule that could be applied again and again but for its basket
    limit of 1. *)
Lemma apply_fee_while_bounded_witness :
  ∃ trace basket' applications',
    @apply_fee_while shop loop_fuel (custom_rule (Some 1)) 0 two_lines ∅
      = Ok (trace, basket', applications')
    ∧ (length trace ≤ 1)%nat.
Proof.
  destruct (@apply_fee_while shop loop_fuel (custom_rule (Some 1)) 0
              two_lines ∅) as [[[trace basket'] applications']| |] eqn:Eloop;
    [|vm_compute in Eloop; discriminate..].
  exists trace, basket', applications'. split; [done|].
  destruct (@apply_fee_while_bounded shop (custom_rule (Some 1)) two_lines ∅)
    as [_ Hok].
  destruct (Hok _ _ _ Eloop) as (_ & Hone & _).
  apply Hone. reflexivity.
Defined.

(** A custom fee whose results are successful and not final is applied as
    often as the limits allow: three times under a basket limit of 3, ten
    thousand times without any limit. *)
Example custom_fee_repeated :
  loop_counts (@apply_fee_while shop loop_fuel (custom_rule (Some 3)) 0
                 two_lines ∅) 2 = Some (3, Some 3)
  ∧ loop_counts (@apply_fee_while shop loop_fuel (custom_rule None) 0
                   two_lines ∅) 2 = Some (10000, Some 10000).
Proof. split; compute_done. Qed.

(** C10 on a rule with an Absolute fee and no limit at all. *)
Lemma absolute_fee_recorded_once_witness :
  ∃ basket' applications,
    @apply_fees shop two_lines [unlimited_absolute_rule] = Ok basket'
    ∧ Basket.fee_applications basket' = Some applications
    ∧ ∀ a, applications !! 1 = Some a → Application.freq a = 1.
Proof.
  destruct (@apply_fees shop two_lines [unlimited_absolute_rule])
    as [basket'| |] eqn:Epass; [|vm_compute in Epass; discriminate..].
  destruct (@absolute_fee_recorded_once shop two_lines basket'
              [unlimited_absolute_rule] unlimited_absolute_rule)
    as (_ & _ & Honce).
  destruct Honce as (applications & Happs & Hfreq);
    [reflexivity | by repeat constructor; set_solver | by left | done |].
  exists basket', applications. done.
Defined.

Example absolute_fee_recorded :
  loop_counts (@apply_fee_while shop loop_fuel unlimited_absolute_rule 0
                 two_lines ∅) 1 = Some (1, Some 1).
Proof. compute_done. Qed.

(** C9 (counterexample). A second pass over the basket left by a first one
    adds its fees to the annotations of the first: 6.25 and 3.75 on 5 and 3
    units after one pass, 12.50 and 7.50 on 10 and 6 units after two. *)
Lemma second_pass_adds_again :
  ∃ once twice,
    @apply_fees shop two_lines [unlimited_absolute_rule] = Ok once
    ∧ @apply_fees shop once [unlimited_absolute_rule] = Ok twice
    ∧ annotations once = [(Some (D 625), Some 5); (Some (D 375), Some 3)]
    ∧ annotations twice = [(Some (D 1250), Some 10); (Some (D 750), Some 6)]
    ∧ annotations twice ≠ annotations once.
Proof.
  eexists _, _.
  split; [vm_compute; reflexivity|].
  split; [vm_compute; reflexivity|].
  repeat split; compute_done.
Qed.

(** C9 on the basket left by a first pass. *)
Lemma apply_fees_accumulates_witness :
  ∃ fresh,
    @apply_fees shop annotated_two_lines [unlimited_absolute_rule]
      = Ok (accumulate annotated_two_lines fresh)
    ∧ annotations (accumulate annotated_two_lines fresh)
      = zip_with (λ x y, (accumulate_amount x.1 y.1,
                          accumulate_quantity x.2 y.2))
          (annotations annotated_two_lines) (annotations fresh).
Proof.
  eexists.
  apply (@apply_fees_accumulates shop annotated_two_lines _
           [unlimited_absolute_rule]).
  - exact shop_conditions_ignore_annotations.
  - repeat constructor.
  - vm_compute. reflexivity.
Defined.

(** * Usage, status and availability together *)

Section RuleLifeCycle.
Import ConditionalFee.

Lemma candidate_limit_nonneg (self : t) (c : Z) :
  positive_integer_field (max_basket_applications self) →
  candidate_limit self c → 0 ≤ c.
Proof.
  intros Hb [-> | [(b & Hb' & _ & ->) | (g & _ & _ & ->)]]; [lia | | lia].
  by apply Hb.
Qed.

Lemma get_max_applications_nonneg (self : t) (user : option User) (m : Z) :
  positive_integer_field (max_basket_applications self) →
  get_max_applications self user = Ok m → 0 ≤ m.
Proof.
  intros Hb Hm.
  destruct (budget_exhausted_dec self) as [He | He].
  { rewrite (get_max_applications_exhausted _ _ He) in Hm.
    injection Hm as <-. lia. }
  destruct (user_limit_consulted_dec self user) as [Hu | Hu].
  { by rewrite (get_max_applications_raises _ _ He Hu) in Hm. }
  destruct (get_max_applications_least self user He Hu) as (m' & Hm' & Hc & _).
  rewrite Hm in Hm'. injection Hm' as <-.
  by eapply candidate_limit_nonneg.
Qed.

Lemma record_usage_saves (self : t) (freq : Z) (amount : Decimal) :
  ∃ recorded, record_usage self freq amount = Ok recorded
    ∧ ∀ user, get_max_applications recorded user
      = get_max_applications
          (set_usage (total_fee self + amount)%Qc (num_applications self + freq)
                     (num_orders self + 1) self) user.
Proof.
  unfold record_usage.
  set (u := set_usage _ _ _ self).
  destruct (save_spec u) as (m & _ & ->).
  eexists. split; [reflexivity|].
  destruct (is_suspended u), (bool_decide (m = 0)); done.
Qed.

(** X1. Recording usage never raises the allowance: after
    [record_usage] with a frequency and an amount that are not negative,
    [get_max_applications] returns, for any user for whom it returned
    before, a number between 0 and what it returned before. *)
Theorem record_usage_lowers_allowance (self : t) (freq : Z)
    (amount : Decimal) (user : option User) (m : Z) :
  0 ≤ freq → (0 ≤ amount)%Qc →
  positive_integer_field (max_basket_applications self) →
  get_max_applications self user = Ok m →
  ∃ recorded m',
    record_usage self freq amount = Ok recorded
    ∧ get_max_applications recorded user = Ok m'
    ∧ 0 ≤ m' ≤ m.
Proof.
  intros Hfreq Hamount Hb Hm.
  destruct (record_usage_saves self freq amount) as (recorded & Hr & Hg).
  exists recorded. rewrite (Hg user).
  set (u := set_usage _ _ _ self).
  assert (Hub : positive_integer_field (max_basket_applications u)) by done.
  pose proof (get_max_applications_nonneg _ _ _ Hb Hm) as Hm0.
  destruct (budget_exhausted_dec self) as [He | He].
  { assert (budget_exhausted u) as Heu.
    { destruct He as (x & Hx & Hx0 & Hle). exists x. split; [done|].
      split; [done|]. cbn.
      apply Qcle_trans with (total_fee self); [done|].
      rewrite <- (Qcplus_0_r (total_fee self)) at 1.
      by apply Qcplus_le_compat; [apply Qcle_refl|]. }
    rewrite (get_max_applications_exhausted _ _ Heu).
    exists 0. split; [by rewrite Hr|]. split; [done|lia]. }
  destruct (user_limit_consulted_dec self user) as [Hu | Hu].
  { by rewrite (get_max_applications_raises _ _ He Hu) in Hm. }
  destruct (budget_exhausted_dec u) as [Heu | Heu].
  { rewrite (get_max_applications_exhausted _ _ Heu).
    exists 0. split; [done|]. split; [done|lia]. }
  destruct (get_max_applications_least self user He Hu)
    as (m0 & Hm0' & Hc & _).
  rewrite Hm in Hm0'. injection Hm0' as <-.
  destruct (get_max_applications_least u user Heu Hu)
    as (m' & Hm' & Hc' & Hleast).
  exists m'. split; [done|]. split; [done|].
  split; [by eapply candidate_limit_nonneg|].
  destruct Hc as [-> | [(b & Hb' & Hb0 & ->) | (g & Hg' & Hg0 & ->)]].
  - apply Hleast. by left.
  - apply Hleast. right. left. by exists b.
  - etrans; [apply (Hleast (Z.max 0 (g - (num_applications self + freq))))|lia].
    right. right. by exists g.
Qed.

(** The allowance of a rule limited to 5 uses and used once drops from
    2 (the basket limit) to 1 when three more uses are recorded. *)
Lemma record_usage_lowers_allowance_witness :
  ∃ recorded m',
    record_usage limited_rule 3 (D 3000) = Ok recorded
    ∧ get_max_applications recorded None = Ok m'
    ∧ 0 ≤ m' ≤ 2.
Proof.
  apply (record_usage_lowers_allowance limited_rule 3 (D 3000) None 2).
  - lia.
  - by vm_compute.
  - intros n Hn. injection Hn as <-. lia.
  - reflexivity.
Defined.

Lemma in_window_dec (self : t) (d : datetime) :
  in_window self d
  ∨ ((∃ S, start_datetime self = Some S ∧ d < S)
     ∨ (∃ T, end_datetime self = Some T ∧ T < d)).
Proof.
  unfold in_window.
  destruct (start_datetime self) as [S|], (end_datetime self) as [T|].
  - destruct (decide (d < S)); [right; left; by exists S|].
    destruct (decide (T < d)); [right; right; by exists T|].
    left. split; intros x [= <-]; lia.
  - destruct (decide (d < S)); [right; left; by exists S|].
    left. split; [intros x [= <-]; lia|done].
  - destruct (decide (T < d)); [right; right; by exists T|].
    left. split; [done|intros x [= <-]; lia].
  - by left.
Qed.

(** X2. After [save], a rule that is not suspended is available to the
    anonymous user at an instant of its window exactly when its status is
    Open; outside the window it is not available whatever the status. *)
Theorem save_status_is_availability (now : datetime) (self : t) :
  status self ≠ SUSPENDED →
  positive_integer_field (max_basket_applications self) →
  ∃ stored,
    save self = Ok stored
    ∧ (∀ d, in_window stored d →
         is_available now stored None (Some d)
         = Ok (bool_decide (status stored = OPEN)))
    ∧ (∀ d, ¬ in_window stored d →
         is_available now stored None (Some d) = Ok false).
Proof.
  intros Hs Hb.
  destruct (save_spec self) as (m & Hm & Hsave).
  apply is_suspended_false in Hs as Hs'. rewrite Hs' in Hsave.
  pose proof (get_max_applications_nonneg _ _ _ Hb Hm) as Hm0.
  destruct status_distinct as (Hco & Hcs & Hos).
  eexists. split; [exact Hsave|]. split.
  - intros d [Hstart Hend].
    rewrite (is_available_open now _ None d m).
    + f_equal. case_bool_decide as Hz; cbn.
      * rewrite bool_decide_eq_false_2 by lia.
        by rewrite bool_decide_eq_false_2.
      * rewrite bool_decide_eq_true_2 by lia.
        by rewrite bool_decide_eq_true_2.
    + by destruct (bool_decide (m = 0)).
    + done.
    + done.
    + by destruct (bool_decide (m = 0)).
  - intros d Hw. apply is_available_closed.
    by destruct (in_window_dec
                   (if bool_decide (m = 0) then set_status CONSUMED self
                    else set_status OPEN self) d).
Qed.

(** A rule limited to 5 uses and used 5 times is stored as Consumed and is
    then unavailable inside its window. *)
Lemma save_status_is_availability_witness :
  ∃ stored,
    save (with_window (Some 100) (Some 200) used_up_rule) = Ok stored
    ∧ (∀ d, in_window stored d →
         is_available 0 stored None (Some d)
         = Ok (bool_decide (status stored = OPEN)))
    ∧ (∀ d, ¬ in_window stored d →
         is_available 0 stored None (Some d) = Ok false).
Proof.
  apply (save_status_is_availability 0
           (with_window (Some 100) (Some 200) used_up_rule)).
  - by vm_compute.
  - intros n Hn. by vm_compute in Hn.
Defined.

End RuleLifeCycle.

Section RuleWindow.
Import ConditionalFee.

Lemma is_available_now (now : datetime) (self : t) (user : option User) :
  is_available now self user None = is_available now self user (Some now).
Proof. reflexivity. Qed.

Lemma is_available_suspended (now : datetime) (self : t)
    (user : option User) (test_date : option datetime) :
  status self = SUSPENDED → is_available now self user test_date = Ok false.
Proof.
  intros Hs. unfold is_available.
  by rewrite (proj2 (is_suspended_true self) Hs).
Qed.

Lemma clean_invalid (self : t) :
  clean self ≠ Valid ↔
  ∃ S T, start_datetime self = Some S ∧ end_datetime self = Some T ∧ T < S.
Proof.
  unfold clean.
  destruct (start_datetime self) as [S|], (end_datetime self) as [T|];
    try (split; [done | by intros (? & ? & ? & ? & ?)]).
  case_bool_decide as Hlt.
  - split; [by exists S, T | done].
  - split; [done|]. intros (? & ? & [= <-] & [= <-] & ?). lia.
Qed.

(** X3. A rule that [clean] rejects (both dates set, the start after the
    end) is never available, to any user at any test date; a rule that
    [clean] accepts, that is not suspended and has an allowance left, is
    available at some instant. *)
Theorem clean_rejects_empty_window (now : datetime) (self : t) :
  (clean self ≠ Valid →
   ∀ user test_date, is_available now self user test_date = Ok false)
  ∧ (clean self = Valid →
     status self ≠ SUSPENDED →
     ∀ user m, get_max_applications self user = Ok m → 0 < m →
     ∃ d, is_available now self user (Some d) = Ok true).
Proof.
  split.
  - intros (S & T & HS & HT & Hlt)%clean_invalid user test_date.
    assert (∀ d, is_available now self user (Some d) = Ok false) as Hd.
    { intros d. apply is_available_closed.
      destruct (decide (d < S)); [left; by exists S|].
      right. exists T. split; [done|lia]. }
    destruct test_date as [d|]; [apply Hd|].
    rewrite is_available_now. apply Hd.
  - intros Hclean Hs user m Hm Hpos.
    assert (∃ d, in_window self d) as [d [Hstart Hend]].
    { unfold in_window, clean in *.
      destruct (start_datetime self) as [S|], (end_datetime self) as [T|].
      - case_bool_decide; [done|].
        exists S. split; intros x [= <-]; lia.
      - exists S. split; [intros x [= <-]; lia|done].
      - exists T. split; [done|intros x [= <-]; lia].
      - by exists 0. }
    exists d. rewrite (is_available_open now self user d m) by done.
    by rewrite bool_decide_eq_true_2.
Qed.

(** A window from 200 back to 100 is rejected and never open; the window
    from 100 to 200 is accepted and open at some instant. *)
Lemma clean_rejects_empty_window_witness :
  is_available 150 (with_window (Some 200) (Some 100) limited_rule) None None
  = Ok false
  ∧ ∃ d, is_available 150 windowed_rule None (Some d) = Ok true.
Proof.
  split.
  - apply (clean_rejects_empty_window 150
             (with_window (Some 200) (Some 100) limited_rule)).
    by vm_compute.
  - apply (proj2 (clean_rejects_empty_window 150 windowed_rule))
      with (m := 2).
    + reflexivity.
    + by vm_compute.
    + reflexivity.
    + lia.
Defined.

Lemma restrictions_flags (now : datetime) (self : t) :
  Restriction.is_satisfied <$> availability_restrictions now self
  = (if is_suspended self then [false] else [])
    ++ (if truthy_int (max_global_applications self)
        then [bool_decide (0 < default 0 (max_global_applications self)
                               - num_applications self)]
        else [])
    ++ (if truthy_int (max_user_applications self) then [true] else [])
    ++ (if truthy_int (max_basket_applications self) then [true] else [])
    ++ match start_datetime self, end_datetime self with
       | Some s, Some e => [bool_decide (s ≤ now) && bool_decide (now ≤ e)]
       | Some s, None => [bool_decide (s ≤ now)]
       | None, Some e => [bool_decide (now ≤ e)]
       | None, None => []
       end
    ++ (if truthy_decimal (max_fee self)
        then [bool_decide (total_fee self < default 0%Qc (max_fee self))%Qc]
        else []).
Proof.
  unfold availability_restrictions.
  destruct (is_suspended self), (truthy_int (max_global_applications self)),
    (truthy_int (max_user_applications self)),
    (truthy_int (max_basket_applications self)),
    (start_datetime self), (end_datetime self),
    (truthy_decimal (max_fee self)); reflexivity.
Qed.

Lemma Forall_true_app (l1 l2 : list bool) :
  Forall (λ b, b = true) (l1 ++ l2)
  ↔ Forall (λ b, b = true) l1 ∧ Forall (λ b, b = true) l2.
Proof. apply Forall_app. Qed.

Lemma Forall_true_if (c b : bool) :
  Forall (λ b, b = true) (if c then [b] else []) ↔ (c = true → b = true).
Proof.
  destruct c.
  - rewrite Forall_singleton. naive_solver.
  - split; [done|]. intros _. constructor.
Qed.

Lemma window_flags (now : datetime) (self : t) :
  Forall (λ b, b = true)
    match start_datetime self, end_datetime self with
    | Some s, Some e => [bool_decide (s ≤ now) && bool_decide (now ≤ e)]
    | Some s, None => [bool_decide (s ≤ now)]
    | None, Some e => [bool_decide (now ≤ e)]
    | None, None => []
    end
  ↔ in_window self now.
Proof.
  unfold in_window.
  destruct (start_datetime self) as [S|], (end_datetime self) as [T|];
    rewrite ?Forall_singleton, ?andb_true_iff, ?bool_decide_eq_true.
  - split; [intros [? ?]; split; intros x [= <-]; lia|].
    intros [H1 H2]. split; [by apply H1|by apply H2].
  - split; [intros ?; split; [intros x [= <-]; lia|done]|].
    intros [H1 _]. by apply H1.
  - split; [intros ?; split; [done|intros x [= <-]; lia]|].
    intros [_ H2]. by apply H2.
  - split; [done|]. intros _. constructor.
Qed.

Lemma allowance_left (self : t) (m : Z) :
  positive_integer_field (max_basket_applications self) →
  get_max_applications self None = Ok m →
  0 < m ↔
  (truthy_int (max_global_applications self) = true →
   0 < default 0 (max_global_applications self) - num_applications self)
  ∧ (truthy_decimal (max_fee self) = true →
     (total_fee self < default 0%Qc (max_fee self))%Qc).
Proof.
  intros Hb Hm.
  destruct (budget_exhausted_dec self) as [He | He].
  { rewrite (get_max_applications_exhausted _ _ He) in Hm.
    injection Hm as <-. split; [lia|]. intros [_ Hfee].
    destruct He as (x & Hx & Hx0 & Hle).
    rewrite Hx in Hfee. cbn in Hfee.
    rewrite bool_decide_eq_true_2 in Hfee by done.
    specialize (Hfee eq_refl). by apply Qclt_not_le in Hfee. }
  assert (¬ user_limit_consulted self None) as Hu.
  { intros [_ [u Hu]]. done. }
  destruct (get_max_applications_least self None He Hu)
    as (m' & Hm' & Hc & Hleast).
  rewrite Hm in Hm'. injection Hm' as <-.
  assert (truthy_decimal (max_fee self) = true →
          (total_fee self < default 0%Qc (max_fee self))%Qc) as Hfee.
  { intros Ht. apply Qcnot_le_lt. intros Hle. apply He.
    apply budget_exhausted_spec. rewrite Ht. cbn.
    by apply bool_decide_eq_true_2. }
  split.
  - intros Hpos. split; [|done].
    intros (g & Hg & Hg0)%truthy_int_spec. rewrite Hg. cbn.
    assert (m ≤ Z.max 0 (g - num_applications self)); [|lia].
    apply Hleast. right. right. by exists g.
  - intros [Hglobal _].
    destruct Hc as [-> | [(b & Hb' & Hb0 & ->) | (g & Hg & Hg0 & ->)]].
    + lia.
    + specialize (Hb b Hb'). lia.
    + assert (truthy_int (max_global_applications self) = true) as Ht.
      { apply truthy_int_spec. by exists g. }
      specialize (Hglobal Ht). rewrite Hg in Hglobal. cbn in Hglobal. lia.
Qed.

(** X4. [availability_restrictions] and [is_available] agree for the
    anonymous user: every restriction listed is flagged as satisfied
    exactly when the rule is available now. *)
Theorem availability_restrictions_agree (now : datetime) (self : t) :
  positive_integer_field (max_basket_applications self) →
  Forall (λ r, Restriction.is_satisfied r = true)
         (availability_restrictions now self)
  ↔ is_available now self None None = Ok true.
Proof.
  intros Hb.
  trans (Forall (λ b, b = true)
           (Restriction.is_satisfied <$> availability_restrictions now self));
    [by rewrite Forall_fmap|].
  rewrite restrictions_flags, !Forall_true_app, !Forall_true_if, window_flags.
  rewrite is_available_now.
  destruct (get_max_applications_no_user self) as [m Hm].
  destruct (decide (status self = SUSPENDED)) as [Hs | Hs].
  { rewrite (is_available_suspended _ _ _ _ Hs).
    apply is_suspended_true in Hs. rewrite Hs.
    split; [|done]. intros [Hfalse _]. by specialize (Hfalse eq_refl). }
  apply is_suspended_false in Hs as Hs'. rewrite Hs'.
  destruct (in_window_dec self now) as [Hw | Hw].
  - destruct Hw as [Hstart Hend].
    rewrite (is_available_open now self None now m Hs Hstart Hend Hm).
    split.
    + intros (_ & Hglobal & _ & _ & _ & Hfee). f_equal.
      apply bool_decide_eq_true_2. apply (allowance_left self m Hb Hm).
      split; intros Ht.
      * specialize (Hglobal Ht). by apply bool_decide_eq_true in Hglobal.
      * specialize (Hfee Ht). by apply bool_decide_eq_true in Hfee.
    + intros [= Hpos%bool_decide_eq_true].
      apply (allowance_left self m Hb Hm) in Hpos as [Hglobal Hfee].
      split; [done|]. split.
      { intros Ht. apply bool_decide_eq_true_2. by apply Hglobal. }
      split; [done|]. split; [done|]. split; [done|].
      intros Ht. apply bool_decide_eq_true_2. by apply Hfee.
  - rewrite (is_available_closed now self None now Hw).
    split; [|done]. intros (_ & _ & _ & _ & [Hstart Hend] & _).
    destruct Hw as [(S & HS & ?) | (T & HT & ?)].
    + specialize (Hstart S HS). lia.
    + specialize (Hend T HT). lia.
Qed.

(** The stored rule (5 uses, one made; budget 50.00, 10.00 charged; window
    100 to 200) lists only satisfied restrictions at instant 150. *)
Lemma availability_restrictions_agree_witness :
  Forall (λ r, Restriction.is_satisfied r = true)
         (availability_restrictions 150 stored_rule)
  ↔ is_available 150 stored_rule None None = Ok true.
Proof.
  apply (availability_restrictions_agree 150 stored_rule).
  intros n Hn. vm_compute in Hn. injection Hn as <-. lia.
Defined.

Lemma saved_open_allowance (self : t) :
  stored_by_save self → status self = OPEN →
  positive_integer_field (max_basket_applications self) →
  ∃ m, get_max_applications self None = Ok m ∧ 0 < m.
Proof.
  intros Hsaved Hopen Hb.
  destruct (save_spec self) as (m & Hm & Hsave).
  destruct status_distinct as (Hco & Hcs & Hos).
  exists m. split; [done|].
  pose proof (get_max_applications_nonneg _ _ _ Hb Hm) as Hm0.
  assert (m ≠ 0); [|lia]. intros ->.
  unfold stored_by_save in Hsaved. rewrite Hsaved in Hsave.
  rewrite (proj2 (is_suspended_false self)) in Hsave
    by (rewrite Hopen; done).
  injection Hsave as Hsave.
  apply (f_equal status) in Hsave. cbn in Hsave. congruence.
Qed.

Lemma site_fee_query_in_window (cutoff : datetime) (self : t) :
  site_fee_query cutoff self = true →
  status self = OPEN ∧ offer_type self = SITE ∧ in_window self cutoff.
Proof.
  unfold site_fee_query, in_window.
  rewrite !andb_true_iff, orb_true_iff, !andb_true_iff, !bool_decide_eq_true.
  intros [[Hw Htype] Hstatus]. split; [done|]. split; [done|].
  destruct (start_datetime self) as [S|], (end_datetime self) as [T|];
    try (destruct Hw as [[? ?] | [? ?]]; done).
  - destruct Hw as [[HS HT] | [? ?]]; [|done].
    apply bool_decide_eq_true in HS, HT.
    split; intros x [= <-]; lia.
  - destruct Hw as [[HS _] | [? ?]]; [|done].
    apply bool_decide_eq_true in HS.
    split; [intros x [= <-]; lia|done].
Qed.

(** X5. The two queries for rules in force. Every Site rule that
    [ActiveFeeManager] selects is selected by the query of
    [get_site_fees]; a rule this query selects is Open, of type Site and
    its window holds the cutoff; if the rule is stored as [save] leaves it,
    it is available to the anonymous user at the cutoff; a rule with an end
    date but no start date is selected by neither query. *)
Theorem site_fee_query_selects_available (now cutoff : datetime) (self : t) :
  (active_fee_query cutoff self = true → offer_type self = SITE →
   site_fee_query cutoff self = true)
  ∧ (site_fee_query cutoff self = true →
     status self = OPEN ∧ offer_type self = SITE ∧ in_window self cutoff)
  ∧ (site_fee_query cutoff self = true → stored_by_save self →
     positive_integer_field (max_basket_applications self) →
     is_available now self None (Some cutoff) = Ok true)
  ∧ (start_datetime self = None → is_Some (end_datetime self) →
     site_fee_query cutoff self = false
     ∧ active_fee_query cutoff self = false).
Proof.
  split; [|split; [|split]].
  - unfold active_fee_query, site_fee_query.
    rewrite !andb_true_iff, !bool_decide_eq_true.
    intros [[Hend Hstart] Hstatus] Htype.
    split; [split|]; [|done|done].
    apply orb_true_iff. left.
    destruct (start_datetime self); [|done]. by rewrite Hstart.
  - apply site_fee_query_in_window.
  - intros (Hopen & _ & Hstart & Hend)%site_fee_query_in_window Hsaved Hb.
    destruct (saved_open_allowance self Hsaved Hopen Hb) as (m & Hm & Hpos).
    destruct status_distinct as (Hco & Hcs & Hos).
    rewrite (is_available_open now self None cutoff m);
      [by rewrite bool_decide_eq_true_2 | congruence | done | done | done].
  - intros Hstart [T HT]. split.
    + by eapply site_fee_query_without_start.
    + unfold active_fee_query. rewrite Hstart.
      by rewrite andb_false_r.
Qed.

(** The stored rule is selected by both queries at instant 150 and is
    available then. *)
Lemma site_fee_query_selects_available_witness :
  site_fee_query 150 stored_rule = true
  ∧ is_available 0 stored_rule None (Some 150) = Ok true.
Proof.
  destruct (site_fee_query_selects_available 0 150 stored_rule)
    as (Hactive & _ & Havailable & _).
  split.
  - apply Hactive; reflexivity.
  - apply Havailable.
    + reflexivity.
    + reflexivity.
    + intros n Hn. vm_compute in Hn. injection Hn as <-. lia.
Defined.

Lemma set_status_twice (s1 s2 : string) (self : t) :
  set_status s1 (set_status s2 self) = set_status s1 self.
Proof. reflexivity. Qed.

(** X6. Suspending a rule and lifting the suspension is a round trip. For
    a rule stored as [save] leaves it and not suspended, [suspend] returns a
    rule that differs in its status only and that is available to nobody at
    any time, and [unsuspend] on that rule returns the stored rule. *)
Theorem suspend_unsuspend_round_trip (now : datetime) (self : t) :
  stored_by_save self → status self ≠ SUSPENDED →
  ∃ suspended,
    suspend self = Ok suspended
    ∧ suspended = set_status SUSPENDED self
    ∧ (∀ user test_date,
         is_available now suspended user test_date = Ok false)
    ∧ unsuspend suspended = Ok self.
Proof.
  intros Hstored Hs. unfold suspend.
  rewrite (save_suspended (set_status SUSPENDED self)) by done.
  eexists. split; [reflexivity|]. split; [reflexivity|]. split.
  - intros user test_date. by apply is_available_suspended.
  - unfold unsuspend. rewrite set_status_twice.
    destruct (save_spec (set_status OPEN self)) as (m & Hm & ->).
    destruct (save_spec self) as (m' & Hm' & Hsave).
    change (get_max_applications (set_status OPEN self) None)
      with (get_max_applications self None) in Hm.
    rewrite Hm in Hm'. injection Hm' as <-.
    unfold stored_by_save in Hstored. rewrite Hstored in Hsave.
    rewrite (proj2 (is_suspended_false self) Hs) in Hsave.
    destruct status_distinct as (_ & _ & Hos).
    rewrite (proj2 (is_suspended_false (set_status OPEN self))) by done.
    rewrite !set_status_twice. by symmetry.
Qed.

(** The stored rule comes back from a suspension as it was. *)
Lemma suspend_unsuspend_round_trip_witness :
  ∃ suspended,
    suspend stored_rule = Ok suspended
    ∧ suspended = set_status SUSPENDED stored_rule
    ∧ (∀ user test_date,
         is_available 150 suspended user test_date = Ok false)
    ∧ unsuspend suspended = Ok stored_rule.
Proof.
  apply (suspend_unsuspend_round_trip 150 stored_rule).
  - reflexivity.
  - by vm_compute.
Defined.

End RuleWindow.

(** * What one application does to the basket *)

Section Effects.
Context `{Environment}.

Lemma selection_sorted (range : RangeId) (basket : Basket.t) :
  StronglySorted by_price_then_position
    (sorted (omap (select_line range) (enumerate (Basket.all_lines basket)))).
Proof.
  apply sorted_sorted.
  eapply omap_sorted; [|apply enumerate_sorted].
  intros x y x' y' Hxy Hx Hy. unfold select_line in Hx, Hy.
  repeat case_match; simplify_eq. done.
Qed.

(** A call of [AbsoluteFee.apply] that returns either leaves the basket
    alone and returns [ZERO_FEE], or has covered the first [k] selected
    lines and assigned them fees that add up to the amount. *)
Lemma AbsoluteFee_apply_effect (self : Fee.t) (basket basket' : Basket.t)
    (cls : ConditionClass) (condition : Condition.t) (offer : ConditionalFee.t)
    (fee_amount max_total_fee : option Decimal) (r : ApplicationResult) :
  AbsoluteFee_apply self basket cls condition offer fee_amount max_total_fee
    = Ok (r, basket') →
  (r = ZERO_FEE ∧ basket' = basket)
  ∨ ∃ a0 range (k : nat) fees,
      let line_tuples :=
        sorted (omap (select_line range)
                  (enumerate (Basket.all_lines basket))) in
      configured_amount self fee_amount = Some a0
      ∧ clamp max_total_fee a0 ≠ 0%Qc
      ∧ get_applicable_lines self offer basket (Condition.range condition)
        = Ok line_tuples
      ∧ cover_lines cls (int (Condition.value condition)) line_tuples 0 []
        = (total_affected cls (take k line_tuples),
           covered_line cls <$> take k line_tuples)
      ∧ (0 < k ≤ length line_tuples)%nat
      ∧ r = BasketFee (clamp max_total_fee a0)
      ∧ basket'
        = apply_fee_to_basket
            (assign basket
               (assignments (covered_line cls <$> take k line_tuples) fees))
            self (clamp max_total_fee a0) 1
      ∧ length fees = k
      ∧ sum_decimal fees = clamp max_total_fee a0.
Proof.
  intros Happly.
  destruct (configured_amount self fee_amount) as [a0|] eqn:Ha.
  - pose proof Happly as Happly'.
    rewrite (AbsoluteFee_apply_amount _ _ _ _ _ _ _ a0) in Happly by done.
    cbv zeta in Happly.
    case_bool_decide as Hz; [left; by injection Happly as <- <-|].
    destruct (get_applicable_lines self offer basket _) as [lt| |] eqn:Elt;
      cbn [bind] in Happly; [|done..].
    case_bool_decide as Hnil; [left; by injection Happly as <- <-|].
    right.
    destruct (get_applicable_lines_nonempty _ _ _ _ _ Elt Hnil) as [range Hr].
    destruct (cover_lines_prefix cls (int (Condition.value condition)) lt [])
      as (k & Hcov & Hk & Hpos & _).
    specialize (Hpos Hnil).
    change (cover_lines cls (int (Condition.value condition)) lt 0 []
            = (total_affected cls (take k lt),
               covered_line cls <$> take k lt)) in Hcov.
    destruct (AbsoluteFee_apply_sum _ _ _ _ _ _ _ _ _ _ _ Ha Hz Elt Hnil
                Happly') as (fees & -> & -> & Hlen & Hsum).
    rewrite Hcov in Hlen. cbn [snd] in Hlen.
    rewrite length_fmap, length_take in Hlen.
    exists a0, range, k, fees. cbv zeta. rewrite <- Hr.
    rewrite Hcov. cbn [snd].
    repeat (split; [done || lia|]). done.
  - left. unfold AbsoluteFee_apply in Happly.
    fold (configured_amount self fee_amount) in Happly. rewrite Ha in Happly.
    destruct max_total_fee; [done|]. cbn [bind] in Happly.
    rewrite bool_decide_eq_false_2 in Happly by done.
    destruct (get_applicable_lines self offer basket _) as [lt| |] eqn:Elt;
      cbn [bind] in Happly; [|done..].
    case_bool_decide as Hnil; [by injection Happly as <- <-|].
    cbv zeta in Happly.
    destruct (last (cover_lines _ _ lt _ _).2) as [[[p l] q]|] eqn:Elast;
      [|done].
    rewrite allocate_no_amount in Happly; [done|].
    intros Hempty. by rewrite Hempty in Elast.
Qed.

Lemma sum_alter_amount (lines : list Line.t) (i : nat) (line_fee : Decimal)
    (quantity : Z) :
  (i < length lines)%nat →
  sum_decimal ((λ l, default 0%Qc (Line._fee_amount l))
                 <$> alter (λ l, apply_fee_to_line l line_fee quantity) i lines)
  = (sum_decimal ((λ l, default 0%Qc (Line._fee_amount l)) <$> lines)
     + line_fee)%Qc.
Proof.
  revert i. induction lines as [|l lines IH]; intros i Hi; [simpl in Hi; lia|].
  destruct i as [|i].
  - change (alter _ 0%nat (l :: lines))
      with (apply_fee_to_line l line_fee quantity :: lines).
    rewrite !fmap_cons, !sum_decimal_cons. cbn. rewrite D_0. ring.
  - change (alter ?f (S i) (l :: lines)) with (l :: alter f i lines).
    rewrite !fmap_cons, !sum_decimal_cons, IH by (simpl in Hi; lia). ring.
Qed.

Lemma sum_alter_quantity (lines : list Line.t) (i : nat) (line_fee : Decimal)
    (quantity : Z) :
  (i < length lines)%nat →
  sum_Z ((λ l, default 0 (Line._fee_quantity l))
           <$> alter (λ l, apply_fee_to_line l line_fee quantity) i lines)
  = sum_Z ((λ l, default 0 (Line._fee_quantity l)) <$> lines) + quantity.
Proof.
  revert i. induction lines as [|l lines IH]; intros i Hi; [simpl in Hi; lia|].
  destruct i as [|i].
  - change (alter _ 0%nat (l :: lines))
      with (apply_fee_to_line l line_fee quantity :: lines).
    rewrite !fmap_cons. unfold sum_Z. cbn. lia.
  - change (alter ?f (S i) (l :: lines)) with (l :: alter f i lines).
    rewrite !fmap_cons. unfold sum_Z in *. cbn [foldr].
    rewrite IH by (simpl in Hi; lia). lia.
Qed.

Lemma assign_cons (basket : Basket.t) (u : assignment)
    (calls : list assignment) :
  assign basket (u :: calls)
  = assign (alter_line (λ l, apply_fee_to_line l u.1.2 u.2) u.1.1 basket)
           calls.
Proof. reflexivity. Qed.

Lemma assign_length (basket : Basket.t) (calls : list assignment) :
  length (Basket.all_lines (assign basket calls))
  = length (Basket.all_lines basket).
Proof.
  revert basket. induction calls as [|u calls IH]; intros basket; [done|].
  rewrite assign_cons, IH. cbn. by rewrite length_alter.
Qed.

(** The calls of [apply_fee_to_line] add their fees and their quantities
    to the totals of the lines. *)
Lemma assign_totals (basket : Basket.t) (calls : list assignment) :
  Forall (λ u : assignment,
            (u.1.1.1 < length (Basket.all_lines basket))%nat) calls →
  line_fee_total (assign basket calls)
  = (line_fee_total basket
     + sum_decimal ((λ u : assignment, u.1.2) <$> calls))%Qc
  ∧ line_quantity_total (assign basket calls)
    = line_quantity_total basket + sum_Z ((λ u : assignment, u.2) <$> calls).
Proof.
  revert basket. induction calls as [|u calls IH]; intros basket Hvalid.
  - split; [|unfold sum_Z; cbn; lia].
    change (line_fee_total basket = (line_fee_total basket + 0)%Qc). ring.
  - apply Forall_cons in Hvalid as [Hu Hvalid].
    rewrite assign_cons.
    destruct (IH (alter_line (λ l, apply_fee_to_line l u.1.2 u.2) u.1.1 basket))
      as [-> ->].
    { cbn. by rewrite length_alter. }
    rewrite !fmap_cons, sum_decimal_cons.
    unfold line_fee_total, line_quantity_total, alter_line.
    change (Basket.all_lines (Basket.set_all_lines ?ls basket)) with ls.
    rewrite sum_alter_amount, sum_alter_quantity by done.
    split; [ring|]. unfold sum_Z. cbn [foldr]. lia.
Qed.

Lemma assignments_calls (covered_lines : list (Decimal * LineRef * Z))
    (fees : list Decimal) :
  length fees = length covered_lines →
  (λ u : assignment, u.1.2) <$> assignments covered_lines fees = fees
  ∧ (λ u : assignment, u.2) <$> assignments covered_lines fees
    = (λ c : Decimal * LineRef * Z, c.2) <$> covered_lines
  ∧ (λ u : assignment, u.1.1.1) <$> assignments covered_lines fees
    = (λ c : Decimal * LineRef * Z, c.1.2.1) <$> covered_lines.
Proof.
  revert fees.
  induction covered_lines as [|c cov IH]; intros [|f fees] Hlen;
    try done.
  injection Hlen as Hlen. destruct (IH fees Hlen) as (IH1 & IH2 & IH3).
  unfold assignments in *. cbn. by rewrite IH1, IH2, IH3.
Qed.

Lemma covered_positions_valid (range : RangeId) (basket : Basket.t)
    (k : nat) :
  Forall (λ i, (i < length (Basket.all_lines basket))%nat)
    (covered_positions
       (take k (sorted (omap (select_line range)
                          (enumerate (Basket.all_lines basket)))))).
Proof.
  apply Forall_fmap, Forall_forall. intros t Ht.
  pose proof (elem_of_sublist _ _ _ Ht (sublist_take _ _)) as Ht'.
  apply selected_in_basket in Ht'. cbn. by eapply lookup_lt_Some.
Qed.

Lemma apply_fee_to_basket_totals (basket : Basket.t) (fee : Fee.t)
    (amount : Decimal) (quantity : Z) :
  line_fee_total (apply_fee_to_basket basket fee amount quantity)
  = line_fee_total basket
  ∧ line_quantity_total (apply_fee_to_basket basket fee amount quantity)
    = line_quantity_total basket
  ∧ basket_fee_total (apply_fee_to_basket basket fee amount quantity)
    = (basket_fee_total basket + amount)%Qc
  ∧ basket_fees (apply_fee_to_basket basket fee amount quantity)
    = basket_fees basket ++ [fee].
Proof.
  split; [done|]. split; [done|]. split; [|done].
  unfold basket_fee_total. cbn.
  destruct (Basket._total_fees_amount basket); cbn; [done|]. by rewrite D_0.
Qed.

Lemma assign_keeps (basket : Basket.t) (calls : list assignment) :
  Basket.owner (assign basket calls) = Basket.owner basket
  ∧ Basket.total_test (assign basket calls) = Basket.total_test basket
  ∧ Basket._total_fees_amount (assign basket calls)
    = Basket._total_fees_amount basket
  ∧ Basket._fees (assign basket calls) = Basket._fees basket
  ∧ Basket.fee_applications (assign basket calls)
    = Basket.fee_applications basket.
Proof.
  revert basket. induction calls as [|u calls IH]; intros basket; [done|].
  rewrite assign_cons.
  destruct (IH (alter_line (λ l, apply_fee_to_line l u.1.2 u.2) u.1.1 basket))
    as (-> & -> & -> & -> & ->).
  done.
Qed.

Lemma assign_lookup_other (basket : Basket.t) (calls : list assignment)
    (i : nat) :
  i ∉ (λ u : assignment, u.1.1.1) <$> calls →
  Basket.all_lines (assign basket calls) !! i = Basket.all_lines basket !! i.
Proof.
  revert basket. induction calls as [|u calls IH]; intros basket Hi; [done|].
  rewrite fmap_cons in Hi. apply not_elem_of_cons in Hi as [Hne Hi].
  rewrite assign_cons, IH by done. cbn.
  by rewrite list_lookup_alter_ne.
Qed.

Lemma assign_lookup (basket : Basket.t) (calls : list assignment) (j : nat)
    (u : assignment) (line : Line.t) :
  NoDup ((λ u : assignment, u.1.1.1) <$> calls) →
  calls !! j = Some u →
  Basket.all_lines basket !! u.1.1.1 = Some line →
  Basket.all_lines (assign basket calls) !! u.1.1.1
  = Some (apply_fee_to_line line u.1.2 u.2).
Proof.
  revert basket j.
  induction calls as [|u0 calls IH]; intros basket j Hnd Hj Hline; [done|].
  rewrite fmap_cons in Hnd. apply NoDup_cons in Hnd as [Hnot Hnd].
  rewrite assign_cons. destruct j as [|j].
  - injection Hj as ->. rewrite assign_lookup_other by done. cbn.
    by rewrite list_lookup_alter_eq, Hline.
  - cbn in Hj. apply (IH _ j); [done..|]. cbn.
    rewrite list_lookup_alter_ne; [done|].
    intros Heq. apply Hnot. rewrite Heq.
    apply list_elem_of_fmap. exists u. split; [done|].
    by eapply list_elem_of_lookup_2.
Qed.

Lemma selected_positions_sublist (range : RangeId) (xs : list LineRef) :
  covered_positions (omap (select_line range) xs) `sublist_of` xs.*1.
Proof.
  induction xs as [|x xs IH]; simpl; [done|].
  unfold covered_positions in *.
  destruct (select_line range x) as [t|] eqn:E; simpl.
  - apply select_line_ref in E as ->. by apply sublist_skip.
  - by apply sublist_cons.
Qed.

Lemma sorted_positions_NoDup {A} (l : list (nat * A)) :
  StronglySorted (λ x y : nat * A, (x.1 < y.1)%nat) l → NoDup l.*1.
Proof.
  induction 1 as [|x l Hl IH Hx]; simpl; [constructor|].
  apply NoDup_cons. split; [|done].
  intros (y & Hy & Hin)%list_elem_of_fmap.
  rewrite Forall_forall in Hx. specialize (Hx y Hin). lia.
Qed.

(** No line object is selected twice. *)
Lemma selected_positions_NoDup (range : RangeId) (basket : Basket.t) :
  NoDup (covered_positions
           (sorted (omap (select_line range)
                      (enumerate (Basket.all_lines basket))))).
Proof.
  unfold covered_positions. rewrite sorted_perm.
  eapply sublist_NoDup; [|apply selected_positions_sublist].
  apply sorted_positions_NoDup, enumerate_sorted.
Qed.

Lemma by_price_then_position_le (x y : Decimal * LineRef) :
  by_price_then_position x y → (x.1 ≤ y.1)%Qc.
Proof.
  intros [Hlt | [-> _]]; [by apply Qclt_le_weak | apply Qcle_refl].
Qed.

(** X7. The fee of an application falls on the cheapest selected lines.
    When [AbsoluteFee.apply] returns anything but [ZERO_FEE], it has covered
    a non-empty prefix of the selected lines, so that no covered line has a
    higher unit price than a selected line left out; every covered line
    object has received exactly one call of [apply_fee_to_line], with its
    fee and its affected quantity; the fees add up to the fee of the
    result; and every other line of the basket is as it was. *)
Theorem AbsoluteFee_apply_cheapest_first (self : Fee.t)
    (basket basket' : Basket.t) (cls : ConditionClass)
    (condition : Condition.t) (offer : ConditionalFee.t)
    (fee_amount max_total_fee : option Decimal) (r : ApplicationResult) :
  AbsoluteFee_apply self basket cls condition offer fee_amount max_total_fee
    = Ok (r, basket') →
  r ≠ ZERO_FEE →
  ∃ line_tuples (k : nat) fees,
    get_applicable_lines self offer basket (Condition.range condition)
      = Ok line_tuples
    ∧ (0 < k ≤ length line_tuples)%nat
    ∧ length fees = k
    ∧ sum_decimal fees = result_fee r
    ∧ (∀ c u, c ∈ take k line_tuples → u ∈ drop k line_tuples →
         (c.1 ≤ u.1)%Qc)
    ∧ (∀ (j : nat) t f,
         take k line_tuples !! j = Some t → fees !! j = Some f →
         Basket.all_lines basket !! t.2.1 = Some t.2.2
         ∧ Basket.all_lines basket' !! t.2.1
           = Some (apply_fee_to_line t.2.2 f (quantity_affected cls t)))
    ∧ (∀ i : nat, i ∉ covered_positions (take k line_tuples) →
         Basket.all_lines basket' !! i = Basket.all_lines basket !! i).
Proof.
  intros Happly Hr.
  apply AbsoluteFee_apply_effect in Happly as [[-> _] | Heffect]; [done|].
  destruct Heffect as (a0 & range & k & fees & Heffect). cbv zeta in Heffect.
  set (lt := sorted (omap (select_line range)
                       (enumerate (Basket.all_lines basket)))) in *.
  destruct Heffect as (Ha & Hnz & Hlt & Hcov & Hk & -> & -> & Hlen & Hsum).
  exists lt, k, fees.
  assert (length fees = length (covered_line cls <$> take k lt)) as Hlen'.
  { rewrite length_fmap, length_take. lia. }
  destruct (assignments_calls _ _ Hlen') as (Hfees & Hqs & Hpos).
  assert ((λ u : assignment, u.1.1.1)
            <$> assignments (covered_line cls <$> take k lt) fees
          = covered_positions (take k lt)) as Hpos'.
  { rewrite Hpos. unfold covered_positions.
    by rewrite <- list_fmap_compose. }
  split; [done|]. split; [done|]. split; [done|]. split; [done|].
  split; [|split].
  - intros c u Hc Hu. apply by_price_then_position_le.
    eapply (StronglySorted_app_1_elem_of _ (take k lt) (drop k lt));
      [|done..].
    rewrite take_drop. apply selection_sorted.
  - intros j t f Ht Hf.
    assert (Basket.all_lines basket !! t.2.1 = Some t.2.2) as Hline.
    { apply (selected_in_basket range).
      eapply elem_of_sublist; [|apply (sublist_take _ k)].
      by eapply list_elem_of_lookup_2. }
    split; [done|].
    change (Basket.all_lines (apply_fee_to_basket ?b _ _ _))
      with (Basket.all_lines b).
    apply (assign_lookup basket _ j (t.2, f, quantity_affected cls t));
      [| |done].
    + rewrite Hpos'. unfold covered_positions. rewrite fmap_take.
      eapply sublist_NoDup; [|apply sublist_take].
      apply selected_positions_NoDup.
    + unfold assignments. apply lookup_zip_with_Some.
      exists (covered_line cls t), f. split; [done|]. split; [|done].
      rewrite list_lookup_fmap. apply fmap_Some. by exists t.
  - intros i Hi.
    change (Basket.all_lines (apply_fee_to_basket ?b _ _ _))
      with (Basket.all_lines b).
    apply assign_lookup_other. by rewrite Hpos'.
Qed.

(** X8. What a missing range or a missing amount does to
    [AbsoluteFee.apply] with a fee amount other than zero. With no range on
    the condition and none on the fee, the call raises [AttributeError] on
    a basket that has a line, and returns [ZERO_FEE] on a basket without
    lines; the range of the fee is the one used when the condition has
    none; with no amount at all (no argument, no configured value and no
    cap), the call raises [TypeError] once a line is selected. *)
Theorem AbsoluteFee_apply_missing_field (self : Fee.t) (basket : Basket.t)
    (cls : ConditionClass) (condition : Condition.t) (offer : ConditionalFee.t)
    (fee_amount max_total_fee : option Decimal) :
  (Condition.range condition = None → Fee.range self = None →
   ∀ a0, configured_amount self fee_amount = Some a0 →
   clamp max_total_fee a0 ≠ 0%Qc →
   AbsoluteFee_apply self basket cls condition offer fee_amount max_total_fee
   = if bool_decide (Basket.all_lines basket = [])
     then Ok (ZERO_FEE, basket) else Raise AttributeError)
  ∧ (Condition.range condition = None →
     get_applicable_lines self offer basket (Condition.range condition)
     = get_applicable_lines self offer basket (Fee.range self))
  ∧ (configured_amount self fee_amount = None → max_total_fee = None →
     ∀ line_tuples,
       get_applicable_lines self offer basket (Condition.range condition)
         = Ok line_tuples →
       AbsoluteFee_apply self basket cls condition offer fee_amount
         max_total_fee
       = if bool_decide (line_tuples = [])
         then Ok (ZERO_FEE, basket) else Raise TypeError).
Proof.
  split; [|split].
  - intros Hc Hf a0 Ha Hnz.
    rewrite (AbsoluteFee_apply_amount _ _ _ _ _ _ _ a0) by done. cbv zeta.
    rewrite bool_decide_eq_false_2 by done.
    unfold get_applicable_lines. rewrite Hc, Hf.
    destruct (Basket.all_lines basket) as [|l ls]; [done|].
    by rewrite bool_decide_eq_false_2.
  - intros ->. unfold get_applicable_lines. by destruct (Fee.range self).
  - intros Ha -> line_tuples Hlt.
    unfold AbsoluteFee_apply. fold (configured_amount self fee_amount).
    rewrite Ha. cbn [bind]. rewrite bool_decide_eq_false_2 by done.
    rewrite Hlt. cbn [bind].
    case_bool_decide as Hnil; [done|]. cbv zeta.
    destruct (cover_lines_prefix cls (int (Condition.value condition))
                line_tuples []) as (k & Hcov & Hk & Hpos & _).
    specialize (Hpos Hnil).
    change (cover_lines cls (int (Condition.value condition)) line_tuples 0 []
            = (total_affected cls (take k line_tuples),
               covered_line cls <$> take k line_tuples)) in Hcov.
    rewrite Hcov. cbn [fst snd].
    assert (covered_line cls <$> take k line_tuples ≠ []) as Hne.
    { intros Hempty%fmap_nil_inv.
      destruct line_tuples, k; simpl in *; done || lia. }
    destruct (last (covered_line cls <$> take k line_tuples))
      as [[[p l] q]|] eqn:Elast.
    + by rewrite allocate_no_amount.
    + by apply last_None in Elast.
Qed.

(** * What a pass does to the basket *)

Lemma adds_fees_refl (basket : Basket.t) : adds_fees basket basket [] 0%Qc.
Proof.
  unfold adds_fees. rewrite app_nil_r.
  split; [ring|]. split; [ring|]. split; [done|]. split; [constructor|done].
Qed.

Lemma fee_value_total_app (l1 l2 : list Fee.t) :
  fee_value_total (l1 ++ l2)
  = (fee_value_total l1 + fee_value_total l2)%Qc.
Proof. unfold fee_value_total. by rewrite fmap_app, sum_decimal_app. Qed.

Lemma adds_fees_trans (b1 b2 b3 : Basket.t) (added1 added2 : list Fee.t)
    (t1 t2 : Decimal) :
  adds_fees b1 b2 added1 t1 → adds_fees b2 b3 added2 t2 →
  adds_fees b1 b3 (added1 ++ added2) (t1 + t2)%Qc.
Proof.
  intros (Hl1 & Hb1 & Hf1 & Hv1 & Ht1) (Hl2 & Hb2 & Hf2 & Hv2 & Ht2).
  unfold adds_fees.
  rewrite Hl2, Hl1, Hb2, Hb1, Hf2, Hf1, fee_value_total_app, Ht1, Ht2.
  split; [ring|]. split; [ring|]. split; [by rewrite app_assoc|].
  split; [by apply Forall_app|done].
Qed.

Lemma adds_fees_set_total_test (b b' : Basket.t) (added : list Fee.t)
    (total : Decimal) (n : Z) :
  adds_fees b b' added total →
  adds_fees b (Basket.set_total_test n b') added total.
Proof. done. Qed.

Lemma apply_fee_builtin (fee : ConditionalFee.t) (basket basket' : Basket.t)
    (r : ApplicationResult) :
  builtin_fee fee → apply_fee fee basket = Ok (r, basket') →
  (r = ZERO_FEE ∧ basket' = basket)
  ∨ ∃ ccls,
      AbsoluteFee_apply (ConditionalFee.fee fee) basket ccls
        (ConditionalFee.condition fee) fee None None = Ok (r, basket').
Proof.
  intros Hbuiltin. unfold apply_fee, is_condition_satisfied.
  destruct (Condition_proxy _) as [ccls| |]; cbn [bind]; [|done..].
  destruct (is_satisfied _ _ _ basket); simpl;
    [|intros [= <- <-]; by left].
  destruct (Fee_proxy _) as [[| |k]| |] eqn:Ef; cbn [bind]; [| | |done..].
  - done.
  - intros Happly. right. by exists ccls.
  - by apply builtin_fee_proxy in Ef.
Qed.

(** One application of a rule with a built-in fee: the result is a
    [BasketFee]; its fee is added to the lines and to the basket's total,
    and is zero or the configured value; nothing else changes. *)
Lemma apply_fee_builtin_adds (fee : ConditionalFee.t)
    (basket basket' : Basket.t) (r : ApplicationResult) :
  builtin_fee fee → apply_fee fee basket = Ok (r, basket') →
  (∃ a, r = BasketFee a)
  ∧ (∃ added, adds_fees basket basket' added (result_fee r))
  ∧ (result_fee r = 0%Qc
     ∨ Fee.value (ConditionalFee.fee fee) = Some (result_fee r))
  ∧ same_lines basket' basket
  ∧ Basket.owner basket' = Basket.owner basket
  ∧ Basket.total_test basket' = Basket.total_test basket
  ∧ Basket.fee_applications basket' = Basket.fee_applications basket.
Proof.
  intros Hbuiltin Happly.
  assert (r = ZERO_FEE ∧ basket' = basket →
          (∃ a, r = BasketFee a)
          ∧ (∃ added, adds_fees basket basket' added (result_fee r))
          ∧ (result_fee r = 0%Qc
             ∨ Fee.value (ConditionalFee.fee fee) = Some (result_fee r))
          ∧ same_lines basket' basket
          ∧ Basket.owner basket' = Basket.owner basket
          ∧ Basket.total_test basket' = Basket.total_test basket
          ∧ Basket.fee_applications basket' = Basket.fee_applications basket)
    as Hzero.
  { intros [-> ->]. split; [by eexists|]. cbn. rewrite D_0.
    split; [exists []; apply adds_fees_refl|]. split; [by left|done]. }
  apply apply_fee_builtin in Happly as [Hz | [ccls Happly]];
    [by apply Hzero| |done].
  apply AbsoluteFee_apply_effect in Happly as [Hz | Heffect];
    [by apply Hzero|].
  destruct Heffect as (a0 & range & k & fees & Heffect). cbv zeta in Heffect.
  set (lt := sorted (omap (select_line range)
                       (enumerate (Basket.all_lines basket)))) in *.
  destruct Heffect as (Ha & Hnz & Hlt & Hcov & Hk & -> & -> & Hlen & Hsum).
  cbn in Ha. cbn [clamp] in *. cbn [result_fee].
  assert (length fees = length (covered_line ccls <$> take k lt)) as Hlen'.
  { rewrite length_fmap, length_take. lia. }
  destruct (assignments_calls _ _ Hlen') as (Hfees & Hqs & Hpos).
  set (calls := assignments (covered_line ccls <$> take k lt) fees) in *.
  destruct (assign_totals basket calls) as [Hamount Hquantity].
  { apply Forall_forall. intros u Hu.
    pose proof (covered_positions_valid range basket k) as Hvalid.
    rewrite Forall_forall in Hvalid. apply Hvalid.
    assert (u.1.1.1 ∈ (λ u : assignment, u.1.1.1) <$> calls) as Hin.
    { apply list_elem_of_fmap. by exists u. }
    rewrite Hpos, <- list_fmap_compose in Hin. exact Hin. }
  destruct (apply_fee_to_basket_totals (assign basket calls)
              (ConditionalFee.fee fee) a0 1) as (Hl & _ & Hb & Hf).
  destruct (assign_keeps basket calls) as (Ho & Ht & Hta & Hfs & Hfa).
  split; [by eexists|]. split; [|split; [by right|]].
  - exists [ConditionalFee.fee fee]. unfold adds_fees.
    rewrite Hl, Hamount, Hfees, Hsum, Hb, Hf.
    unfold basket_fee_total, basket_fees. rewrite Hta, Hfs.
    split; [done|]. split; [done|]. split; [done|].
    split; [by repeat constructor|].
    unfold fee_value_total. cbn. rewrite Ha. cbn. ring.
  - split; [apply (same_lines_assign basket calls)|].
    cbn. by rewrite Ho, Ht, Hfa.
Qed.

Lemma same_lines_trans (b1 b2 b3 : Basket.t) :
  same_lines b1 b2 → same_lines b2 b3 → same_lines b1 b3.
Proof. unfold same_lines. congruence. Qed.

(** One loop of the applicator over a rule with a built-in fee. *)
Lemma apply_fee_while_builtin (fuel : nat) (fee : ConditionalFee.t) (n : Z)
    (basket basket' : Basket.t) (applications applications' : FeeApplications)
    (trace : list ApplicationResult) :
  builtin_fee fee →
  apply_fee_while fuel fee n basket applications
    = Ok (trace, basket', applications') →
  (∃ added, adds_fees basket basket' added (sum_decimal (result_fee <$> trace)))
  ∧ Forall (λ r, (∃ a, r = BasketFee a)
                 ∧ (result_fee r = 0%Qc
                    ∨ Fee.value (ConditionalFee.fee fee)
                      = Some (result_fee r)))
           trace
  ∧ same_lines basket' basket
  ∧ Basket.owner basket' = Basket.owner basket
  ∧ Basket.total_test basket'
    = Basket.total_test basket
      + Z.of_nat (length (List.filter is_successful trace))
  ∧ Basket.fee_applications basket' = Basket.fee_applications basket.
Proof.
  intros Hbuiltin. revert n basket basket' applications applications' trace.
  induction fuel as [|fuel IH]; intros n basket basket' apps apps' trace;
    [done|].
  cbn [apply_fee_while].
  destruct (get_max_applications fee (Basket.owner basket)) as [m| |];
    cbn [bind]; [|done..].
  assert (∀ b : Basket.t,
            (∃ added, adds_fees b b added (sum_decimal (result_fee <$> [])))
            ∧ Forall (λ r, (∃ a, r = BasketFee a)
                           ∧ (result_fee r = 0%Qc
                              ∨ Fee.value (ConditionalFee.fee fee)
                                = Some (result_fee r))) []
            ∧ same_lines b b ∧ Basket.owner b = Basket.owner b
            ∧ Basket.total_test b
              = Basket.total_test b
                + Z.of_nat (length (List.filter is_successful []))
            ∧ Basket.fee_applications b = Basket.fee_applications b)
    as Hnone.
  { intros b. split; [exists []; apply adds_fees_refl|].
    split; [constructor|]. cbn. split; [done|]. split; [done|].
    split; [lia|done]. }
  case_bool_decide; [|intros [= <- <- <-]; apply Hnone].
  destruct (apply_fee fee basket) as [[r b]| |] eqn:Ea; cbn [bind]; [|done..].
  apply apply_fee_builtin_adds in Ea
    as (Hfee & [added Hadds] & Hvalue & Hsame & Howner & Htest & Happs);
    [|done].
  cbn [fst snd]. cbv zeta.
  assert (sum_decimal (result_fee <$> [r]) = result_fee r) as Hone.
  { cbn. ring. }
  destruct (is_successful r) eqn:Hs; simpl.
  - destruct (is_final r).
    + intros [= <- <- <-]. rewrite Hone.
      split; [exists added; by apply adds_fees_set_total_test|].
      split; [by apply Forall_singleton|].
      split; [done|]. split; [done|]. cbn. rewrite Hs. cbn.
      split; [lia|done].
    + destruct (apply_fee_while fuel fee _ (Basket.set_total_test _ b) _)
        as [[[tr b2] a2]| |] eqn:Eloop; cbn [bind]; [|done..].
      cbn [fst snd]. intros [= <- <- <-].
      apply IH in Eloop
        as ([added' Hadds'] & Hvalue' & Hsame' & Howner' & Htest' & Happs').
      split.
      { exists (added ++ added'). rewrite fmap_cons, sum_decimal_cons.
        eapply adds_fees_trans; [|exact Hadds'].
        by apply adds_fees_set_total_test. }
      split; [by constructor|].
      split; [by eapply same_lines_trans|].
      split; [by rewrite Howner'|].
      split; [|by rewrite Happs'].
      rewrite Htest'. cbn. rewrite Hs. cbn. lia.
  - intros [= <- <- <-]. rewrite Hone.
    split; [by exists added|]. split; [by apply Forall_singleton|].
    split; [done|]. split; [done|]. cbn. rewrite Hs. cbn.
    split; [lia|done].
Qed.

(** The loops of a pass over rules with built-in fees. *)
Lemma apply_fees_for_builtin (fees : list ConditionalFee.t)
    (basket basket' : Basket.t)
    (applications applications' : FeeApplications) :
  Forall builtin_fee fees →
  apply_fees_for fees basket applications = Ok (basket', applications') →
  (∃ added total, adds_fees basket basket' added total)
  ∧ same_lines basket' basket
  ∧ Basket.owner basket' = Basket.owner basket
  ∧ Basket.fee_applications basket' = Basket.fee_applications basket.
Proof.
  intros Hbuiltin. revert basket applications.
  induction Hbuiltin as [|fee rest Hfee Hrest IH];
    intros basket applications; cbn [apply_fees_for].
  - intros [= -> ->]. split; [exists [], 0%Qc; apply adds_fees_refl|done].
  - destruct (apply_fee_while _ fee _ basket _) as [[[tr b] a]| |] eqn:Eloop;
      cbn [bind]; [|done..].
    cbn [fst snd]. intros Hrest'.
    apply apply_fee_while_builtin in Eloop
      as ([added Hadds] & _ & Hsame & Howner & _ & Happs); [|done].
    apply IH in Hrest'
      as ((added' & total' & Hadds') & Hsame' & Howner' & Happs').
    split; [eexists _, _; by eapply adds_fees_trans|].
    split; [by eapply same_lines_trans|].
    split; [by rewrite Howner'|by rewrite Happs'].
Qed.

(** X9. A pass over rules with built-in fees only annotates: it never
    adds, removes or reorders lines, never changes the key, the product,
    the quantity or a price of a line, and never changes the owner. *)
Theorem apply_fees_only_annotates (basket basket' : Basket.t)
    (fees : list ConditionalFee.t) :
  Forall builtin_fee fees →
  apply_fees basket fees = Ok basket' →
  Basket.owner basket' = Basket.owner basket
  ∧ length (Basket.all_lines basket') = length (Basket.all_lines basket)
  ∧ ∀ (i : nat) line',
      Basket.all_lines basket' !! i = Some line' →
      ∃ line,
        Basket.all_lines basket !! i = Some line
        ∧ Line.pk line' = Line.pk line
        ∧ Line.product line' = Line.product line
        ∧ Line.quantity line' = Line.quantity line
        ∧ Line.unit_effective_price line' = Line.unit_effective_price line
        ∧ Line.quantity_without_discount line'
          = Line.quantity_without_discount line.
Proof.
  intros Hbuiltin. unfold apply_fees.
  destruct (apply_fees_for fees basket ∅) as [[b a]| |] eqn:Efor;
    cbn [bind]; [|done..].
  intros [= <-].
  apply apply_fees_for_builtin in Efor as (_ & Hsame & Howner & _); [|done].
  cbn. split; [done|]. unfold same_lines in Hsame.
  split.
  - apply (f_equal length) in Hsame. by rewrite !length_fmap in Hsame.
  - intros i line' Hi.
    apply (f_equal (λ l, l !! i)) in Hsame.
    rewrite !list_lookup_fmap, Hi in Hsame.
    destruct (Basket.all_lines basket !! i) as [line|]; [|done].
    exists line. split; [done|]. cbn in Hsame. injection Hsame. done.
Qed.

(** X10. A pass over rules with built-in fees adds one and the same amount
    to the fee annotations of the lines and to the total of the fees kept
    on the basket, and this amount is the sum of the configured values of
    the fees it appends to the basket. *)
Theorem apply_fees_conserves (basket basket' : Basket.t)
    (fees : list ConditionalFee.t) :
  Forall builtin_fee fees →
  apply_fees basket fees = Ok basket' →
  ∃ added total,
    line_fee_total basket' = (line_fee_total basket + total)%Qc
    ∧ basket_fee_total basket' = (basket_fee_total basket + total)%Qc
    ∧ basket_fees basket' = basket_fees basket ++ added
    ∧ Forall (λ f, is_Some (Fee.value f)) added
    ∧ fee_value_total added = total.
Proof.
  intros Hbuiltin. unfold apply_fees.
  destruct (apply_fees_for fees basket ∅) as [[b a]| |] eqn:Efor;
    cbn [bind]; [|done..].
  intros [= <-].
  apply apply_fees_for_builtin in Efor as ((added & total & Hadds) & _);
    [|done].
  by exists added, total.
Qed.

(** * The ledger *)

Lemma FeeApplications_add_entry (applications : FeeApplications)
    (fee : ConditionalFee.t) (r : ApplicationResult) :
  ∃ a,
    FeeApplications_add applications fee r !! ConditionalFee.id fee = Some a
    ∧ Application.freq a
      = entry_freq applications (ConditionalFee.id fee) + 1
    ∧ Application.amount a
      = (entry_amount applications (ConditionalFee.id fee) + result_fee r)%Qc
    ∧ match applications !! ConditionalFee.id fee with
      | Some a0 =>
          Application.fee a = Application.fee a0
          ∧ Application.result a = Application.result a0
          ∧ Application.name a = Application.name a0
          ∧ Application.description a = Application.description a0
      | None =>
          Application.fee a = fee
          ∧ Application.result a = r
          ∧ Application.name a = ConditionalFee.name fee
          ∧ Application.description a = description r
      end.
Proof.
  unfold FeeApplications_add, entry_freq, entry_amount.
  destruct (applications !! ConditionalFee.id fee) as [a0|] eqn:E.
  - rewrite lookup_alter_eq, E. cbn. eexists. split; [done|]. done.
  - rewrite lookup_alter_eq, lookup_insert_eq. cbn.
    eexists. split; [done|]. cbn. by rewrite D_0.
Qed.

Lemma size_alter (f : Application.t → Application.t) (k : Z)
    (applications : FeeApplications) :
  size (alter f k applications) = size applications.
Proof.
  rewrite <- (size_dom (alter f k applications)), <- (size_dom applications).
  by rewrite dom_alter_L.
Qed.

Lemma FeeApplications_add_size (applications : FeeApplications)
    (fee : ConditionalFee.t) (r : ApplicationResult) :
  size (FeeApplications_add applications fee r)
  = match applications !! ConditionalFee.id fee with
    | Some _ => size applications
    | None => S (size applications)
    end.
Proof.
  unfold FeeApplications_add.
  destruct (applications !! ConditionalFee.id fee) as [a0|] eqn:E.
  - by rewrite size_alter.
  - rewrite size_alter. by rewrite map_size_insert_None.
Qed.

Lemma record_all_cons (applications : FeeApplications)
    (fee : ConditionalFee.t) (r : ApplicationResult)
    (results : list ApplicationResult) :
  record_all applications fee (r :: results)
  = record_all (FeeApplications_add applications fee r) fee results.
Proof. reflexivity. Qed.

Lemma record_all_entry (applications : FeeApplications)
    (fee : ConditionalFee.t) (r : ApplicationResult)
    (results : list ApplicationResult) :
  ∃ a,
    record_all applications fee (r :: results) !! ConditionalFee.id fee
      = Some a
    ∧ Application.freq a
      = entry_freq applications (ConditionalFee.id fee)
        + Z.of_nat (length (r :: results))
    ∧ Application.amount a
      = (entry_amount applications (ConditionalFee.id fee)
         + sum_decimal (result_fee <$> r :: results))%Qc
    ∧ match applications !! ConditionalFee.id fee with
      | Some a0 =>
          Application.fee a = Application.fee a0
          ∧ Application.result a = Application.result a0
          ∧ Application.name a = Application.name a0
          ∧ Application.description a = Application.description a0
      | None =>
          Application.fee a = fee
          ∧ Application.result a = r
          ∧ Application.name a = ConditionalFee.name fee
          ∧ Application.description a = description r
      end.
Proof.
  revert applications r.
  induction results as [|r' results IH]; intros applications r.
  - destruct (FeeApplications_add_entry applications fee r)
      as (a & Ha & Hfreq & Hamount & Hkept).
    exists a. split; [done|]. split; [cbn; lia|]. split; [|done].
    rewrite Hamount, fmap_cons, sum_decimal_cons.
    change (sum_decimal (result_fee <$> [])) with 0%Qc. by rewrite Qcplus_0_r.
  - rewrite record_all_cons.
    destruct (FeeApplications_add_entry applications fee r)
      as (a1 & Ha1 & Hfreq1 & Hamount1 & Hkept1).
    destruct (IH (FeeApplications_add applications fee r) r')
      as (a & Ha & Hfreq & Hamount & Hkept).
    unfold entry_freq, entry_amount in Hfreq, Hamount.
    rewrite Ha1 in Hfreq, Hamount, Hkept. cbn [from_option] in Hfreq, Hamount.
    exists a. split; [done|].
    split; [rewrite Hfreq, Hfreq1; cbn [length]; lia|].
    split.
    + rewrite Hamount, Hamount1, !fmap_cons, !sum_decimal_cons. ring.
    + destruct Hkept as (-> & -> & -> & ->).
      by destruct (applications !! ConditionalFee.id fee).
Qed.

Lemma record_all_size (applications : FeeApplications)
    (fee : ConditionalFee.t) (r : ApplicationResult)
    (results : list ApplicationResult) :
  size (record_all applications fee (r :: results))
  = match applications !! ConditionalFee.id fee with
    | Some _ => size applications
    | None => S (size applications)
    end.
Proof.
  revert applications r.
  induction results as [|r' results IH]; intros applications r.
  - apply FeeApplications_add_size.
  - rewrite record_all_cons, IH.
    destruct (FeeApplications_add_entry applications fee r)
      as (a1 & -> & _).
    apply FeeApplications_add_size.
Qed.

(** X11. The ledger keeps one entry per rule. After the results
    [r :: results] have been recorded for a rule with [FeeApplications.add],
    the entry of the rule counts them on top of what it counted before and
    holds their fees added to the amount it held before; an entry created
    by these calls keeps the rule, its name and the result and the
    description of the first result, an entry that existed keeps its own;
    the entries of the other rules are untouched, and the ledger grows by
    one entry exactly when the rule had none. *)
Theorem FeeApplications_add_accumulates (applications : FeeApplications)
    (fee : ConditionalFee.t) (r : ApplicationResult)
    (results : list ApplicationResult) :
  (∃ a,
     record_all applications fee (r :: results) !! ConditionalFee.id fee
       = Some a
     ∧ Application.freq a
       = entry_freq applications (ConditionalFee.id fee)
         + Z.of_nat (length (r :: results))
     ∧ Application.amount a
       = (entry_amount applications (ConditionalFee.id fee)
          + sum_decimal (result_fee <$> r :: results))%Qc
     ∧ match applications !! ConditionalFee.id fee with
       | Some a0 =>
           Application.fee a = Application.fee a0
           ∧ Application.result a = Application.result a0
           ∧ Application.name a = Application.name a0
           ∧ Application.description a = Application.description a0
       | None =>
           Application.fee a = fee
           ∧ Application.result a = r
           ∧ Application.name a = ConditionalFee.name fee
           ∧ Application.description a = description r
       end)
  ∧ (∀ k, k ≠ ConditionalFee.id fee →
       record_all applications fee (r :: results) !! k = applications !! k)
  ∧ FeeApplications_len (record_all applications fee (r :: results))
    = FeeApplications_len applications
      + match applications !! ConditionalFee.id fee with
        | Some _ => 0
        | None => 1
        end.
Proof.
  split; [apply record_all_entry|]. split.
  - intros k Hk. by apply record_all_other.
  - unfold FeeApplications_len. rewrite record_all_size.
    destruct (applications !! ConditionalFee.id fee); lia.
Qed.

Lemma record_all_nil (applications : FeeApplications)
    (fee : ConditionalFee.t) :
  record_all applications fee [] = applications.
Proof. reflexivity. Qed.

(** What recording does to the count and the amount of any key. *)
Lemma record_all_counts (applications : FeeApplications)
    (fee : ConditionalFee.t) (results : list ApplicationResult) :
  entry_freq (record_all applications fee results) (ConditionalFee.id fee)
  = entry_freq applications (ConditionalFee.id fee)
    + Z.of_nat (length results)
  ∧ entry_amount (record_all applications fee results) (ConditionalFee.id fee)
    = (entry_amount applications (ConditionalFee.id fee)
       + sum_decimal (result_fee <$> results))%Qc.
Proof.
  destruct results as [|r results].
  - rewrite record_all_nil. split; [cbn; lia|].
    change (sum_decimal (result_fee <$> [])) with 0%Qc. ring.
  - destruct (record_all_entry applications fee r results)
      as (a & Ha & Hfreq & Hamount & _).
    unfold entry_freq at 1, entry_amount at 1. rewrite Ha. cbn [from_option].
    done.
Qed.

(** An entry once made keeps its rule, and its count never decreases. *)
Lemma record_all_keeps (applications : FeeApplications)
    (fee : ConditionalFee.t) (results : list ApplicationResult) (k : Z)
    (a0 : Application.t) :
  applications !! k = Some a0 →
  ∃ a, record_all applications fee results !! k = Some a
       ∧ Application.fee a = Application.fee a0
       ∧ Application.freq a0 ≤ Application.freq a.
Proof.
  intros Ha0.
  destruct (decide (k = ConditionalFee.id fee)) as [->|Hne].
  - destruct results as [|r results].
    + exists a0. by rewrite record_all_nil.
    + destruct (record_all_entry applications fee r results)
        as (a & Ha & Hfreq & _ & Hkept).
      rewrite Ha0 in Hkept. destruct Hkept as (Hfee & _).
      exists a. split; [done|]. split; [done|].
      unfold entry_freq in Hfreq. rewrite Ha0 in Hfreq. cbn in Hfreq. lia.
  - exists a0. by rewrite record_all_other.
Qed.

Lemma apply_fees_for_keeps (fees : list ConditionalFee.t)
    (basket basket' : Basket.t) (applications applications' : FeeApplications)
    (k : Z) (a0 : Application.t) :
  apply_fees_for fees basket applications = Ok (basket', applications') →
  applications !! k = Some a0 →
  ∃ a, applications' !! k = Some a
       ∧ Application.fee a = Application.fee a0
       ∧ Application.freq a0 ≤ Application.freq a.
Proof.
  revert basket applications a0.
  induction fees as [|fee rest IH]; intros basket applications a0;
    cbn [apply_fees_for].
  - intros [= <- <-] Ha0. exists a0. split; [done|]. split; [done|lia].
  - destruct (apply_fee_while _ fee _ basket _) as [[[tr b] a]| |] eqn:Eloop;
      cbn [bind]; [|done..].
    cbn [fst snd]. intros Hrest Ha0.
    apply apply_fee_while_Ok in Eloop as (_ & _ & -> & _).
    destruct (record_all_keeps applications fee
                (List.filter is_successful tr) k a0 Ha0)
      as (a1 & Ha1 & Hfee1 & Hfreq1).
    destruct (IH _ _ _ Hrest Ha1) as (a2 & Ha2 & Hfee2 & Hfreq2).
    exists a2. split; [done|]. split; [congruence|lia].
Qed.

(** Every entry that a pass makes is the entry of one of its rules. *)
Lemma apply_fees_for_entries (fees : list ConditionalFee.t)
    (basket basket' : Basket.t) (applications applications' : FeeApplications)
    (k : Z) (a : Application.t) :
  apply_fees_for fees basket applications = Ok (basket', applications') →
  applications !! k = None →
  applications' !! k = Some a →
  Application.fee a ∈ fees
  ∧ ConditionalFee.id (Application.fee a) = k
  ∧ 1 ≤ Application.freq a.
Proof.
  revert basket applications.
  induction fees as [|fee rest IH]; intros basket applications;
    cbn [apply_fees_for].
  - intros [= <- <-] Hnone Hsome. congruence.
  - destruct (apply_fee_while _ fee _ basket _) as [[[tr b] a1]| |] eqn:Eloop;
      cbn [bind]; [|done..].
    cbn [fst snd]. intros Hrest Hnone Hsome.
    apply apply_fee_while_Ok in Eloop as (_ & _ & -> & _).
    destruct (record_all applications fee (List.filter is_successful tr) !! k)
      as [a0|] eqn:E.
    + destruct (apply_fees_for_keeps _ _ _ _ _ _ _ Hrest E)
        as (a' & Ha' & Hfee & Hfreq).
      rewrite Hsome in Ha'. injection Ha' as <-.
      destruct (decide (k = ConditionalFee.id fee)) as [->|Hne].
      2:{ rewrite record_all_other in E by done. congruence. }
      destruct (List.filter is_successful tr) as [|r results].
      { rewrite record_all_nil in E. congruence. }
      destruct (record_all_entry applications fee r results)
        as (a1 & Ha1 & Hfreq1 & _ & Hkept).
      rewrite E in Ha1. injection Ha1 as <-.
      rewrite Hnone in Hkept. destruct Hkept as (Hfee0 & _).
      unfold entry_freq in Hfreq1. rewrite Hnone in Hfreq1.
      cbn in Hfreq1.
      rewrite Hfee, Hfee0. split; [by left|]. split; [done|lia].
    + destruct (IH _ _ Hrest E Hsome) as (Hin & Hid & Hfreq).
      split; [by right|done].
Qed.

(** X12. [Applicator.apply] charges only rules in force. The call always
    ends; when it returns, the basket carries a ledger, and every entry of
    the ledger is the entry of a row of the rule table that the site query
    selects at the time of the call (of type Site, Open, its window holding
    that instant), filed under the key of that row, with a count of at
    least one. *)
Theorem Applicator_apply_rules_in_force {Request}
    (table : list ConditionalFee.t) (now : datetime) (basket : Basket.t)
    (user : option User) (request : option Request) :
  Applicator_apply table now basket user request ≠ OutOfFuel
  ∧ ∀ basket',
      Applicator_apply table now basket user request = Ok basket' →
      ∃ applications,
        Basket.fee_applications basket' = Some applications
        ∧ ∀ k a, applications !! k = Some a →
            Application.fee a ∈ table
            ∧ ConditionalFee.id (Application.fee a) = k
            ∧ site_fee_query now (Application.fee a) = true
            ∧ 1 ≤ Application.freq a.
Proof.
  unfold Applicator_apply. split; [apply apply_fees_fuel|].
  intros basket'. unfold apply_fees, get_fees, get_user_fees, get_session_fees.
  cbn [app].
  destruct (apply_fees_for _ basket ∅) as [[b apps]| |] eqn:Efor;
    cbn [bind]; [|done..].
  intros [= <-]. exists apps. split; [done|].
  intros k a Ha.
  destruct (apply_fees_for_entries _ _ _ _ _ _ _ Efor (lookup_empty k) Ha)
    as (Hin & Hid & Hfreq).
  unfold get_site_fees in Hin.
  apply list_elem_of_In, filter_In in Hin as [Hin Hquery].
  apply list_elem_of_In in Hin. done.
Qed.

Lemma apply_fee_owner (fee : ConditionalFee.t) (basket basket' : Basket.t)
    (r : ApplicationResult) :
  fees_keep_owner → apply_fee fee basket = Ok (r, basket') →
  Basket.owner basket' = Basket.owner basket.
Proof.
  intros Hkeep. unfold apply_fee, is_condition_satisfied.
  destruct (Condition_proxy _) as [ccls| |]; cbn [bind]; [|done..].
  destruct (is_satisfied _ _ _ basket); simpl; [|by intros [= <- <-]].
  destruct (Fee_proxy _) as [[| |k]| |] eqn:Ef; cbn [bind]; [| | |done..].
  - done.
  - intros [[-> ->] | Heffect]%AbsoluteFee_apply_effect; [done|].
    destruct Heffect as (a0 & range & k & fees & Heffect).
    cbv zeta in Heffect.
    destruct Heffect as (_ & _ & _ & _ & _ & _ & -> & _).
    cbn. apply assign_keeps.
  - destruct (custom_fee_apply _ _ _ _ _ _) as [e|[r' b']] eqn:Ec; [done|].
    intros [= <- <-]. by eapply Hkeep.
Qed.

Lemma apply_fee_while_owner (fuel : nat) (fee : ConditionalFee.t) (n : Z)
    (basket basket' : Basket.t) (applications applications' : FeeApplications)
    (trace : list ApplicationResult) :
  fees_keep_owner →
  apply_fee_while fuel fee n basket applications
    = Ok (trace, basket', applications') →
  Basket.owner basket' = Basket.owner basket.
Proof.
  intros Hkeep. revert n basket basket' applications applications' trace.
  induction fuel as [|fuel IH]; intros n basket basket' apps apps' trace;
    [done|].
  cbn [apply_fee_while].
  destruct (get_max_applications fee (Basket.owner basket)) as [m| |];
    cbn [bind]; [|done..].
  case_bool_decide; [|by intros [= <- <- <-]].
  destruct (apply_fee fee basket) as [[r b]| |] eqn:Ea; cbn [bind]; [|done..].
  apply apply_fee_owner in Ea; [|done].
  cbn [fst snd]. cbv zeta.
  destruct (is_successful r); simpl; [|by intros [= <- <- <-]].
  destruct (is_final r); [by intros [= <- <- <-]|].
  destruct (apply_fee_while fuel fee _ (Basket.set_total_test _ b) _)
    as [[[tr b2] a2]| |] eqn:Eloop; cbn [bind]; [|done..].
  cbn [fst snd]. intros [= <- <- <-].
  apply IH in Eloop. by rewrite Eloop.
Qed.

Lemma length_filter_le {A} (p : A → bool) (l : list A) :
  (length (List.filter p l) ≤ length l)%nat.
Proof.
  induction l as [|x l IH]; simpl; [lia|]. destruct (p x); simpl; lia.
Qed.

Lemma apply_fees_for_allowance (fees : list ConditionalFee.t)
    (basket basket' : Basket.t)
    (applications applications' : FeeApplications) :
  fees_keep_owner →
  NoDup (ConditionalFee.id <$> fees) →
  (∀ fee, fee ∈ fees → applications !! ConditionalFee.id fee = None) →
  apply_fees_for fees basket applications = Ok (basket', applications') →
  ∀ fee, fee ∈ fees →
    ∃ m, get_max_applications fee (Basket.owner basket) = Ok m
         ∧ 0 ≤ entry_freq applications' (ConditionalFee.id fee) ≤ Z.max 0 m.
Proof.
  intros Hkeep. revert basket applications.
  induction fees as [|fee rest IH]; intros basket applications Hnd Hnone;
    cbn [apply_fees_for].
  - intros _ fee Hin. by apply elem_of_nil in Hin.
  - rewrite fmap_cons in Hnd. apply NoDup_cons in Hnd as [Hnot Hnd].
    destruct (apply_fee_while _ fee _ basket _) as [[[tr b] a1]| |] eqn:Eloop;
      cbn [bind]; [|done..].
    cbn [fst snd]. intros Hrest.
    pose proof (apply_fee_while_owner _ _ _ _ _ _ _ _ Hkeep Eloop) as Howner.
    apply apply_fee_while_Ok in Eloop as ((m & Hm & Hlen) & _ & -> & _).
    assert (∀ fee', fee' ∈ rest →
              record_all applications fee (List.filter is_successful tr)
                !! ConditionalFee.id fee' = None) as Hnone'.
    { intros fee' Hin. rewrite record_all_other.
      - apply Hnone. by right.
      - intros Heq. apply Hnot. rewrite <- Heq.
        apply list_elem_of_fmap. by exists fee'. }
    intros fee' [->|Hin]%elem_of_cons.
    + exists m. split; [done|].
      unfold entry_freq.
      rewrite (apply_fees_for_other _ _ _ _ _ _ Hnot Hrest).
      destruct (record_all_counts applications fee
                  (List.filter is_successful tr)) as [Hfreq _].
      unfold entry_freq in Hfreq. rewrite Hfreq, Hnone by (by left).
      cbn [from_option].
      pose proof (length_filter_le is_successful tr) as Hle.
      destruct Hlen as [-> | Hlen]; [cbn; lia|lia].
    + rewrite <- Howner. by eapply IH.
Qed.

(** X13. The ledger never counts more applications of a rule than its
    allowance. After a pass over rules with distinct keys, none of whose
    custom fee classes changes the owner of the basket, every rule of the
    pass has an allowance for the owner, and the ledger counts at most that
    many applications of it. *)
Theorem apply_fees_within_allowance (basket basket' : Basket.t)
    (fees : list ConditionalFee.t) :
  fees_keep_owner →
  NoDup (ConditionalFee.id <$> fees) →
  apply_fees basket fees = Ok basket' →
  ∃ applications,
    Basket.fee_applications basket' = Some applications
    ∧ ∀ fee, fee ∈ fees →
        ∃ m, get_max_applications fee (Basket.owner basket) = Ok m
             ∧ 0 ≤ entry_freq applications (ConditionalFee.id fee)
                 ≤ Z.max 0 m.
Proof.
  intros Hkeep Hnd. unfold apply_fees.
  destruct (apply_fees_for fees basket ∅) as [[b apps]| |] eqn:Efor;
    cbn [bind]; [|done..].
  intros [= <-]. exists apps. split; [done|].
  apply (apply_fees_for_allowance fees basket b ∅ apps Hkeep Hnd); [|done].
  intros fee _. apply lookup_empty.
Qed.

Lemma sum_successful (value : option Decimal)
    (trace : list ApplicationResult) :
  positive_decimal_field value →
  Forall (λ r, (∃ a, r = BasketFee a)
               ∧ (result_fee r = 0%Qc ∨ value = Some (result_fee r))) trace →
  sum_decimal (result_fee <$> List.filter is_successful trace)
  = sum_decimal (result_fee <$> trace).
Proof.
  intros Hvalue. induction 1 as [|r trace [[a ->] Hr] Htrace IH]; [done|].
  cbn [List.filter]. destruct (is_successful (BasketFee a)) eqn:Hs.
  - by rewrite !fmap_cons, !sum_decimal_cons, IH.
  - rewrite fmap_cons, sum_decimal_cons, IH.
    cbn in Hs. apply bool_decide_eq_false in Hs. cbn in Hr. cbn [result_fee].
    assert (a = 0%Qc) as ->; [|ring].
    destruct Hr as [-> | Hr]; [done|].
    apply Hvalue in Hr. apply Qcle_antisym; [|done].
    by apply Qcnot_lt_le.
Qed.

Lemma ledger_cons (applications : FeeApplications) (fee : ConditionalFee.t)
    (rest : list ConditionalFee.t) :
  ledger_freq applications (fee :: rest)
  = entry_freq applications (ConditionalFee.id fee)
    + ledger_freq applications rest
  ∧ ledger_amount applications (fee :: rest)
    = (entry_amount applications (ConditionalFee.id fee)
       + ledger_amount applications rest)%Qc.
Proof. done. Qed.

Lemma apply_fees_for_ledger (fees : list ConditionalFee.t)
    (basket basket' : Basket.t)
    (applications applications' : FeeApplications) :
  Forall builtin_fee fees →
  Forall (λ fee, positive_decimal_field
                   (Fee.value (ConditionalFee.fee fee))) fees →
  NoDup (ConditionalFee.id <$> fees) →
  (∀ fee, fee ∈ fees → applications !! ConditionalFee.id fee = None) →
  apply_fees_for fees basket applications = Ok (basket', applications') →
  Basket.total_test basket'
  = Basket.total_test basket + ledger_freq applications' fees
  ∧ basket_fee_total basket'
    = (basket_fee_total basket + ledger_amount applications' fees)%Qc
  ∧ line_fee_total basket'
    = (line_fee_total basket + ledger_amount applications' fees)%Qc.
Proof.
  intros Hbuiltin. revert basket applications.
  induction Hbuiltin as [|fee rest Hfee Hrest IH];
    intros basket applications Hvalue Hnd Hnone; cbn [apply_fees_for].
  - intros [= <- <-]. unfold ledger_freq, ledger_amount, sum_Z. cbn.
    split; [lia|]. split; ring.
  - apply Forall_cons in Hvalue as [Hvalue Hvalues].
    rewrite fmap_cons in Hnd. apply NoDup_cons in Hnd as [Hnot Hnd].
    destruct (apply_fee_while _ fee _ basket _) as [[[tr b] a1]| |] eqn:Eloop;
      cbn [bind]; [|done..].
    cbn [fst snd]. intros Hrest'.
    pose proof Eloop as Eloop'.
    apply apply_fee_while_Ok in Eloop' as (_ & _ & -> & _).
    apply apply_fee_while_builtin in Eloop
      as ([added Hadds] & Htrace & _ & _ & Htest & _); [|done].
    assert (∀ fee', fee' ∈ rest →
              record_all applications fee (List.filter is_successful tr)
                !! ConditionalFee.id fee' = None) as Hnone'.
    { intros fee' Hin. rewrite record_all_other.
      - apply Hnone. by right.
      - intros Heq. apply Hnot. rewrite <- Heq.
        apply list_elem_of_fmap. by exists fee'. }
    destruct (IH _ _ Hvalues Hnd Hnone' Hrest') as (IHtest & IHbasket & IHline).
    destruct (ledger_cons applications' fee rest) as [-> ->].
    unfold entry_freq, entry_amount.
    rewrite (apply_fees_for_other _ _ _ _ _ _ Hnot Hrest').
    destruct (record_all_counts applications fee
                (List.filter is_successful tr)) as [Hfreq Hamount].
    unfold entry_freq, entry_amount in Hfreq, Hamount.
    rewrite Hfreq, Hamount, Hnone by (by left). cbn [from_option].
    rewrite (sum_successful _ _ Hvalue Htrace).
    destruct Hadds as (Hl & Hb & _).
    rewrite IHtest, IHbasket, IHline, Htest, Hl, Hb.
    split; [lia|]. split; ring.
Qed.

(** X14. The ledger and the basket agree. After a pass over rules with
    distinct keys, built-in fees and configured values that are not
    negative, the counter [total_test] of the basket has grown by the
    number of applications that the ledger counts, and the total of the
    fees kept on the basket and the fee annotations of the lines have both
    grown by the amount that the ledger holds. *)
Theorem apply_fees_ledger_agrees (basket basket' : Basket.t)
    (fees : list ConditionalFee.t) :
  Forall builtin_fee fees →
  Forall (λ fee, positive_decimal_field
                   (Fee.value (ConditionalFee.fee fee))) fees →
  NoDup (ConditionalFee.id <$> fees) →
  apply_fees basket fees = Ok basket' →
  ∃ applications,
    Basket.fee_applications basket' = Some applications
    ∧ Basket.total_test basket'
      = Basket.total_test basket + ledger_freq applications fees
    ∧ basket_fee_total basket'
      = (basket_fee_total basket + ledger_amount applications fees)%Qc
    ∧ line_fee_total basket'
      = (line_fee_total basket + ledger_amount applications fees)%Qc.
Proof.
  intros Hbuiltin Hvalue Hnd. unfold apply_fees.
  destruct (apply_fees_for fees basket ∅) as [[b apps]| |] eqn:Efor;
    cbn [bind]; [|done..].
  intros [= <-]. exists apps. split; [done|].
  apply (apply_fees_for_ledger fees basket b ∅ apps Hbuiltin Hvalue Hnd);
    [|done].
  intros fee _. apply lookup_empty.
Qed.

(** * The errors of one application *)

Lemma Condition_proxy_unknown (c : Condition.t) :
  unknown_condition_type c ↔ Condition_proxy c = Raise RuntimeError.
Proof.
  unfold unknown_condition_type, Condition_proxy.
  destruct (truthy_string (Condition.proxy_class c)).
  { split; [by intros [? _]|done]. }
  rewrite !not_elem_of_cons.
  repeat case_bool_decide; split; try done; try (by intros [_ ?]; tauto).
  intros _. split; [done|]. repeat split; try done. apply not_elem_of_nil.
Qed.

Lemma Fee_proxy_unknown (f : Fee.t) :
  unknown_fee_type f ↔ Fee_proxy f = Raise RuntimeError.
Proof.
  unfold unknown_fee_type, Fee_proxy.
  destruct (truthy_string (Fee.proxy_class f)).
  { split; [by intros [? _]|done]. }
  rewrite !not_elem_of_cons.
  repeat case_bool_decide; split; try done; try (by intros [_ ?]; tauto).
  intros _. split; [done|]. repeat split; try done. apply not_elem_of_nil.
Qed.

Lemma loop_fuel_S : loop_fuel = S (Z.to_nat 10000).
Proof. reflexivity. Qed.

Lemma apply_fees_raises (fee : ConditionalFee.t)
    (rest : list ConditionalFee.t) (basket : Basket.t) (m : Z) (e : exn) :
  get_max_applications fee (Basket.owner basket) = Ok m → 0 < m →
  apply_fee fee basket = Raise e →
  apply_fees basket (fee :: rest) = Raise e.
Proof.
  intros Hm Hpos Hraise. unfold apply_fees. cbn [apply_fees_for].
  rewrite loop_fuel_S. cbn [apply_fee_while]. rewrite Hm. cbn [bind].
  rewrite bool_decide_eq_true_2 by done. by rewrite Hraise.
Qed.

(** X15. The errors of [ConditionalFee.apply_fee], in the order in which the
    code meets them. A condition without a custom class and with a type
    other than Count, Value and Coverage raises [RuntimeError], whatever
    the basket. While the condition is not satisfied the fee is not looked
    at: the call returns [ZERO_FEE] and leaves the basket alone, even for a
    fee that could not be applied. Once the condition is satisfied, a fee
    of an unknown type raises [RuntimeError] and a Percentage fee raises
    [NotImplementedError]. An exception of the first rule of a pass that
    has an allowance left ends the pass. *)
Theorem apply_fee_errors (fee : ConditionalFee.t) (basket : Basket.t) :
  (unknown_condition_type (ConditionalFee.condition fee) →
   apply_fee fee basket = Raise RuntimeError)
  ∧ (∀ cls,
       Condition_proxy (ConditionalFee.condition fee) = Ok cls →
       is_satisfied cls (ConditionalFee.condition fee) fee basket = false →
       apply_fee fee basket = Ok (ZERO_FEE, basket))
  ∧ (∀ cls,
       Condition_proxy (ConditionalFee.condition fee) = Ok cls →
       is_satisfied cls (ConditionalFee.condition fee) fee basket = true →
       (unknown_fee_type (ConditionalFee.fee fee) →
        apply_fee fee basket = Raise RuntimeError)
       ∧ (Fee_proxy (ConditionalFee.fee fee) = Ok PercentageFee →
          apply_fee fee basket = Raise NotImplementedError))
  ∧ (∀ rest m e,
       get_max_applications fee (Basket.owner basket) = Ok m → 0 < m →
       apply_fee fee basket = Raise e →
       apply_fees basket (fee :: rest) = Raise e).
Proof.
  split; [|split; [|split]].
  - intros Hunknown%Condition_proxy_unknown.
    unfold apply_fee, is_condition_satisfied. by rewrite Hunknown.
  - intros cls Hcls Hsat.
    unfold apply_fee, is_condition_satisfied. rewrite Hcls. cbn [bind].
    by rewrite Hsat.
  - intros cls Hcls Hsat. split.
    + intros Hunknown%Fee_proxy_unknown.
      unfold apply_fee, is_condition_satisfied. rewrite Hcls. cbn [bind].
      rewrite Hsat. cbn [negb]. by rewrite Hunknown.
    + intros Hpercentage.
      unfold apply_fee, is_condition_satisfied. rewrite Hcls. cbn [bind].
      rewrite Hsat. cbn [negb]. by rewrite Hpercentage.
  - intros rest m e. apply apply_fees_raises.
Qed.

(** * The order total *)



(** * One application, whatever its arguments *)

Lemma decimal_min_le (a m : Decimal) :
  (decimal_min a m ≤ m)%Qc ∧ (decimal_min a m ≤ a)%Qc.
Proof.
  unfold decimal_min. case_bool_decide as Hlt.
  - split; [apply Qcle_refl|by apply Qclt_le_weak].
  - split; [by apply Qcnot_lt_le|apply Qcle_refl].
Qed.

(** X17. One call of [AbsoluteFee.apply] adds the fee of its result, no
    more and no less, to the fee annotations of the lines and to the total
    of the fees kept on the basket, and appends the fee to the fees kept on
    the basket unless it returns [ZERO_FEE] and leaves the basket alone.
    The fee of the result exceeds neither the cap [max_total_fee] nor the
    amount asked for, when these are not negative. *)
Theorem AbsoluteFee_apply_adds_result_fee (self : Fee.t)
    (basket basket' : Basket.t) (cls : ConditionClass)
    (condition : Condition.t) (offer : ConditionalFee.t)
    (fee_amount max_total_fee : option Decimal) (r : ApplicationResult) :
  AbsoluteFee_apply self basket cls condition offer fee_amount max_total_fee
    = Ok (r, basket') →
  line_fee_total basket' = (line_fee_total basket + result_fee r)%Qc
  ∧ basket_fee_total basket' = (basket_fee_total basket + result_fee r)%Qc
  ∧ ((r = ZERO_FEE ∧ basket' = basket)
     ∨ basket_fees basket' = basket_fees basket ++ [self])
  ∧ (∀ m, max_total_fee = Some m → (0 ≤ m)%Qc → (result_fee r ≤ m)%Qc)
  ∧ (∀ a0, configured_amount self fee_amount = Some a0 → (0 ≤ a0)%Qc →
       (result_fee r ≤ a0)%Qc).
Proof.
  intros [[-> ->] | Heffect]%AbsoluteFee_apply_effect.
  { cbn [result_fee ZERO_FEE]. rewrite D_0, !Qcplus_0_r.
    split; [done|]. split; [done|]. split; [by left|]. by split. }
  destruct Heffect as (a0 & range & k & fees & Heffect). cbv zeta in Heffect.
  set (lt := sorted (omap (select_line range)
                       (enumerate (Basket.all_lines basket)))) in *.
  destruct Heffect as (Ha & Hnz & Hlt & Hcov & Hk & -> & -> & Hlen & Hsum).
  cbn [result_fee].
  assert (length fees = length (covered_line cls <$> take k lt)) as Hlen'.
  { rewrite length_fmap, length_take. lia. }
  destruct (assignments_calls _ _ Hlen') as (Hfees & Hqs & Hpos).
  set (calls := assignments (covered_line cls <$> take k lt) fees) in *.
  destruct (assign_totals basket calls) as [Hamount Hquantity].
  { apply Forall_forall. intros u Hu.
    pose proof (covered_positions_valid range basket k) as Hvalid.
    rewrite Forall_forall in Hvalid. apply Hvalid.
    assert (u.1.1.1 ∈ (λ u : assignment, u.1.1.1) <$> calls) as Hin.
    { apply list_elem_of_fmap. by exists u. }
    rewrite Hpos, <- list_fmap_compose in Hin. exact Hin. }
  destruct (apply_fee_to_basket_totals (assign basket calls) self
              (clamp max_total_fee a0) 1) as (Hl & _ & Hb & Hf).
  destruct (assign_keeps basket calls) as (_ & _ & Hta & Hfs & _).
  rewrite Hl, Hamount, Hfees, Hsum, Hb, Hf.
  unfold basket_fee_total, basket_fees. rewrite Hta, Hfs.
  split; [done|]. split; [done|]. split; [by right|]. split.
  - intros m -> _. apply decimal_min_le.
  - intros a Ha' _. rewrite Ha in Ha'. injection Ha' as <-.
    destruct max_total_fee as [m|]; [apply decimal_min_le|apply Qcle_refl].
Qed.

(** * A basket without lines *)

Lemma is_successful_ZERO_FEE : is_successful ZERO_FEE = false.
Proof. compute_done. Qed.

Lemma apply_fee_empty (fee : ConditionalFee.t) (basket basket' : Basket.t)
    (r : ApplicationResult) :
  Basket.all_lines basket = [] → builtin_fee fee →
  apply_fee fee basket = Ok (r, basket') →
  r = ZERO_FEE ∧ basket' = basket.
Proof.
  intros Hempty Hbuiltin [Hz | [ccls Happly]]%apply_fee_builtin; [done| |done].
  apply AbsoluteFee_apply_effect in Happly as [Hz | Heffect]; [done|].
  destruct Heffect as (a0 & range & k & fees & Heffect). cbv zeta in Heffect.
  destruct Heffect as (_ & _ & _ & _ & Hk & _).
  rewrite Hempty in Hk. cbn in Hk. lia.
Qed.

Lemma apply_fee_while_empty (fuel : nat) (fee : ConditionalFee.t) (n : Z)
    (basket basket' : Basket.t) (applications applications' : FeeApplications)
    (trace : list ApplicationResult) :
  Basket.all_lines basket = [] → builtin_fee fee →
  apply_fee_while fuel fee n basket applications
    = Ok (trace, basket', applications') →
  basket' = basket ∧ applications' = applications.
Proof.
  intros Hempty Hbuiltin. destruct fuel as [|fuel]; [done|].
  cbn [apply_fee_while].
  destruct (get_max_applications fee (Basket.owner basket)) as [m| |];
    cbn [bind]; [|done..].
  case_bool_decide; [|by intros [= <- <- <-]].
  destruct (apply_fee fee basket) as [[r b]| |] eqn:Ea; cbn [bind]; [|done..].
  apply apply_fee_empty in Ea as [-> ->]; [|done..].
  cbn [fst snd]. cbv zeta. rewrite is_successful_ZERO_FEE. cbn [negb].
  by intros [= <- <- <-].
Qed.

(** X18. A basket without lines is never charged. A pass over rules with
    built-in fees on a basket without lines, when it returns, has attached
    an empty ledger and changed nothing else, whatever the conditions of the
    rules say. *)
Theorem apply_fees_empty_basket (basket basket' : Basket.t)
    (fees : list ConditionalFee.t) :
  Basket.all_lines basket = [] →
  Forall builtin_fee fees →
  apply_fees basket fees = Ok basket' →
  basket' = Basket.set_fee_applications (Some ∅) basket.
Proof.
  intros Hempty Hbuiltin. unfold apply_fees.
  assert (∀ applications b a,
            apply_fees_for fees basket applications = Ok (b, a) →
            b = basket ∧ a = applications) as Hfor.
  { induction Hbuiltin as [|fee rest Hfee Hrest IH];
      intros applications b a; cbn [apply_fees_for].
    - by intros [= <- <-].
    - destruct (apply_fee_while _ fee _ basket _) as [[[tr b1] a1]| |]
        eqn:Eloop; cbn [bind]; [|done..].
      apply apply_fee_while_empty in Eloop as [-> ->]; [|done..].
      cbn [fst snd]. apply IH. }
  destruct (apply_fees_for fees basket ∅) as [[b a]| |] eqn:Efor;
    cbn [bind]; [|done..].
  apply Hfor in Efor as [-> ->]. by intros [= <-].
Qed.

(** * The rounding drift of the default rounding *)

Lemma of_int_plus (a b : Z) : of_int (a + b) = (of_int a + of_int b)%Qc.
Proof.
  apply Qc_is_canon. unfold of_int, Qc_of_Z, Qcplus. cbn [this Q2Qc].
  rewrite !Qred_correct. by rewrite inject_Z_plus.
Qed.

Lemma of_int_0 : of_int 0 = 0%Qc.
Proof. by apply Qc_is_canon. Qed.

Lemma of_int_1 : of_int 1 = 1%Qc.
Proof. by apply Qc_is_canon. Qed.

Lemma of_int_pos (n : Z) : 0 < n → (0 < of_int n)%Qc.
Proof.
  intros Hn. unfold Qclt, of_int, Qc_of_Z. cbn [this Q2Qc].
  rewrite Qred_correct. unfold Qlt. simpl. lia.
Qed.

Lemma D_nonneg (n : Z) : 0 ≤ n → (0 ≤ D n)%Qc.
Proof.
  intros Hn. change (this 0%Qc <= this (D n))%Q. rewrite D_this.
  unfold Qle. simpl. lia.
Qed.

Lemma quantize_down_nonneg (a : Decimal) :
  (0 ≤ a)%Qc → (0 ≤ quantize_down a)%Qc.
Proof.
  intros Ha. unfold quantize_down. apply D_nonneg.
  assert (0 ≤ a * of_int 100)%Qc as Hx.
  { apply Qcmult_nonneg_nonneg; [done|]. compute_done. }
  set (x := (a * of_int 100)%Qc) in *. clearbody x.
  unfold int. apply Z.quot_pos; [|done].
  unfold Qcle, Qle in Hx. simpl in Hx. lia.
Qed.

Lemma exact_share_nonneg (amount : Decimal) (num_affected : Z)
    (c : Decimal * LineRef * Z) :
  (0 ≤ amount)%Qc → 0 < c.2 → 0 < num_affected →
  (0 ≤ exact_share amount num_affected c)%Qc.
Proof.
  intros Ha Hq Hn. unfold exact_share, Qcdiv.
  apply Qcmult_nonneg_nonneg.
  - apply Qcmult_nonneg_nonneg; [done|].
    by apply Qclt_le_weak, of_int_pos.
  - by apply Qclt_le_weak, Qcinv_pos, of_int_pos.
Qed.

Lemma exact_share_sum (amount : Decimal) (num_affected : Z)
    (covered_lines : list (Decimal * LineRef * Z)) :
  sum_decimal (exact_share amount num_affected <$> covered_lines)
  = (amount
     * of_int (sum_Z ((λ c : Decimal * LineRef * Z, c.2) <$> covered_lines))
     / of_int num_affected)%Qc.
Proof.
  induction covered_lines as [|c cov IH].
  - change (0%Qc = (amount * of_int 0 / of_int num_affected)%Qc).
    unfold Qcdiv. rewrite of_int_0. ring.
  - rewrite !fmap_cons, sum_decimal_cons, IH.
    unfold sum_Z. cbn [foldr]. fold (sum_Z ((λ c, c.2) <$> cov)).
    rewrite of_int_plus. unfold exact_share, Qcdiv. ring.
Qed.

Lemma exact_share_total (amount : Decimal) (num_affected : Z) :
  0 < num_affected →
  (amount * of_int num_affected / of_int num_affected)%Qc = amount.
Proof.
  intros Hn. unfold Qcdiv. rewrite <- Qcmult_assoc, Qcmult_inv_r.
  - ring.
  - apply not_eq_sym, Qclt_not_eq. by apply of_int_pos.
Qed.

(** The rounded shares of a list of lines are together at most their exact
    shares, and fall short of them by at most one hundredth per line. *)
Lemma shares_drift (amount : Decimal) (num_affected : Z)
    (covered_lines : list (Decimal * LineRef * Z)) :
  OSCAR_OFFER_ROUNDING_FUNCTION = None →
  (0 ≤ amount)%Qc → 0 < num_affected →
  Forall (λ c : Decimal * LineRef * Z, 0 < c.2) covered_lines →
  (0 ≤ sum_decimal (exact_share amount num_affected <$> covered_lines)
       - sum_decimal (share amount num_affected <$> covered_lines))%Qc
  ∧ (sum_decimal (exact_share amount num_affected <$> covered_lines)
     - sum_decimal (share amount num_affected <$> covered_lines)
     ≤ of_int (Z.of_nat (length covered_lines)) * D 1)%Qc.
Proof.
  intros Hround Ha Hn.
  induction 1 as [|c cov Hc Hcov [IHlo IHhi]].
  - cbn. split; compute_done.
  - rewrite !fmap_cons, !sum_decimal_cons.
    set (E := sum_decimal (exact_share amount num_affected <$> cov)) in *.
    set (Sh := sum_decimal (share amount num_affected <$> cov)) in *.
    pose proof (exact_share_nonneg amount num_affected c Ha Hc Hn) as He.
    destruct (quantize_down_le _ He) as [Hlo Hhi].
    assert (share amount num_affected c
            = quantize_down (exact_share amount num_affected c)) as Hshare.
    { unfold share. by rewrite round_default. }
    rewrite Hshare.
    set (e := exact_share amount num_affected c) in *.
    set (s := quantize_down e) in *.
    replace (e + E - (s + Sh))%Qc with ((e - s) + (E - Sh))%Qc by ring.
    split.
    + replace 0%Qc with (0 + 0)%Qc by ring.
      apply Qcplus_le_compat; [|done].
      apply Qcle_minus_iff in Hlo. exact Hlo.
    + cbn [length]. rewrite Nat2Z.inj_succ, <- Z.add_1_l, of_int_plus.
      replace ((of_int 1 + of_int (Z.of_nat (length cov))) * D 1)%Qc
        with (D 1 + of_int (Z.of_nat (length cov)) * D 1)%Qc.
      2:{ rewrite of_int_1. ring. }
      apply Qcplus_le_compat; [|done].
      replace (D 1) with ((s + D 1) - s)%Qc by ring.
      unfold Qcminus.
      apply Qcplus_le_compat; [by apply Qclt_le_weak|apply Qcle_refl].
Qed.

Lemma fragments_snoc (amount : Decimal) (num_affected : Z)
    (init : list (Decimal * LineRef * Z)) (c : Decimal * LineRef * Z) :
  fragments amount num_affected (init ++ [c])
  = (share amount num_affected <$> init)
    ++ [(amount - sum_decimal (share amount num_affected <$> init))%Qc].
Proof. unfold fragments. by rewrite removelast_last. Qed.

(** The fees that the allocation rule states, under the default rounding:
    none is negative; a line other than the last is charged its exact share
    rounded down, less than a hundredth below it; the last line is charged
    at least its exact share and at most one hundredth per other line
    more. *)
Lemma fragments_drift (amount : Decimal) (num_affected : Z)
    (covered_lines : list (Decimal * LineRef * Z)) (j : nat)
    (c : Decimal * LineRef * Z) (f : Decimal) :
  OSCAR_OFFER_ROUNDING_FUNCTION = None →
  (0 ≤ amount)%Qc →
  Forall (λ c : Decimal * LineRef * Z, 0 < c.2) covered_lines →
  num_affected
  = sum_Z ((λ c : Decimal * LineRef * Z, c.2) <$> covered_lines) →
  covered_lines !! j = Some c →
  fragments amount num_affected covered_lines !! j = Some f →
  (0 ≤ f)%Qc
  ∧ (S j < length covered_lines →
     (f ≤ exact_share amount num_affected c)%Qc
     ∧ (exact_share amount num_affected c < f + D 1)%Qc)%nat
  ∧ (S j = length covered_lines →
     (exact_share amount num_affected c ≤ f)%Qc
     ∧ (f ≤ exact_share amount num_affected c
            + of_int (Z.of_nat j) * D 1)%Qc).
Proof.
  intros Hround Ha Hq Hn Hc Hf.
  destruct (decide (covered_lines = [])) as [->|Hne]; [done|].
  destruct (exists_last Hne) as (init & c' & ->).
  apply Forall_app in Hq as [Hinit Hc']. rewrite Forall_singleton in Hc'.
  assert (0 < num_affected) as Hpos.
  { rewrite Hn, fmap_app. unfold sum_Z. rewrite foldr_app.
    change (foldr Z.add 0 ((λ c : Decimal * LineRef * Z, c.2) <$> [c']))
      with (c'.2 + 0).
    assert (∀ l : list (Decimal * LineRef * Z), ∀ z,
              0 < z → Forall (λ c : Decimal * LineRef * Z, 0 < c.2) l →
              0 < foldr Z.add z ((λ c : Decimal * LineRef * Z, c.2) <$> l))
      as Hfold.
    { intros l z Hz. induction 1 as [|x l Hx Hl IH]; [done|].
      rewrite fmap_cons. cbn [foldr]. lia. }
    apply Hfold; [lia|done]. }
  rewrite fragments_snoc in Hf. rewrite length_app. cbn [length].
  destruct (decide (j < length init)%nat) as [Hj|Hj].
  - rewrite lookup_app_l in Hc by done.
    rewrite lookup_app_l in Hf by (by rewrite length_fmap).
    rewrite list_lookup_fmap, Hc in Hf. injection Hf as <-.
    assert (0 < c.2) as Hcq.
    { rewrite Forall_forall in Hinit. apply Hinit.
      by eapply list_elem_of_lookup_2. }
    pose proof (exact_share_nonneg amount num_affected c Ha Hcq Hpos) as He.
    assert (share amount num_affected c
            = quantize_down (exact_share amount num_affected c)) as ->.
    { unfold share. by rewrite round_default. }
    destruct (quantize_down_le _ He) as [Hlo Hhi].
    split; [by apply quantize_down_nonneg|].
    split; [done|]. lia.
  - assert (j = length init) as ->.
    { apply lookup_lt_Some in Hc. rewrite length_app in Hc. cbn in Hc. lia. }
    rewrite list_lookup_middle in Hc by done. injection Hc as <-.
    rewrite lookup_app_r in Hf by (by rewrite length_fmap).
    rewrite length_fmap, Nat.sub_diag in Hf. injection Hf as <-.
    pose proof (exact_share_sum amount num_affected (init ++ [c'])) as Hsum.
    rewrite <- Hn, exact_share_total in Hsum by done.
    rewrite fmap_app, sum_decimal_app in Hsum.
    change (sum_decimal (exact_share amount num_affected <$> [c']))
      with (exact_share amount num_affected c' + 0)%Qc in Hsum.
    destruct (shares_drift amount num_affected init Hround Ha Hpos Hinit)
      as [Hlo Hhi].
    set (E := sum_decimal (exact_share amount num_affected <$> init)) in *.
    set (Sh := sum_decimal (share amount num_affected <$> init)) in *.
    set (e := exact_share amount num_affected c') in *.
    assert ((amount - Sh)%Qc = (e + (E - Sh))%Qc) as ->.
    { rewrite <- Hsum. ring. }
    pose proof (exact_share_nonneg amount num_affected c' Ha Hc' Hpos) as He.
    fold e in He.
    assert (e ≤ e + (E - Sh))%Qc as Hle.
    { rewrite <- (Qcplus_0_r e) at 1.
      apply Qcplus_le_compat; [apply Qcle_refl|done]. }
    split; [by eapply Qcle_trans|].
    split; [lia|]. intros _. split; [done|].
    apply Qcplus_le_compat; [apply Qcle_refl|done].
Qed.

(** X19. The rounding drift of an allocation under the default rounding
    (no rounding function configured). On a basket whose lines have
    distinct keys and positive quantities, [AbsoluteFee.apply] with a
    positive amount charges no covered line a negative fee; every covered
    line but the last is charged its proportional share rounded down, less
    than one hundredth below it; the last one is charged at least its
    proportional share, and at most one hundredth per other covered line
    more. *)
Theorem AbsoluteFee_apply_rounding_drift (self : Fee.t) (basket : Basket.t)
    (cls : ConditionClass) (condition : Condition.t) (offer : ConditionalFee.t)
    (fee_amount max_total_fee : option Decimal) (a0 : Decimal)
    (line_tuples : list (Decimal * LineRef)) :
  OSCAR_OFFER_ROUNDING_FUNCTION = None →
  configured_amount self fee_amount = Some a0 →
  (0 < clamp max_total_fee a0)%Qc →
  get_applicable_lines self offer basket (Condition.range condition)
    = Ok line_tuples →
  line_tuples ≠ [] →
  NoDup (Line.pk <$> Basket.all_lines basket) →
  Forall (λ l, 0 < Line.quantity l) (Basket.all_lines basket) →
  let amount := clamp max_total_fee a0 in
  let covered :=
    cover_lines cls (int (Condition.value condition)) line_tuples 0 [] in
  ∃ fees,
    AbsoluteFee_apply self basket cls condition offer fee_amount max_total_fee
      = Ok (BasketFee amount,
            apply_fee_to_basket
              (assign basket (assignments covered.2 fees)) self amount 1)
    ∧ length fees = length covered.2
    ∧ ∀ (j : nat) c f,
        covered.2 !! j = Some c → fees !! j = Some f →
        (0 ≤ f)%Qc
        ∧ (S j < length covered.2 →
           (f ≤ exact_share amount covered.1 c)%Qc
           ∧ (exact_share amount covered.1 c < f + D 1)%Qc)%nat
        ∧ (S j = length covered.2 →
           (exact_share amount covered.1 c ≤ f)%Qc
           ∧ (f ≤ exact_share amount covered.1 c
                  + of_int (Z.of_nat j) * D 1)%Qc).
Proof.
  intros Hround Ha Hpos Hlt Hne Hpk Hq amount covered.
  assert (clamp max_total_fee a0 ≠ 0%Qc) as Hnz.
  { by apply not_eq_sym, Qclt_not_eq. }
  destruct (AbsoluteFee_apply_fragments self basket cls condition offer
              fee_amount max_total_fee a0 line_tuples Ha Hnz Hlt Hne Hpk Hq)
    as (Happly & Hlen & _).
  exists (fragments amount covered.1 covered.2).
  split; [exact Happly|]. split; [exact Hlen|].
  intros j c f Hc Hf.
  destruct (get_applicable_lines_nonempty _ _ _ _ _ Hlt Hne) as [r Hr].
  destruct (cover_lines_prefix cls (int (Condition.value condition))
              line_tuples []) as (k & Hcov & Hk & _).
  change (cover_lines cls (int (Condition.value condition)) line_tuples 0 []
          = (total_affected cls (take k line_tuples),
             covered_line cls <$> take k line_tuples)) in Hcov.
  subst covered. rewrite Hcov in *. cbn [fst snd] in *.
  apply (fragments_drift amount _ _ j c f Hround); [| | |done|done].
  - by apply Qclt_le_weak.
  - apply Forall_fmap, Forall_forall. intros t Ht.
    pose proof (elem_of_sublist _ _ _ Ht (sublist_take _ _)) as Ht'.
    eapply quantity_affected_pos; [done|].
    apply (selected_in_basket r). by rewrite <- Hr.
  - unfold total_affected. by rewrite <- list_fmap_compose.
Qed.

End Effects.

(** * The added properties on the concrete shop *)

Lemma shop_fees_keep_owner : @fees_keep_owner shop.
Proof.
  intros klass self basket cls condition offer r basket' Happly.
  cbn in Happly. by injection Happly as _ <-.
Qed.

(** The fixed fee of 10.00 under a Coverage condition of 2 falls on the two
    cheapest of three lines; the line at 20.00 is left as it was. *)
Lemma AbsoluteFee_apply_cheapest_first_witness :
  ∃ r basket' line_tuples (k : nat) fees,
    @AbsoluteFee_apply shop (mk_fee FIXED 1000) three_lines CoverageCondition
      (mk_condition "Coverage" 2) (absolute_rule 1 2) None None
      = Ok (r, basket')
    ∧ @get_applicable_lines shop (mk_fee FIXED 1000) (absolute_rule 1 2)
        three_lines (Condition.range (mk_condition "Coverage" 2))
      = Ok line_tuples
    ∧ (0 < k ≤ length line_tuples)%nat
    ∧ length fees = k
    ∧ sum_decimal fees = result_fee r
    ∧ (∀ c u, c ∈ take k line_tuples → u ∈ drop k line_tuples →
         (c.1 ≤ u.1)%Qc)
    ∧ (∀ (j : nat) t f,
         take k line_tuples !! j = Some t → fees !! j = Some f →
         Basket.all_lines three_lines !! t.2.1 = Some t.2.2
         ∧ Basket.all_lines basket' !! t.2.1
           = Some (apply_fee_to_line t.2.2 f
                     (@quantity_affected shop CoverageCondition t)))
    ∧ (∀ i : nat, i ∉ covered_positions (take k line_tuples) →
         Basket.all_lines basket' !! i = Basket.all_lines three_lines !! i).
Proof.
  destruct (@AbsoluteFee_apply shop (mk_fee FIXED 1000) three_lines
              CoverageCondition (mk_condition "Coverage" 2)
              (absolute_rule 1 2) None None) as [[r basket']| |] eqn:Eapply;
    [|vm_compute in Eapply; discriminate..].
  assert (r ≠ ZERO_FEE) as Hr.
  { pose proof Eapply as E. vm_compute in E. injection E as <- _.
    compute_done. }
  destruct (@AbsoluteFee_apply_cheapest_first shop _ _ _ _ _ _ _ _ _
              Eapply Hr) as (line_tuples & k & fees & Hcheapest).
  by exists r, basket', line_tuples, k, fees.
Defined.

(** Without a range, the allocation fails on a basket with lines; without
    an amount, it fails once lines are selected. *)
Lemma AbsoluteFee_apply_missing_field_witness :
  @AbsoluteFee_apply shop (mk_fee FIXED 1000) two_lines CountCondition
    rangeless_condition (absolute_rule 1 1) None None
  = (if bool_decide (Basket.all_lines two_lines = [])
     then Ok (ZERO_FEE, two_lines) else Raise AttributeError)
  ∧ @AbsoluteFee_apply shop valueless_fee two_lines CountCondition
      (mk_condition "Count" 1) (absolute_rule 1 1) None None
    = (if bool_decide (five_and_three = [])
       then Ok (ZERO_FEE, two_lines) else Raise TypeError).
Proof.
  split.
  - apply (@AbsoluteFee_apply_missing_field shop (mk_fee FIXED 1000)
             two_lines CountCondition rangeless_condition (absolute_rule 1 1)
             None None) with (a0 := D 1000).
    + reflexivity.
    + reflexivity.
    + reflexivity.
    + compute_done.
  - apply (@AbsoluteFee_apply_missing_field shop valueless_fee two_lines
             CountCondition (mk_condition "Count" 1) (absolute_rule 1 1)
             None None).
    + reflexivity.
    + reflexivity.
    + compute_done.
Defined.

(** A pass of the fixed fee of 10.00 over two lines keeps the lines and the
    owner. *)
Lemma apply_fees_only_annotates_witness :
  ∃ basket',
    @apply_fees shop two_lines [unlimited_absolute_rule] = Ok basket'
    ∧ Basket.owner basket' = Basket.owner two_lines
    ∧ length (Basket.all_lines basket') = length (Basket.all_lines two_lines).
Proof.
  destruct (@apply_fees shop two_lines [unlimited_absolute_rule])
    as [basket'| |] eqn:Epass; [|vm_compute in Epass; discriminate..].
  destruct (@apply_fees_only_annotates shop two_lines basket'
              [unlimited_absolute_rule]) as (Howner & Hlength & _).
  - repeat constructor.
  - exact Epass.
  - by exists basket'.
Defined.

(** The same pass adds 10.00 to the lines and to the basket. *)
Lemma apply_fees_conserves_witness :
  ∃ basket' added total,
    @apply_fees shop two_lines [unlimited_absolute_rule] = Ok basket'
    ∧ line_fee_total basket' = (line_fee_total two_lines + total)%Qc
    ∧ basket_fee_total basket' = (basket_fee_total two_lines + total)%Qc
    ∧ basket_fees basket' = basket_fees two_lines ++ added
    ∧ Forall (λ f, is_Some (Fee.value f)) added
    ∧ fee_value_total added = total.
Proof.
  destruct (@apply_fees shop two_lines [unlimited_absolute_rule])
    as [basket'| |] eqn:Epass; [|vm_compute in Epass; discriminate..].
  destruct (@apply_fees_conserves shop two_lines basket'
              [unlimited_absolute_rule]) as (added & total & Hadds).
  - repeat constructor.
  - exact Epass.
  - by exists basket', added, total.
Defined.

(** Two results recorded for a rule the ledger did not hold: one entry,
    counted twice, keeping the first result. *)
Lemma FeeApplications_add_accumulates_witness :
  ∃ a,
    record_all ∅ (custom_rule None)
      [OtherResult false true (D 100) None; BasketFee (D 250)] !! 2 = Some a
    ∧ Application.freq a = 2
    ∧ Application.amount a = D 350
    ∧ Application.result a = OtherResult false true (D 100) None.
Proof.
  destruct (FeeApplications_add_accumulates ∅ (custom_rule None)
              (OtherResult false true (D 100) None) [BasketFee (D 250)])
    as ((a & Ha & Hfreq & Hamount & Hkept) & _).
  exists a. split; [exact Ha|]. split; [exact Hfreq|].
  split; [rewrite Hamount; compute_done|]. apply Hkept.
Defined.

(** Of the three rules of the table, only the first is in force at instant
    150: the ledger holds nothing else. *)
Lemma Applicator_apply_rules_in_force_witness :
  ∃ basket' applications,
    @Applicator_apply shop unit rule_table 150 two_lines None None
      = Ok basket'
    ∧ Basket.fee_applications basket' = Some applications
    ∧ ∀ k a, applications !! k = Some a →
        Application.fee a ∈ rule_table
        ∧ ConditionalFee.id (Application.fee a) = k
        ∧ site_fee_query 150 (Application.fee a) = true
        ∧ 1 ≤ Application.freq a.
Proof.
  destruct (@Applicator_apply shop unit rule_table 150 two_lines None None)
    as [basket'| |] eqn:Eapply; [|vm_compute in Eapply; discriminate..].
  destruct (@Applicator_apply_rules_in_force shop unit rule_table 150
              two_lines None None) as [_ Hforce].
  destruct (Hforce basket' Eapply) as (applications & Happs & Hentries).
  by exists basket', applications.
Defined.

(** A custom fee that could be charged again and again is counted three
    times under a basket limit of 3. *)
Lemma apply_fees_within_allowance_witness :
  ∃ basket' applications,
    @apply_fees shop two_lines [custom_rule (Some 3)] = Ok basket'
    ∧ Basket.fee_applications basket' = Some applications
    ∧ ∀ fee, fee ∈ [custom_rule (Some 3)] →
        ∃ m, get_max_applications fee (Basket.owner two_lines) = Ok m
             ∧ 0 ≤ entry_freq applications (ConditionalFee.id fee)
                 ≤ Z.max 0 m.
Proof.
  destruct (@apply_fees shop two_lines [custom_rule (Some 3)])
    as [basket'| |] eqn:Epass; [|vm_compute in Epass; discriminate..].
  destruct (@apply_fees_within_allowance shop two_lines basket'
              [custom_rule (Some 3)]) as (applications & Happs & Hbound).
  - exact shop_fees_keep_owner.
  - repeat constructor. set_solver.
  - exact Epass.
  - by exists basket', applications.
Defined.

(** After the pass of the fixed fee of 10.00, ledger, basket and lines
    agree. *)
Lemma apply_fees_ledger_agrees_witness :
  ∃ basket' applications,
    @apply_fees shop two_lines [unlimited_absolute_rule] = Ok basket'
    ∧ Basket.fee_applications basket' = Some applications
    ∧ Basket.total_test basket'
      = Basket.total_test two_lines
        + ledger_freq applications [unlimited_absolute_rule]
    ∧ basket_fee_total basket'
      = (basket_fee_total two_lines
         + ledger_amount applications [unlimited_absolute_rule])%Qc
    ∧ line_fee_total basket'
      = (line_fee_total two_lines
         + ledger_amount applications [unlimited_absolute_rule])%Qc.
Proof.
  destruct (@apply_fees shop two_lines [unlimited_absolute_rule])
    as [basket'| |] eqn:Epass; [|vm_compute in Epass; discriminate..].
  destruct (@apply_fees_ledger_agrees shop two_lines basket'
              [unlimited_absolute_rule]) as (applications & Hagree).
  - repeat constructor.
  - repeat constructor. intros v Hv. injection Hv as <-. compute_done.
  - repeat constructor. set_solver.
  - exact Epass.
  - by exists basket', applications.
Defined.

(** A condition of type Weight raises [RuntimeError]; a Percentage fee
    raises [NotImplementedError] once its condition is satisfied, and ends
    the pass. *)
Lemma apply_fee_errors_witness :
  @apply_fee shop weight_rule two_lines = Raise RuntimeError
  ∧ @apply_fee shop percentage_rule two_lines = Raise NotImplementedError
  ∧ @apply_fees shop two_lines [percentage_rule; unlimited_absolute_rule]
    = Raise NotImplementedError.
Proof.
  destruct (@apply_fee_errors shop weight_rule two_lines) as (Hweight & _).
  destruct (@apply_fee_errors shop percentage_rule two_lines)
    as (_ & _ & Hfee & Hpass).
  split; [|split].
  - apply Hweight. split; [reflexivity|]. compute_done.
  - apply (Hfee CountCondition); reflexivity.
  - apply (Hpass [unlimited_absolute_rule] 10000 NotImplementedError).
    + reflexivity.
    + lia.
    + apply (Hfee CountCondition); reflexivity.
Defined.


(** 10.00 over three lines under the default rounding: 3.33, 3.33 and
    3.34, each within the bounds. *)
Lemma AbsoluteFee_apply_rounding_drift_witness :
  let covered :=
    @cover_lines shop CoverageCondition
      (int (Condition.value (mk_condition "Coverage" 3)))
      three_lines_selected 0 [] in
  ∃ fees,
    @AbsoluteFee_apply shop (mk_fee FIXED 1000) three_lines CoverageCondition
      (mk_condition "Coverage" 3) (absolute_rule 1 3) None None
      = Ok (BasketFee (D 1000),
            @apply_fee_to_basket
              (assign three_lines (assignments covered.2 fees))
              (mk_fee FIXED 1000) (D 1000) 1)
    ∧ length fees = length covered.2
    ∧ ∀ (j : nat) c f,
        covered.2 !! j = Some c → fees !! j = Some f →
        (0 ≤ f)%Qc
        ∧ (S j < length covered.2 →
           (f ≤ exact_share (D 1000) covered.1 c)%Qc
           ∧ (exact_share (D 1000) covered.1 c < f + D 1)%Qc)%nat
        ∧ (S j = length covered.2 →
           (exact_share (D 1000) covered.1 c ≤ f)%Qc
           ∧ (f ≤ exact_share (D 1000) covered.1 c
                  + of_int (Z.of_nat j) * D 1)%Qc).
Proof.
  apply (@AbsoluteFee_apply_rounding_drift shop (mk_fee FIXED 1000)
           three_lines CoverageCondition (mk_condition "Coverage" 3)
           (absolute_rule 1 3) None None (D 1000) three_lines_selected).
  - reflexivity.
  - reflexivity.
  - compute_done.
  - compute_done.
  - discriminate.
  - compute_done.
  - compute_done.
Defined.

(** 10.00 capped at 4.00: the call adds 4.00 to the lines and to the
    basket. *)
Lemma AbsoluteFee_apply_adds_result_fee_witness :
  ∃ r basket',
    @AbsoluteFee_apply shop (mk_fee FIXED 1000) two_lines CountCondition
      (mk_condition "Count" 6) (absolute_rule 1 6) None (Some (D 400))
      = Ok (r, basket')
    ∧ line_fee_total basket' = (line_fee_total two_lines + result_fee r)%Qc
    ∧ basket_fee_total basket'
      = (basket_fee_total two_lines + result_fee r)%Qc
    ∧ (result_fee r ≤ D 400)%Qc.
Proof.
  destruct (@AbsoluteFee_apply shop (mk_fee FIXED 1000) two_lines
              CountCondition (mk_condition "Count" 6) (absolute_rule 1 6)
              None (Some (D 400))) as [[r basket']| |] eqn:Eapply;
    [|vm_compute in Eapply; discriminate..].
  destruct (@AbsoluteFee_apply_adds_result_fee shop _ _ _ _ _ _ _ _ _ Eapply)
    as (Hlines & Hbasket & _ & Hcap & _).
  exists r, basket'. split; [reflexivity|]. split; [exact Hlines|].
  split; [exact Hbasket|]. apply Hcap; [reflexivity|compute_done].
Defined.

(** A pass over the basket without lines attaches an empty ledger. *)
Lemma apply_fees_empty_basket_witness :
  ∃ basket',
    @apply_fees shop (mk_basket []) [absolute_rule 1 0] = Ok basket'
    ∧ basket' = Basket.set_fee_applications (Some ∅) (mk_basket []).
Proof.
  destruct (@apply_fees shop (mk_basket []) [absolute_rule 1 0])
    as [basket'| |] eqn:Epass; [|vm_compute in Epass; discriminate..].
  exists basket'. split; [reflexivity|].
  apply (@apply_fees_empty_basket shop (mk_basket []) basket'
           [absolute_rule 1 0]).
  - reflexivity.
  - repeat constructor.
  - exact Epass.
Defined.
